(** * Server side of the replication stream (synapse/replication)

    A shallow embedding of the two source files

      - [synapse/replication/tcp_resource.py]: the stream class, the
        connection protocol, and the streamer, whose [on_notifier_poke]
        is in module [TcpResource];
      - [synapse/replication/tcp/resource.py]: [_batch_updates], and the
        streamer, whose [on_notifier_poke] is in module [Tcp].

    Python objects are records, sets are [gset], dicts are [gmap];
    exceptions are carried by the [result] type; a generator function
    decorated with [defer.inlineCallbacks] is split at each [yield] into
    the part that runs up to the suspension and the part that runs when
    the awaited value arrives. *)

From Stdlib Require Import Ascii String.
From stdpp Require Import base numbers list strings gmap.

Open Scope Z_scope.

(** ** Python values, exceptions *)

Inductive exn :=
  | ValueError (msg : string)
  | AttributeError (msg : string)
  | Exception (args : list string).

Inductive result (A : Type) :=
  | Return (a : A)
  | Raise (e : exn).
Arguments Return {A} a.
Arguments Raise {A} e.

Definition is_raise {A} (r : result A) : bool :=
  match r with Raise _ => true | Return _ => false end.

(** The columns of a database row after the first, and [ujson.dumps] of
    them.  The encoder is a collaborator of the code; its output is kept
    as a term. *)
Inductive pyobj :=
  | PyLong (z : Z)
  | PyStr (s : string)
  | PyBool (b : bool)
  | PyNone.

Inductive json_text :=
  | json_dumps (v : list pyobj).

(** A row as the update functions return it: [row[0]] and [row[1:]]. *)
Record Row := { row_0 : Z; row_rest : list pyobj }.

(** ** String helpers: [str.strip()], [str.split(" ", 1)], [long(str)] *)

Definition is_space (c : ascii) : bool :=
  let n := nat_of_ascii c in
  bool_decide (n = 32 ∨ (9 <= n ∧ n <= 13))%nat.

Fixpoint lstrip (s : string) : string :=
  match s with
  | EmptyString => EmptyString
  | String c s' => if is_space c then lstrip s' else s
  end.

Fixpoint rstrip (s : string) : string :=
  match s with
  | EmptyString => EmptyString
  | String c s' =>
      match rstrip s' with
      | EmptyString => if is_space c then EmptyString else String c EmptyString
      | r => String c r
      end
  end.

Definition strip (s : string) : string := rstrip (lstrip s).

(** [s.split(" ", 1)]: a list of one or of two strings. *)
Fixpoint split_1 (s : string) : list string :=
  match s with
  | EmptyString => [EmptyString]
  | String c s' =>
      if Ascii.eqb c " " then [EmptyString; s']
      else match split_1 s' with
           | a :: tl => String c a :: tl
           | [] => [String c EmptyString]
           end
  end.

(** [a, b = xs]: tuple unpacking of a list into two names. *)
Definition unpack2 (xs : list string) : result (string * string) :=
  match xs with
  | [a; b] => Return (a, b)
  | [] | [_] => Raise (ValueError "need more than 1 value to unpack")
  | _ => Raise (ValueError "too many values to unpack")
  end.

Definition digit_of (c : ascii) : option Z :=
  let n := nat_of_ascii c in
  if bool_decide (48 <= n ∧ n <= 57)%nat then Some (Z.of_nat n - 48) else None.

Fixpoint digits (acc : Z) (s : string) : option Z :=
  match s with
  | EmptyString => Some acc
  | String c s' =>
      match digit_of c with
      | Some d => digits (10 * acc + d) s'
      | None =>
          (* a trailing [L] or [l] is accepted by Python 2 *)
          match s' with
          | EmptyString =>
              if bool_decide (c = "L"%char ∨ c = "l"%char) then Some acc else None
          | _ => None
          end
      end
  end.

Definition unsigned_digits (s : string) : option Z :=
  match s with
  | EmptyString => None
  | String c _ => match digit_of c with Some _ => digits 0 s | None => None end
  end.

(** [long(s)] for a [str]: base ten, surrounding white space ignored, an
    optional sign. *)
Definition long_of_str (s : string) : result Z :=
  let body := strip s in
  let parsed :=
    match body with
    | String "-" r => Z.opp <$> unsigned_digits r
    | String "+" r => unsigned_digits r
    | _ => unsigned_digits body
    end in
  match parsed with
  | Some z => Return z
  | None => Raise (ValueError "invalid literal for long() with base 10")
  end.

(** A token as [get_updates_since] receives it: a [str] taken from the
    wire by [on_REPLICATE], or the [long] kept in [last_token]. *)
Inductive pytoken :=
  | TokStr (s : string)
  | TokLong (z : Z).

Definition long (t : pytoken) : result Z :=
  match t with
  | TokLong z => Return z
  | TokStr s => long_of_str s
  end.

(** [from_token in ("NOW", "now")] *)
Definition is_now (t : pytoken) : bool :=
  match t with
  | TokStr s => bool_decide (s = "NOW" ∨ s = "now")
  | TokLong _ => false
  end.

(** ** [_batch_updates] (tcp/resource.py) *)

Definition _batch_updates {A : Type} (updates : list (Z * A)) : list (option Z * A) :=
  match updates with
  | [] => []
  | _ :: _ =>
      imap (fun i update =>
              match updates !! S i with
              | Some next =>
                  if bool_decide (update.1 = next.1)
                  then (None, update.2)
                  else (Some update.1, update.2)
              | None => (Some update.1, update.2)
              end) (removelast updates)
      ++ match last updates with
         | Some l => [(Some l.1, l.2)]
         | None => []
         end
  end.

(** ** [class Stream] (tcp_resource.py) *)

Definition MAX_EVENTS_BEHIND : Z := 10000.

(** [current_token] is what a call of the bound method
    [self.current_token()] returns now; the data store moves it. *)
Record Stream := {
  NAME : string;
  last_token : Z;
  upto_token : Z;
  current_token : Z;
}.

Definition set_last_token (s : Stream) (t : Z) : Stream :=
  {| NAME := NAME s; last_token := t; upto_token := upto_token s;
     current_token := current_token s |}.

Definition set_upto_token (s : Stream) (t : Z) : Stream :=
  {| NAME := NAME s; last_token := last_token s; upto_token := t;
     current_token := current_token s |}.

Definition set_current_token (s : Stream) (t : Z) : Stream :=
  {| NAME := NAME s; last_token := last_token s; upto_token := upto_token s;
     current_token := t |}.

(** [Stream.__init__]: [first] and [second] are what the two calls of
    [self.current_token()] return. *)
Definition Stream_init (name : string) (first second : Z) : Stream :=
  {| NAME := name; last_token := first; upto_token := second;
     current_token := second |}.

Definition advance_current_token (s : Stream) : Stream :=
  set_upto_token s (current_token s).

Definition updates_t := list (Z * json_text).

(** The call [self.update_function(from_token, current_token, limit=...)]
    on which [get_updates_since] suspends. *)
Record fetch_call := {
  fc_from : Z;
  fc_to : Z;
  fc_limit : Z;
}.

(** [get_updates_since] up to its [yield]: it has returned, has raised,
    or awaits the rows of a fetch, holding its local [current_token]. *)
Inductive gus_state :=
  | GusDone (r : result (updates_t * Z))
  | GusAwait (call : fetch_call) (current_token : Z).

Definition get_updates_since_begin (s : Stream) (from_token : pytoken) : gus_state :=
  if is_now from_token then GusDone (Return ([], upto_token s))
  else
    let current_token := upto_token s in
    match long from_token with
    | Raise e => GusDone (Raise e)
    | Return from_token =>
        if bool_decide (from_token = current_token)
        then GusDone (Return ([], current_token))
        else GusAwait {| fc_from := from_token; fc_to := current_token;
                         fc_limit := MAX_EVENTS_BEHIND + 1 |} current_token
    end.

(** [get_updates_since] from the [yield] on, given what the deferred of
    the update function fired with. *)
Definition get_updates_since_resume (name : string) (current_token : Z)
    (fetched : result (list Row)) : result (updates_t * Z) :=
  match fetched with
  | Raise e => Raise e
  | Return rows =>
      if bool_decide (Z.of_nat (length rows) >= MAX_EVENTS_BEHIND)
      then Raise (Exception ["stream " +:+ name +:+ " has fallen behined"])
      else
        let updates := (fun row => (row_0 row, json_dumps (row_rest row))) <$> rows in
        Return (updates, current_token)
  end.

(** The whole of [get_updates_since], the update function given as the
    value its deferred fires with for each call. *)
Definition get_updates_since (s : Stream) (from_token : pytoken)
    (update_function : fetch_call -> result (list Row)) : result (updates_t * Z) :=
  match get_updates_since_begin s from_token with
  | GusDone r => r
  | GusAwait call current_token =>
      get_updates_since_resume (NAME s) current_token (update_function call)
  end.

(** [get_updates] from the point where [get_updates_since] has
    finished: [self.last_token = current_token] on a normal return only. *)
Definition get_updates_finish (s : Stream) (r : result (updates_t * Z))
    : Stream * result (updates_t * Z) :=
  match r with
  | Raise e => (s, Raise e)
  | Return (updates, current_token) =>
      (set_last_token s current_token, Return (updates, current_token))
  end.

Definition get_updates (s : Stream)
    (update_function : fetch_call -> result (list Row))
    : Stream * result (updates_t * Z) :=
  get_updates_finish s (get_updates_since s (TokLong (last_token s)) update_function).

(** ** Commands and the lines put on the wire (tcp_resource.py) *)

Module Cmd.
Definition RDATA : string := "RDATA".
Definition POSITION : string := "POSITION".
Definition ERROR : string := "ERROR".
Definition PING : string := "PING".
Definition REPLICATE : string := "REPLICATE".
Definition NAME : string := "NAME".
Definition USER_SYNC : string := "USER_SYNC".
End Cmd.

Definition VALID_SERVER_COMMANDS : list string :=
  [Cmd.RDATA; Cmd.POSITION; Cmd.ERROR; Cmd.PING].
Definition VALID_CLIENT_COMMANDS : list string :=
  [Cmd.NAME; Cmd.REPLICATE; Cmd.PING; Cmd.USER_SYNC].

(** An argument of [error_string % args]. *)
Inductive fmt_arg :=
  | FStr (s : string)
  | FRepr (e : exn).

(** A value handed to [send_command]; [str(value)] is not expanded. *)
Inductive pyval :=
  | VStr (s : string)
  | VLong (z : Z)
  | VNone
  | VJson (j : json_text)
  | VFormat (error_string : string) (args : list fmt_arg).

Definition VToken (token : option Z) : pyval :=
  match token with Some z => VLong z | None => VNone end.

(** The string ["%s %s" % (cmd, " ".join(str(value) for value in values))]
    given to [sendLine], kept as its two parts. *)
Record line := Line { l_cmd : string; l_values : list pyval }.

(** ** [class ReplicationStreamProtocol] (tcp_resource.py) *)

Record ReplicationStreamProtocol := {
  name : option string;
  replication_streams : gset string;
  connecting_streams : gset string;
  pending_rdata : gmap string (list (option Z * json_text));
  last_received_ping : option Z;
  (** the lines given to [sendLine], oldest first *)
  sent : list line;
  (** [transport.loseConnection()] has been called *)
  lost : bool;
}.

(** [ReplicationStreamProtocol.__init__] *)
Definition Protocol_init : ReplicationStreamProtocol :=
  {| name := None; replication_streams := ∅; connecting_streams := ∅;
     pending_rdata := ∅; last_received_ping := None; sent := []; lost := false |}.

(** Methods run on [self] and may raise: state passing with a result. *)
Definition M (A : Type) : Type :=
  ReplicationStreamProtocol → result A * ReplicationStreamProtocol.

#[global] Instance M_ret : MRet M := λ A a c, (Return a, c).
#[global] Instance M_bind : MBind M := λ A B k m c,
  match m c with
  | (Return a, c') => k a c'
  | (Raise e, c') => (Raise e, c')
  end.

Definition mraise {A} (e : exn) : M A := λ c, (Raise e, c).
Definition lift {A} (r : result A) : M A := λ c, (r, c).
Definition modify (f : ReplicationStreamProtocol → ReplicationStreamProtocol)
    : M unit := λ c, (Return tt, f c).

(** [try: body except Exception as e: handler(e)] *)
Definition try_except {A} (body : M A) (handler : exn → M A) : M A :=
  λ c, match body c with
       | (Return a, c') => (Return a, c')
       | (Raise e, c') => handler e c'
       end.

(** [try: body finally: final] *)
Definition try_finally {A} (body : M A) (final : M unit) : M A :=
  λ c, match body c with
       | (r, c') =>
           match final c' with
           | (Return _, c'') => (r, c'')
           | (Raise e, c'') => (Raise e, c'')
           end
       end.

(** [for x in xs: body(x)] *)
Fixpoint for_each {A} (xs : list A) (body : A → M unit) : M unit :=
  match xs with
  | [] => mret tt
  | x :: xs' => body x ;; for_each xs' body
  end.

(** Assignments to the attributes of [self]. *)
Definition with_name (n : option string) (c : ReplicationStreamProtocol) :=
  {| name := n; replication_streams := replication_streams c;
     connecting_streams := connecting_streams c;
     pending_rdata := pending_rdata c;
     last_received_ping := last_received_ping c;
     sent := sent c; lost := lost c |}.

Definition with_replication_streams (f : gset string → gset string)
    (c : ReplicationStreamProtocol) :=
  {| name := name c; replication_streams := f (replication_streams c);
     connecting_streams := connecting_streams c;
     pending_rdata := pending_rdata c;
     last_received_ping := last_received_ping c;
     sent := sent c; lost := lost c |}.

Definition with_connecting_streams (f : gset string → gset string)
    (c : ReplicationStreamProtocol) :=
  {| name := name c; replication_streams := replication_streams c;
     connecting_streams := f (connecting_streams c);
     pending_rdata := pending_rdata c;
     last_received_ping := last_received_ping c;
     sent := sent c; lost := lost c |}.

Definition with_pending_rdata
    (f : gmap string (list (option Z * json_text))
         → gmap string (list (option Z * json_text)))
    (c : ReplicationStreamProtocol) :=
  {| name := name c; replication_streams := replication_streams c;
     connecting_streams := connecting_streams c;
     pending_rdata := f (pending_rdata c);
     last_received_ping := last_received_ping c;
     sent := sent c; lost := lost c |}.

Definition with_last_received_ping (t : option Z) (c : ReplicationStreamProtocol) :=
  {| name := name c; replication_streams := replication_streams c;
     connecting_streams := connecting_streams c;
     pending_rdata := pending_rdata c;
     last_received_ping := t;
     sent := sent c; lost := lost c |}.

Definition with_sent (f : list line → list line) (c : ReplicationStreamProtocol) :=
  {| name := name c; replication_streams := replication_streams c;
     connecting_streams := connecting_streams c;
     pending_rdata := pending_rdata c;
     last_received_ping := last_received_ping c;
     sent := f (sent c); lost := lost c |}.

Definition with_lost (b : bool) (c : ReplicationStreamProtocol) :=
  {| name := name c; replication_streams := replication_streams c;
     connecting_streams := connecting_streams c;
     pending_rdata := pending_rdata c;
     last_received_ping := last_received_ping c;
     sent := sent c; lost := b |}.

Definition sendLine (l : line) : M unit := modify (with_sent (λ ls, ls ++ [l])).

Definition loseConnection : M unit := modify (with_lost true).

Definition send_command (cmd : string) (values : list pyval) : M unit :=
  if bool_decide (cmd ∉ VALID_SERVER_COMMANDS)
  then mraise (Exception ["Invalid command %r"; cmd])
  else sendLine (Line cmd values).

Definition send_error (error_string : string) (args : list fmt_arg) : M unit :=
  send_command "ERROR" [VFormat error_string args] ;;
  loseConnection.

Definition on_NAME (line : string) : M unit := modify (with_name (Some line)).

(** [time_msec] is what [self.clock.time_msec()] returns. *)
Definition on_PING (time_msec : Z) (line : string) : M unit :=
  modify (with_last_received_ping (Some time_msec)).

Definition stream_update (stream : string) (token : option Z) (data : json_text)
    : M unit :=
  λ c,
    if bool_decide (stream ∈ replication_streams c)
    then send_command Cmd.RDATA [VStr stream; VToken token; VJson data] c
    else if bool_decide (stream ∈ connecting_streams c)
    then modify (with_pending_rdata
           (λ m, <[stream := default [] (m !! stream) ++ [(token, data)]]> m)) c
    else (Return tt, c).

(** [self.pending_rdata.pop(stream_name, [])] *)
Definition pop_pending_rdata (stream_name : string)
    : M (list (option Z * json_text)) :=
  λ c, (modify (with_pending_rdata (delete stream_name)) ;;
        mret (default [] (pending_rdata c !! stream_name))) c.

(** ** [ReplicationStreamer.get_stream_updates] *)

(** [streams_by_name] is built once from [streams] and holds the same
    stream objects; a later stream of the same name replaces an earlier
    one in the dict comprehension. *)
Definition streams_by_name (streams : list Stream) (stream_name : string)
    : option Stream :=
  last (filter (λ s, NAME s = stream_name) streams).

(** Returns the deferred of [stream.get_updates_since(token)], given here
    as the state that call is in, with the stream's name. *)
Definition get_stream_updates (streams : list Stream) (stream_name : string)
    (token : pytoken) : result (string * gus_state) :=
  match streams_by_name streams stream_name with
  | None => Raise (Exception ["unknown stream %s"; stream_name])
  | Some stream => Return (NAME stream, get_updates_since_begin stream token)
  end.

(** ** [ReplicationStreamProtocol.on_REPLICATE] *)

(** What a suspended [on_REPLICATE] holds: its [stream_name], and the
    locals of the [get_updates_since] it waits for. *)
Record replicate_wait := {
  rw_stream_name : string;
  rw_NAME : string;
  rw_call : fetch_call;
  rw_current_token : Z;
}.

(** The [try] statement of [on_REPLICATE] from the point where the
    [yield] produces [got]: a value, or an exception thrown into the
    generator. *)
Definition on_REPLICATE_try (stream_name : string)
    (got : result (updates_t * Z)) : M unit :=
  try_finally
    (try_except
       ('(updates, current_token) ← lift got;
        for_each updates (λ update,
          let token := update.1 in
          let row := update.2 in
          send_command Cmd.RDATA [VStr stream_name; VLong token; VJson row]) ;;
        pending_rdata ← pop_pending_rdata stream_name;
        for_each pending_rdata (λ pending,
          let token := pending.1 in
          let update := pending.2 in
          send_command Cmd.RDATA [VStr stream_name; VToken token; VJson update]) ;;
        send_command Cmd.POSITION [VStr stream_name; VLong current_token] ;;
        modify (with_replication_streams (λ s, {[stream_name]} ∪ s)))
       (λ e, send_error "failed to handle replicate: %r" [FRepr e]))
    (modify (with_connecting_streams (λ s, s ∖ {[stream_name]}))).

(** How far a call of [on_REPLICATE] got: its deferred has fired with a
    result, or the generator is suspended on a fetch. *)
Inductive replicate_state :=
  | ReplDone (r : result unit)
  | ReplAwait (w : replicate_wait).

Definition on_REPLICATE (streams : list Stream) (line : string)
    : ReplicationStreamProtocol → replicate_state * ReplicationStreamProtocol :=
  λ c,
    match unpack2 (split_1 line) with
    | Raise e => (ReplDone (Raise e), c)
    | Return (stream_name, token) =>
        let c1 :=
          (modify (with_replication_streams (λ s, s ∖ {[stream_name]})) ;;
           modify (with_connecting_streams (λ s, {[stream_name]} ∪ s))) c in
        let finish got :=
          let '(r, c2) := on_REPLICATE_try stream_name got c1.2 in
          (ReplDone r, c2) in
        match get_stream_updates streams stream_name (TokStr token) with
        | Raise e => finish (Raise e)
        | Return (_, GusDone r) => finish r
        | Return (NAME, GusAwait call current_token) =>
            (ReplAwait {| rw_stream_name := stream_name; rw_NAME := NAME;
                          rw_call := call; rw_current_token := current_token |},
             c1.2)
        end
    end.

(** The suspended [on_REPLICATE] is resumed when the update function's
    deferred fires with [fetched]. *)
Definition on_REPLICATE_resume (w : replicate_wait) (fetched : result (list Row))
    : M unit :=
  on_REPLICATE_try (rw_stream_name w)
    (get_updates_since_resume (rw_NAME w) (rw_current_token w) fetched).

(** ** One subscription, with the poke loop delivering meanwhile *)

(** A call [conn.stream_update(stream, token, data)] made by the poke
    loop. *)
Record delivery := {
  d_stream : string;
  d_token : option Z;
  d_data : json_text;
}.

(** The calls arrive one after the other; the caller drops what a call
    raises. *)
Definition deliveries (ds : list delivery) (c : ReplicationStreamProtocol)
    : ReplicationStreamProtocol :=
  foldl (λ c d, (stream_update (d_stream d) (d_token d) (d_data d) c).2) c ds.

(** What the [yield] of [on_REPLICATE] produces for [stream_name] and
    [token] when the fetch, if one is made, fires with [fetched]. *)
Definition replicate_got (streams : list Stream) (stream_name token : string)
    (fetched : result (list Row)) : result (updates_t * Z) :=
  match get_stream_updates streams stream_name (TokStr token) with
  | Raise e => Raise e
  | Return (_, GusDone r) => r
  | Return (NAME, GusAwait _ current_token) =>
      get_updates_since_resume NAME current_token fetched
  end.

(** A [REPLICATE] line handled from start to end: the deliveries [ds]
    arrive while the fetch is in flight, which then fires with [fetched]. *)
Definition replicate_session (streams : list Stream) (line : string)
    (ds : list delivery) (fetched : result (list Row))
    (c : ReplicationStreamProtocol) : result unit * ReplicationStreamProtocol :=
  match on_REPLICATE streams line c with
  | (ReplDone r, c') => (r, c')
  | (ReplAwait w, c1) => on_REPLICATE_resume w fetched (deliveries ds c1)
  end.

(** The [RDATA] line of one delivery, and the pairs a connection buffers
    for [stream] out of [ds]. *)
Definition rdata (stream : string) (u : option Z * json_text) : line :=
  Line Cmd.RDATA [VStr stream; VToken u.1; VJson u.2].

Definition buffered (stream : string) (ds : list delivery)
    : list (option Z * json_text) :=
  (λ d, (d_token d, d_data d)) <$> filter (λ d, d_stream d = stream) ds.

(** ** [ReplicationStreamProtocol.on_USER_SYNC] and [lineReceived] *)

(** What a call of [lineReceived] leaves behind once it has returned. *)
Inductive dispatched :=
  | Nothing
  | Replicate (st : replicate_state).

(** [self.streamer] is the [ReplicationStreamer] of tcp_resource.py,
    made by the factory; that class defines no [on_user_sync], so
    looking the attribute up in [self.streamer.on_user_sync(user_id,
    state)] raises [AttributeError] before anything is called. *)
Definition on_USER_SYNC (line : string) : M dispatched :=
  '(state, user_id) ← lift (unpack2 (split_1 line));
  if bool_decide (state ∉ ["start"; "end"])
  then send_error "invalide USER_SYNC state" [] ;; mret Nothing
  else mraise (AttributeError
                 "'ReplicationStreamer' object has no attribute 'on_user_sync'").

Definition lineReceived (streams : list Stream) (time_msec : Z) (line : string)
    : M dispatched :=
  if bool_decide (strip line = "")
  then mret Nothing
  else
    '(cmd, rest_of_line) ← lift (unpack2 (split_1 line));
    if bool_decide (cmd ∉ VALID_CLIENT_COMMANDS)
    then send_error "unkown command: %s" [FStr cmd] ;; mret Nothing
    else if bool_decide (cmd = Cmd.NAME)
    then on_NAME rest_of_line ;; mret Nothing
    else if bool_decide (cmd = Cmd.REPLICATE)
    then λ c, let '(st, c') := on_REPLICATE streams rest_of_line c in
              (Return (Replicate st), c')
    else if bool_decide (cmd = Cmd.PING)
    then on_PING time_msec rest_of_line ;; mret Nothing
    else on_USER_SYNC rest_of_line.

(** ** [class ReplicationStreamer]: state, suspended generators, call log *)

(** The streamer only calls [conn.stream_update(stream, token, data)] on
    the objects in [self.connections]; any class with that method will
    do.  The call may raise, and leaves the connection in some state
    either way. *)
Class Connection (Conn : Type) :=
  conn_stream_update : string → option Z → json_text → Conn → result unit * Conn.

#[global] Instance Protocol_Connection : Connection ReplicationStreamProtocol :=
  stream_update.

(** A generator of [on_notifier_poke] suspended at
    [yield stream.get_updates()]: the position of [stream] in
    [self.streams], and the local [current_token] of the
    [get_updates_since] it waits for. *)
Record frame := {
  f_index : nat;
  f_current_token : Z;
}.

(** What the poke loop does, in the order it does it. *)
Inductive effect :=
  | PassBegin
  | Advance (name : string)
  | GetUpdates (name : string)
  | Fetch (name : string) (call : fetch_call)
  | FailedToReplicate (name : string)
  | PassEnd
  | Raised (e : exn).

Definition is_PassBegin (e : effect) : bool :=
  match e with PassBegin => true | _ => false end.
Definition is_PassEnd (e : effect) : bool :=
  match e with PassEnd => true | _ => false end.
Definition is_Raised (e : effect) : bool :=
  match e with Raised _ => true | _ => false end.
Definition is_Advance (e : effect) : bool :=
  match e with Advance _ => true | _ => false end.

(** How many entries of a log satisfy [p]. *)
Definition count (p : effect → bool) (l : list effect) : nat :=
  length (filter (λ e, p e = true) l).

(** The attributes of the streamer that the poke loop reads and writes,
    with the generators of [on_notifier_poke] that are suspended and the
    log of effects so far. *)
Record Streamer (Conn : Type) := {
  connections : list Conn;
  streams : list Stream;
  is_looping : bool;
  pending_updates : bool;
  suspended : list frame;
  log : list effect;
}.
Arguments connections {Conn} _.
Arguments streams {Conn} _.
Arguments is_looping {Conn} _.
Arguments pending_updates {Conn} _.
Arguments suspended {Conn} _.
Arguments log {Conn} _.

Section streamer_state.
Context {Conn : Type}.
Implicit Types w : Streamer Conn.

(** [ReplicationStreamer.__init__] *)
Definition Streamer_init (streams : list Stream) : Streamer Conn :=
  {| connections := []; streams := streams; is_looping := false;
     pending_updates := false; suspended := []; log := [] |}.

Definition with_connections (f : list Conn → list Conn) w : Streamer Conn :=
  {| connections := f (connections w); streams := streams w;
     is_looping := is_looping w; pending_updates := pending_updates w;
     suspended := suspended w; log := log w |}.

Definition with_streams (f : list Stream → list Stream) w : Streamer Conn :=
  {| connections := connections w; streams := f (streams w);
     is_looping := is_looping w; pending_updates := pending_updates w;
     suspended := suspended w; log := log w |}.

Definition with_is_looping (b : bool) w : Streamer Conn :=
  {| connections := connections w; streams := streams w;
     is_looping := b; pending_updates := pending_updates w;
     suspended := suspended w; log := log w |}.

Definition with_pending_updates (b : bool) w : Streamer Conn :=
  {| connections := connections w; streams := streams w;
     is_looping := is_looping w; pending_updates := b;
     suspended := suspended w; log := log w |}.

Definition with_suspended (f : list frame → list frame) w : Streamer Conn :=
  {| connections := connections w; streams := streams w;
     is_looping := is_looping w; pending_updates := pending_updates w;
     suspended := f (suspended w); log := log w |}.

Definition logged (l : list effect) w : Streamer Conn :=
  {| connections := connections w; streams := streams w;
     is_looping := is_looping w; pending_updates := pending_updates w;
     suspended := suspended w; log := log w ++ l |}.

(** [for stream in self.streams: stream.advance_current_token()] *)
Definition advance_all w : Streamer Conn :=
  logged (Advance ∘ NAME <$> streams w)
    (with_streams (fmap advance_current_token) w).

(** The [finally] clause of [on_notifier_poke]. *)
Definition finally w : Streamer Conn :=
  with_is_looping false (with_pending_updates false w).

(** An exception leaves [on_notifier_poke] through its [finally]. *)
Definition propagate (e : exn) w : Streamer Conn :=
  finally (logged [Raised e] w).

(** How a run of the [for stream in self.streams] loop stops. *)
Inductive loop_exit :=
  | Suspended (w : Streamer Conn)
  | Ended (w : Streamer Conn)
  | Raising (e : exn) (w : Streamer Conn).

Context `{!Connection Conn}.

(** [try: conn.stream_update(name, token, row)
     except Exception: logger.exception("Failed to replicate")] *)
Definition try_stream_update (name : string) (token : option Z) (row : json_text)
    (conn : Conn) : Conn * list effect :=
  match conn_stream_update name token row conn with
  | (Return _, conn') => (conn', [])
  | (Raise _, conn') => (conn', [FailedToReplicate name])
  end.

(** What happens to the streamer between two runs of its code:
    [on_notifier_poke] is called; the deferred that the suspended
    generator number [k] waits for fires; a connection is appended to
    [self.connections] or removed from it, or changes state by handling
    a command of its own; the position of stream number [i] in the data
    store moves to [token]. *)
Inductive event :=
  | Wake
  | FetchDone (k : nat) (fetched : result (list Row))
  | NewConnection (conn : Conn)
  | LostConnection (i : nat)
  | ConnectionChanged (i : nat) (conn : Conn)
  | NewData (i : nat) (token : Z).
End streamer_state.
Arguments loop_exit : clear implicits.
Arguments event : clear implicits.

Section streamer_events.
Context {Conn : Type}.

(** The events that run no code of the poke loop. *)
Definition world_step (w : Streamer Conn) (ev : event Conn) : Streamer Conn :=
  match ev with
  | NewConnection conn => with_connections (λ cs, cs ++ [conn]) w
  | LostConnection i => with_connections (delete i) w
  | ConnectionChanged i conn => with_connections (<[i := conn]>) w
  | NewData i token =>
      with_streams (alter (λ s, set_current_token s token) i) w
  | Wake | FetchDone _ _ => w
  end.

(** The position of a stream in its data store never goes back. *)
Definition source_monotone (w : Streamer Conn) (ev : event Conn) : Prop :=
  match ev with
  | NewData i token =>
      ∀ s, streams w !! i = Some s → current_token s <= token
  | _ => True
  end.

(** What follows the [for] loop over the streams when it stops as [x];
    [again] is the enclosing [while] from the end of its body on. *)
Definition after_for (again : Streamer Conn → option (Streamer Conn))
    (x : loop_exit Conn) : option (Streamer Conn) :=
  match x with
  | Suspended w => Some w
  | Raising e w => Some (propagate e w)
  | Ended w => again (logged [PassEnd] w)
  end.
End streamer_events.

(** ** [ReplicationStreamer.on_notifier_poke] of tcp_resource.py *)

Module TcpResource.
Section poke.
Context {Conn : Type} `{!Connection Conn}.
Implicit Types w : Streamer Conn.

(** [for conn in self.connections: try: conn.stream_update(...)] *)
Definition send_update (name : string) (update : Z * json_text) w
    : Streamer Conn :=
  let token := update.1 in
  let row := update.2 in
  let tried := try_stream_update name (Some token) row <$> connections w in
  logged (concat (snd <$> tried)) (with_connections (λ _, fst <$> tried) w).

(** [for update in updates: ...] *)
Definition send_updates (name : string) (updates : updates_t) w
    : Streamer Conn :=
  foldl (λ w update, send_update name update w) w updates.

(** The body of the [for] loop for the stream at position [i], from the
    point where its [get_updates_since] has finished with [r]. *)
Definition got_updates (i : nat) (r : result (updates_t * Z)) w
    : loop_exit Conn :=
  match streams w !! i with
  | None => Ended w
  | Some stream =>
      let '(stream, r) := get_updates_finish stream r in
      let w := with_streams (<[i := stream]>) w in
      match r with
      | Raise e => Raising e w
      | Return (updates, current_token) =>
          Ended (send_updates (NAME stream) updates w)
      end
  end.

(** [for stream in self.streams], from position [i], [n] streams to go. *)
Fixpoint for_streams (n i : nat) w : loop_exit Conn :=
  match n with
  | O => Ended w
  | S n =>
      match streams w !! i with
      | None => Ended w
      | Some stream =>
          let w := logged [GetUpdates (NAME stream)] w in
          match get_updates_since_begin stream (TokLong (last_token stream)) with
          | GusAwait call current_token =>
              Suspended
                (with_suspended
                   (λ fs, fs ++ [{| f_index := i;
                                    f_current_token := current_token |}])
                   (logged [Fetch (NAME stream) call] w))
          | GusDone r =>
              match got_updates i r w with
              | Ended w => for_streams n (S i) w
              | stop => stop
              end
          end
      end
  end.

Definition for_streams_from (i : nat) w : loop_exit Conn :=
  for_streams (length (streams w) - i) i w.

(** [if not self.pending_updates: break], and the [finally] clause
    when the loop is left. *)
Definition break_unless_pending (again : Streamer Conn → option (Streamer Conn))
    w : option (Streamer Conn) :=
  if pending_updates w then again w else Some (finally w).

(** [while True:], at most [fuel] turns. *)
Fixpoint while_True (fuel : nat) w : option (Streamer Conn) :=
  match fuel with
  | O => None
  | S fuel =>
      let w := logged [PassBegin] w in
      let w := advance_all w in
      let w := with_pending_updates false w in
      after_for (break_unless_pending (while_True fuel)) (for_streams_from 0 w)
  end.

Definition on_notifier_poke (fuel : nat) w : option (Streamer Conn) :=
  if is_looping w then Some (with_pending_updates true w)
  else
    let w := with_pending_updates false w in
    let w := with_is_looping true w in
    while_True fuel w.

(** The generator suspended as [f] goes on when its deferred fires
    with [fetched]. *)
Definition resume (fuel : nat) (f : frame) (fetched : result (list Row)) w
    : option (Streamer Conn) :=
  match streams w !! f_index f with
  | None => Some w
  | Some stream =>
      let r := get_updates_since_resume (NAME stream) (f_current_token f) fetched in
      match got_updates (f_index f) r w with
      | Ended w =>
          after_for (break_unless_pending (while_True fuel))
            (for_streams_from (S (f_index f)) w)
      | stop => after_for (break_unless_pending (while_True fuel)) stop
      end
  end.

(** One run of the code never starts a second turn of the [while]
    after a first that it has run to its end; two turns of fuel are more
    than it takes. *)
Definition fuel : nat := 2.

Definition step w (ev : event Conn) : Streamer Conn :=
  match ev with
  | Wake => default w (on_notifier_poke fuel w)
  | FetchDone k fetched =>
      match suspended w !! k with
      | None => w
      | Some f => default w (resume fuel f fetched (with_suspended (delete k) w))
      end
  | _ => world_step w ev
  end.

Definition run (w : Streamer Conn) (evs : list (event Conn)) : Streamer Conn :=
  foldl step w evs.
End poke.
End TcpResource.

(** ** [ReplicationStreamer.on_notifier_poke] of tcp/resource.py *)


Module Tcp.
Section poke.
Context {Conn : Type} `{!Connection Conn}.
Implicit Types w : Streamer Conn.

(** [for token, row in batched_updates: try: conn.stream_update(...)] *)
Definition send_batch (name : string)
    (batched_updates : list (option Z * json_text)) (conn : Conn)
    : Conn * list effect :=
  foldl (λ acc update,
           let token := update.1 in
           let row := update.2 in
           let tried := try_stream_update name token row acc.1 in
           (tried.1, acc.2 ++ tried.2))
        (conn, []) batched_updates.

(** [for conn in self.connections: ...] *)
Definition send_updates (name : string)
    (batched_updates : list (option Z * json_text)) w : Streamer Conn :=
  let tried := send_batch name batched_updates <$> connections w in
  logged (concat (snd <$> tried)) (with_connections (λ _, fst <$> tried) w).

(** Modelled from the spec: the stream classes of this version are in
    the module [streams], which is not among the sources.  The streamer
    uses their [advance_current_token], [get_updates], [last_token],
    [upto_token] and [NAME]; section 4.1 of the specification describes
    them as [class Stream] of tcp_resource.py has them, and the
    definitions made from that class are used here and in [for_streams].

    The body of the [for] loop for the stream at position [i], from the
    point where its [get_updates_since] has finished with [r]. *)
Definition got_updates (i : nat) (r : result (updates_t * Z)) w
    : loop_exit Conn :=
  match streams w !! i with
  | None => Ended w
  | Some stream =>
      let '(stream, r) := get_updates_finish stream r in
      let w := with_streams (<[i := stream]>) w in
      match r with
      | Raise e => Raising e w
      | Return (updates, current_token) =>
          let batched_updates := _batch_updates updates in
          Ended (send_updates (NAME stream) batched_updates w)
      end
  end.

Fixpoint for_streams (n i : nat) w : loop_exit Conn :=
  match n with
  | O => Ended w
  | S n =>
      match streams w !! i with
      | None => Ended w
      | Some stream =>
          if bool_decide (last_token stream = upto_token stream)
          then for_streams n (S i) w
          else
            let w := logged [GetUpdates (NAME stream)] w in
            match get_updates_since_begin stream (TokLong (last_token stream)) with
            | GusAwait call current_token =>
                Suspended
                  (with_suspended
                     (λ fs, fs ++ [{| f_index := i;
                                      f_current_token := current_token |}])
                     (logged [Fetch (NAME stream) call] w))
            | GusDone r =>
                match got_updates i r w with
                | Ended w => for_streams n (S i) w
                | stop => stop
                end
            end
      end
  end.

Definition for_streams_from (i : nat) w : loop_exit Conn :=
  for_streams (length (streams w) - i) i w.

(** [while self.pending_updates:], at most [fuel] tests of the
    condition; the [finally] clause when the loop is left. *)
Fixpoint while_pending (fuel : nat) w : option (Streamer Conn) :=
  match fuel with
  | O => None
  | S fuel =>
      if pending_updates w then
        let w := with_pending_updates false w in
        let w := logged [PassBegin] w in
        let w := advance_all w in
        after_for (while_pending fuel) (for_streams_from 0 w)
      else Some (finally w)
  end.

Definition on_notifier_poke (fuel : nat) w : option (Streamer Conn) :=
  match connections w with
  | [] => Some w
  | _ :: _ =>
      if is_looping w then Some (with_pending_updates true w)
      else
        let w := with_pending_updates true w in
        let w := with_is_looping true w in
        while_pending fuel w
  end.

Definition resume (fuel : nat) (f : frame) (fetched : result (list Row)) w
    : option (Streamer Conn) :=
  match streams w !! f_index f with
  | None => Some w
  | Some stream =>
      let r := get_updates_since_resume (NAME stream) (f_current_token f) fetched in
      match got_updates (f_index f) r w with
      | Ended w =>
          after_for (while_pending fuel) (for_streams_from (S (f_index f)) w)
      | stop => after_for (while_pending fuel) stop
      end
  end.

(** One run of the code tests the condition of the [while] twice at
    most. *)
Definition fuel : nat := 2.

Definition step w (ev : event Conn) : Streamer Conn :=
  match ev with
  | Wake => default w (on_notifier_poke fuel w)
  | FetchDone k fetched =>
      match suspended w !! k with
      | None => w
      | Some f => default w (resume fuel f fetched (with_suspended (delete k) w))
      end
  | _ => world_step w ev
  end.

Definition run (w : Streamer Conn) (evs : list (event Conn)) : Streamer Conn :=
  foldl step w evs.
End poke.
End Tcp.

(** ** What a run of the poke loop may do to the streamer

    The two versions of [on_notifier_poke] are compared with one
    description of their runs; the invariants are proved of the
    description. *)

(** Entries of the log that open or close a pass, or advance a stream. *)
Definition marker (e : effect) : bool :=
  is_PassBegin e || is_PassEnd e || is_Raised e || is_Advance e.

Definition body_log (l : list effect) : Prop := Forall (λ e, marker e = false) l.

Definition stream_ok (s : Stream) : Prop :=
  last_token s <= upto_token s ∧ upto_token s <= current_token s.

(** Where a log stands: just after the start of a pass, later in a pass
    or between passes, or with an [Advance] that did not follow the
    start of a pass. *)
Inductive phase := AtStart | Later | Misplaced.

Definition scan (p : phase) (e : effect) : phase :=
  match p, e with
  | Misplaced, _ => Misplaced
  | _, PassBegin => AtStart
  | AtStart, Advance _ => AtStart
  | Later, Advance _ => Misplaced
  | _, _ => Later
  end.

(** No [Advance] of the log is out of place. *)
Definition ok_log (l : list effect) : Prop := foldl scan Later l ≠ Misplaced.

Definition no_advance (l : list effect) : Prop :=
  Forall (λ e, is_Advance e = false) l.

Section streamer_runs.
Context {Conn : Type}.
Implicit Types w : Streamer Conn.

Definition frame_ok w (f : frame) : Prop :=
  ∃ s, streams w !! f_index f = Some s
       ∧ last_token s <= f_current_token f
       ∧ f_current_token f <= upto_token s.

(** The state in which the [for] loop of a pass starts. *)
Definition begin_pass w : Streamer Conn :=
  with_pending_updates false (advance_all (logged [PassBegin] w)).

(** A pass started in [wp] runs until its generator is suspended or
    the loop is left. *)
Inductive pass_result (wp : Streamer Conn) : Streamer Conn → Prop :=
  | pass_completed l :
      body_log l →
      pass_result wp (finally (logged (l ++ [PassEnd]) wp))
  | pass_suspended l f s :
      body_log l →
      streams wp !! f_index f = Some s →
      f_current_token f = upto_token s →
      pass_result wp (with_suspended (λ fs, fs ++ [f]) (logged l wp)).

(** Sending updates changes the connections and may log failures. *)
Definition delivered w w' : Prop :=
  ∃ conns l,
    length conns = length (connections w) ∧ body_log l
    ∧ w' = logged l (with_connections (λ _, conns) w).

(** [send name updates w]: the updates of a stream are sent to the
    connections, as the version at hand does it. *)
Variable send : string → updates_t → Streamer Conn → Streamer Conn.

Inductive behaves (w : Streamer Conn) : event Conn → Streamer Conn → Prop :=
  | b_world ev :
      match ev with Wake | FetchDone _ _ => False | _ => True end →
      behaves w ev (world_step w ev)
  | b_ignored :
      connections w = [] →
      behaves w Wake w
  | b_noted :
      is_looping w = true →
      behaves w Wake (with_pending_updates true w)
  | b_started w' :
      is_looping w = false →
      pass_result (begin_pass (with_is_looping true w)) w' →
      behaves w Wake w'
  | b_no_frame k fetched :
      suspended w !! k = None →
      behaves w (FetchDone k fetched) w
  | b_failed f s e fetched :
      suspended w = [f] →
      streams w !! f_index f = Some s →
      get_updates_since_resume (NAME s) (f_current_token f) fetched = Raise e →
      behaves w (FetchDone 0 fetched)
        (propagate e (with_suspended (λ _, []) w))
  | b_fetched f s fetched updates current_token l w' :
      suspended w = [f] →
      streams w !! f_index f = Some s →
      get_updates_since_resume (NAME s) (f_current_token f) fetched
        = Return (updates, current_token) →
      let w2 :=
        send (NAME s) updates
          (with_streams (<[f_index f := set_last_token s (f_current_token f)]>)
             (with_suspended (λ _, []) w)) in
      body_log l →
      (∃ f' s', w' = with_suspended (λ fs, fs ++ [f']) (logged l w2)
                ∧ (f_index f < f_index f')%nat
                ∧ streams w2 !! f_index f' = Some s'
                ∧ f_current_token f' = upto_token s')
      ∨ (pending_updates w = false ∧ w' = finally (logged (l ++ [PassEnd]) w2))
      ∨ (pending_updates w = true
         ∧ pass_result (begin_pass (logged (l ++ [PassEnd]) w2)) w') →
      behaves w (FetchDone 0 fetched) w'.

(** The flags agree with the suspended generators, and every pass that
    began and is not running has ended or was left by an exception. *)
Record flags_inv w : Prop := {
  fi_suspended :
    if is_looping w
    then ∃ f, suspended w = [f] ∧ (f_index f < length (streams w))%nat
    else suspended w = [] ∧ pending_updates w = false;
  fi_passes :
    count is_PassBegin (log w) =
      (count is_PassEnd (log w) + count is_Raised (log w)
       + (if is_looping w then 1 else 0))%nat;
  fi_advances : ok_log (log w);
}.

(** What a run of [on_notifier_poke] needs of the state it starts in. *)
Definition ready w : Prop :=
  if is_looping w
  then ∃ f, suspended w = [f] ∧ (f_index f < length (streams w))%nat
  else suspended w = [].

Record streams_inv w : Prop := {
  si_streams : Forall stream_ok (streams w);
  si_frames : Forall (frame_ok w) (suspended w);
}.

(** The states a streamer gets into, for a given [step]. *)
Inductive reachable (step : Streamer Conn → event Conn → Streamer Conn)
    (w0 : Streamer Conn) : Streamer Conn → Prop :=
  | reach_init : reachable step w0 w0
  | reach_step w ev :
      reachable step w0 w → source_monotone w ev →
      reachable step w0 (step w ev).
End streamer_runs.

(** ** Concrete streams and rows used in the examples *)

Definition ten_thousand_rows : list Row :=
  replicate (Z.to_nat 10000) {| row_0 := 7; row_rest := [PyStr "$ev"] |}.

Definition behind_stream : Stream :=
  {| NAME := "events"; last_token := 0; upto_token := 20000;
     current_token := 20000 |}.

Definition two_rows : list Row :=
  [ {| row_0 := 4; row_rest := [PyStr "$a"] |};
    {| row_0 := 5; row_rest := [PyStr "$b"] |} ].

Definition fresh_stream : Stream :=
  {| NAME := "events"; last_token := 3; upto_token := 5; current_token := 5 |}.

Definition example_streams : list Stream :=
  [Stream_init "events" 5 5; Stream_init "backfill" 2 2].

(** A connection that already replicates [backfill]. *)
Definition example_connection : ReplicationStreamProtocol :=
  (replicate_session example_streams "backfill NOW" [] (Return []) Protocol_init).2.

Definition example_deliveries : list delivery :=
  [ {| d_stream := "events"; d_token := Some 6; d_data := json_dumps [PyStr "$c"] |};
    {| d_stream := "backfill"; d_token := Some 3; d_data := json_dumps [PyStr "$x"] |};
    {| d_stream := "events"; d_token := Some 7; d_data := json_dumps [PyStr "$d"] |} ].

Definition example_wait : replicate_wait :=
  {| rw_stream_name := "events"; rw_NAME := "events";
     rw_call := {| fc_from := 3; fc_to := 5; fc_limit := 10001 |};
     rw_current_token := 5 |}.

(** A connection for the examples: [stream_update] raises when the
    connection is broken, and records what it is given otherwise. *)
Record test_connection := {
  broken : bool;
  received : list (string * option Z * json_text);
}.

#[global] Instance test_Connection : Connection test_connection :=
  λ name token row conn,
    if broken conn
    then (Raise (Exception ["write failed"]), conn)
    else (Return (),
          {| broken := false; received := received conn ++ [(name, token, row)] |}).

Definition broken_connection : test_connection :=
  {| broken := true; received := [] |}.
Definition healthy_connection : test_connection :=
  {| broken := false; received := [] |}.

(** A pass of either version that waits for the rows of [events], with
    a broken and a healthy connection. *)
Definition fan_out_events : list (event test_connection) :=
  [NewConnection broken_connection; NewConnection healthy_connection;
   NewData 0 7; Wake].

(** A pass of tcp/resource.py that waits for the rows of [events], its
    only connection lost meanwhile. *)
Definition connection_lost_events : list (event ReplicationStreamProtocol) :=
  [NewConnection example_connection; NewData 0 7; Wake; LostConnection 0].

(** ** The life of one connection *)

(** What happens to a connection, one thing after the other: a line
    comes in, with the streams of the streamer and the clock as they are
    then; the fetch that a suspended [on_REPLICATE] waits for fires; the
    poke loop calls [stream_update]; [ReplicationStreamer.send_ping]
    calls [send_command(PING, time_msec)]. *)
Inductive conn_event :=
  | LineReceived (streams : list Stream) (time_msec : Z) (line : string)
  | Resumed (w : replicate_wait) (fetched : result (list Row))
  | Delivered (d : delivery)
  | Pinged (time_msec : Z).

Definition conn_step (c : ReplicationStreamProtocol) (ev : conn_event)
    : ReplicationStreamProtocol :=
  match ev with
  | LineReceived streams time_msec line => (lineReceived streams time_msec line c).2
  | Resumed w fetched => (on_REPLICATE_resume w fetched c).2
  | Delivered d => (stream_update (d_stream d) (d_token d) (d_data d) c).2
  | Pinged time_msec => (send_command Cmd.PING [VLong time_msec] c).2
  end.

Definition conn_run (c : ReplicationStreamProtocol) (evs : list conn_event)
    : ReplicationStreamProtocol :=
  foldl conn_step c evs.

(** The exception such a call ends with, if it does: the one the call
    raises or, for a [REPLICATE] line, the one the deferred of
    [on_REPLICATE] has failed with when [lineReceived] returns. *)
Definition raised_by (c : ReplicationStreamProtocol) (ev : conn_event)
    : option exn :=
  match ev with
  | LineReceived streams time_msec line =>
      match (lineReceived streams time_msec line c).1 with
      | Raise e => Some e
      | Return (Replicate (ReplDone (Raise e))) => Some e
      | Return _ => None
      end
  | Resumed w fetched =>
      match (on_REPLICATE_resume w fetched c).1 with
      | Raise e => Some e
      | Return _ => None
      end
  | Delivered d =>
      match (stream_update (d_stream d) (d_token d) (d_data d) c).1 with
      | Raise e => Some e
      | Return _ => None
      end
  | Pinged time_msec =>
      match (send_command Cmd.PING [VLong time_msec] c).1 with
      | Raise e => Some e
      | Return _ => None
      end
  end.

(** [ReplicationStreamer.send_ping] (tcp_resource.py):
    [for connection in self.connections:
       connection.send_command(PING, self.clock.time_msec())];
    an exception of a call ends the loop. *)
Fixpoint send_ping (time_msec : Z) (connections : list ReplicationStreamProtocol)
    : result unit * list ReplicationStreamProtocol :=
  match connections with
  | [] => (Return (), [])
  | connection :: rest =>
      match send_command Cmd.PING [VLong time_msec] connection with
      | (Raise e, connection) => (Raise e, connection :: rest)
      | (Return _, connection) =>
          let '(r, rest) := send_ping time_msec rest in
          (r, connection :: rest)
      end
  end.

(** ** The list of connections of the streamer

    A connection object is told from the others by its identity, which
    is all that [list.remove] looks at; [A] is the type of identities. *)

(** [self.connections.append(connection)]: [new_connection] of
    tcp/resource.py, and [ReplicationStreamProtocol.__init__] of
    tcp_resource.py. *)
Definition new_connection {A : Type} (connection : A) (connections : list A)
    : list A :=
  connections ++ [connection].

(** [l.remove(x)]: the first element equal to [x] goes; [None] for the
    [ValueError] when there is none. *)
Fixpoint list_remove {A : Type} `{EqDecision A} (x : A) (l : list A)
    : option (list A) :=
  match l with
  | [] => None
  | y :: l' =>
      if decide (y = x) then Some l'
      else match list_remove x l' with
           | Some l'' => Some (y :: l'')
           | None => None
           end
  end.

(** [ReplicationStreamProtocol.connectionLost] of tcp_resource.py:
    [try: self.streamer.connections.remove(self) except: pass]; the
    line it logs is left out. *)
Definition connectionLost {A : Type} `{EqDecision A} (self : A)
    (connections : list A) : list A :=
  match list_remove self connections with
  | Some connections' => connections'
  | None => connections
  end.

(** [ReplicationStreamer.lost_connection] of tcp/resource.py:
    [try: self.connections.remove(connection) except ValueError: pass],
    then [self.presence_handler.update_external_syncs_clear(
    connection.conn_id)].  Returns the connections that are left and the
    id the presence handler is called with. *)
Definition lost_connection {A I : Type} `{EqDecision A} (conn_id : A → I)
    (connection : A) (connections : list A) : list A * I :=
  let connections :=
    match list_remove connection connections with
    | Some connections' => connections'
    | None => connections
    end in
  (connections, conn_id connection).

(** What holds of a connection whatever happens to it: no stream is both
    replicating and connecting; a replicating stream has nothing
    buffered; when an [ERROR] line has been sent the connection has been
    closed; every line sent starts with a server command. *)
Record conn_inv (c : ReplicationStreamProtocol) : Prop := {
  ci_disjoint : ∀ s, s ∈ replication_streams c → s ∉ connecting_streams c;
  ci_no_buffer : ∀ s, s ∈ replication_streams c → pending_rdata c !! s = None;
  ci_error_lost : (∃ l, l ∈ sent c ∧ l_cmd l = Cmd.ERROR) → lost c = true;
  ci_valid : Forall (λ l, l_cmd l ∈ VALID_SERVER_COMMANDS) (sent c);
}.

(** ** Events of a connection used in the examples *)

(** [events] is subscribed to from token 3; a row is delivered while the
    fetch is in flight; the fetch returns. *)
Definition subscribe_events : list conn_event :=
  [ LineReceived example_streams 0 "REPLICATE events 3";
    Delivered {| d_stream := "events"; d_token := Some 6;
                 d_data := json_dumps [PyStr "$c"] |};
    Resumed example_wait (Return two_rows);
    Pinged 1000 ].

(** A stream that does not exist is subscribed to. *)
Definition failing_events : list conn_event :=
  [ LineReceived example_streams 0 "NAME worker1";
    LineReceived example_streams 0 "REPLICATE evens 3" ].


(** ** Streams that have caught up *)

(** Everything up to [upto_token] has been fetched from the stream. *)
Definition caught_up (s : Stream) : Prop := last_token s = upto_token s.

Section streamer_progress.
Context {Conn : Type}.
Implicit Types w : Streamer Conn.

(** The [for] loop over the streams is done with those before
    position [i]. *)
Definition caught_up_below (i : nat) w : Prop :=
  ∀ j s, (j < i)%nat → streams w !! j = Some s → caught_up s.

(** The call of the update function that [get_updates] makes for a
    stream that has not caught up. *)
Definition fetch_of (s : Stream) : effect :=
  Fetch (NAME s) {| fc_from := last_token s; fc_to := upto_token s;
                    fc_limit := MAX_EVENTS_BEHIND + 1 |}.

(** Where the pass stands: a suspended generator waits for the stream it
    stopped at, which has not caught up, with that stream's
    [upto_token]; the last thing logged is the fetch for that stream,
    and the pass is done with the streams before it; the log of a
    streamer that is looping ends with the fetch it waits for; when the
    log ends with the end of a pass, every stream has caught up. *)
Record progress_inv w : Prop := {
  pi_ready : if is_looping w then ∃ f, suspended w = [f] else suspended w = [];
  pi_frame :
    ∀ f, f ∈ suspended w →
         ∃ s, streams w !! f_index f = Some s
              ∧ f_current_token f = upto_token s
              ∧ last_token s ≠ upto_token s
              ∧ last (log w) = Some (fetch_of s)
              ∧ caught_up_below (f_index f) w;
  pi_looping :
    is_looping w = true → ∃ name call, last (log w) = Some (Fetch name call);
  pi_ended : last (log w) = Some PassEnd → Forall caught_up (streams w);
}.
End streamer_progress.

(** Two passes of either version: the first waits for the rows of
    [events] and is poked meanwhile, the second finds nothing new. *)
Definition two_pass_events : list (event test_connection) :=
  [NewConnection healthy_connection; NewData 0 7; Wake; Wake;
   FetchDone 0 (Return two_rows)].

(** ** Subscriptions that race with the poke loop *)

(** The poke loop of tcp_resource.py has one connection and waits for
    the rows of [events] after token 3, up to 5. *)
Definition race_streamer : Streamer ReplicationStreamProtocol :=
  TcpResource.run (Streamer_init [Stream_init "events" 3 3])
    [NewConnection Protocol_init; NewData 0 5; Wake].

(** The connection gets [REPLICATE events 3] then. *)
Definition race_subscribed : replicate_state * ReplicationStreamProtocol :=
  on_REPLICATE (streams race_streamer) "events 3" Protocol_init.

(** The fetch of the poke loop returns, and the rows are handed to the
    connection. *)
Definition race_delivered : Streamer ReplicationStreamProtocol :=
  TcpResource.run race_streamer
    [ConnectionChanged 0 race_subscribed.2; FetchDone 0 (Return two_rows)].

(** The fetch of the catch-up returns, with the same rows. *)
Definition race_caught_up : ReplicationStreamProtocol :=
  match race_subscribed.1, connections race_delivered with
  | ReplAwait w, [c] => (on_REPLICATE_resume w (Return two_rows) c).2
  | _, _ => Protocol_init
  end.

(** A connection subscribes to [events] from token 3 while the stream
    stands at 5. *)
Definition resubscribe_first : replicate_state * ReplicationStreamProtocol :=
  on_REPLICATE example_streams "events 3" Protocol_init.

(** The poke loop fetches a row with token 6 and hands it to the
    connection, whose catch-up fetch has not returned. *)
Definition resubscribe_delivered : Streamer ReplicationStreamProtocol :=
  TcpResource.run (Streamer_init example_streams)
    [NewConnection resubscribe_first.2; NewData 0 6; Wake;
     FetchDone 0 (Return [ {| row_0 := 6; row_rest := [PyStr "$c"] |} ])].

(** The connection gets [REPLICATE events NOW]; then the fetch of the
    first catch-up returns. *)
Definition resubscribe_end : ReplicationStreamProtocol :=
  match resubscribe_first.1, connections resubscribe_delivered with
  | ReplAwait w, [c] =>
      (on_REPLICATE_resume w (Return two_rows)
         (on_REPLICATE (streams resubscribe_delivered) "events NOW" c).2).2
  | _, _ => Protocol_init
  end.

(* ===================================================================== *)
(** * Properties *)

(** ** Batching *)

Lemma batch_updates_lookup {A : Type} (updates : list (Z * A)) (i : nat) :
  _batch_updates updates !! i =
    (λ u, (if bool_decide (fst <$> updates !! S i = Some u.1) then None else Some u.1,
           u.2)) <$> updates !! i.
Proof.
  destruct (decide (updates = [])) as [->|Hnil]; [done|].
  assert (Hne : (0 < length updates)%nat) by (destruct updates; simpl; [done|lia]).
  transitivity
    ((imap (fun i update =>
              match updates !! S i with
              | Some next =>
                  if bool_decide (update.1 = next.1)
                  then (None, update.2)
                  else (Some update.1, update.2)
              | None => (Some update.1, update.2)
              end) (removelast updates)
      ++ match last updates with
         | Some l => [(Some l.1, l.2)]
         | None => []
         end) !! i); [by destruct updates|].
  rewrite removelast_firstn_len, last_lookup.
  set (n := Init.Nat.pred (length updates)).
  assert (Hn : S n = length updates) by (unfold n; lia).
  destruct (decide (i < n)%nat) as [Hlt|Hge].
  - rewrite lookup_app_l by (rewrite length_imap, length_take; lia).
    rewrite list_lookup_imap, lookup_take_lt by done.
    destruct (updates !! i) as [u|] eqn:Hi; [|done]. simpl.
    destruct (updates !! S i) as [nx|] eqn:Hs; simpl.
    + destruct (decide (u.1 = nx.1)) as [Heq|Hneq].
      * rewrite !bool_decide_eq_true_2; [done|by rewrite Heq|done].
      * rewrite !bool_decide_eq_false_2; [done|congruence|done].
    + apply lookup_ge_None in Hs. lia.
  - rewrite lookup_app_r by (rewrite length_imap, length_take; lia).
    rewrite length_imap, length_take, Nat.min_l by lia.
    destruct (decide (i = n)) as [->|Hne'].
    + rewrite Nat.sub_diag.
      destruct (updates !! n) as [u|] eqn:Hl.
      * simpl. rewrite (proj2 (lookup_ge_None updates (S n))) by lia.
        done.
      * apply lookup_ge_None in Hl. lia.
    + rewrite (proj2 (lookup_ge_None updates i)) by lia. simpl.
      destruct (updates !! n); simpl;
        apply lookup_ge_None; simpl; lia.
Qed.

(** C3. [_batch_updates] keeps the payloads and their order; an entry
    whose token equals the token of the next entry gets [None], every
    other entry, the last one included, keeps its token.  The three
    examples of the specification evaluate as stated. *)
Theorem batch_updates_spec :
  (∀ (A : Type) (updates : list (Z * A)),
      length (_batch_updates updates) = length updates
      ∧ snd <$> _batch_updates updates = snd <$> updates
      ∧ ∀ i : nat,
          _batch_updates updates !! i =
            (λ u, (if bool_decide (fst <$> updates !! S i = Some u.1)
                   then None else Some u.1, u.2)) <$> updates !! i)
  ∧ _batch_updates [(1, "a"); (1, "b"); (2, "c"); (3, "d"); (3, "e")]
    = [(None, "a"); (Some 1, "b"); (Some 2, "c"); (None, "d"); (Some 3, "e")]
  ∧ _batch_updates (@nil (Z * string)) = []
  ∧ ∀ (A : Type) (u : Z * A), _batch_updates [u] = [(Some u.1, u.2)].
Proof.
  split; [|by repeat split].
  intros A updates.
  assert (Hlen : length (_batch_updates updates) = length updates).
  { apply Nat.le_antisymm.
    - apply Nat.nlt_ge. intros Hlt.
      destruct (lookup_lt_is_Some_2 (_batch_updates updates) (length updates))
        as [x Hx]; [lia|].
      rewrite batch_updates_lookup in Hx.
      by rewrite (proj2 (lookup_ge_None updates (length updates))) in Hx by lia.
    - apply Nat.nlt_ge. intros Hlt.
      destruct (lookup_lt_is_Some_2 updates (length (_batch_updates updates)))
        as [x Hx]; [lia|].
      pose proof (batch_updates_lookup updates (length (_batch_updates updates))) as Hb.
      rewrite Hx in Hb. simpl in Hb.
      by rewrite (proj2 (lookup_ge_None (_batch_updates updates) _)) in Hb by lia. }
  split; [done|]. split; [|apply batch_updates_lookup].
  apply list_eq. intros i. rewrite !list_lookup_fmap, batch_updates_lookup.
  by destruct (updates !! i).
Qed.

(** ** [Stream.get_updates_since] and [Stream.get_updates] *)

Lemma long_Return_not_now (t : pytoken) (z : Z) :
  long t = Return z → is_now t = false.
Proof.
  destruct t as [s|z']; [|done]. simpl. intros Hl.
  apply bool_decide_eq_false_2. intros [->| ->]; vm_compute in Hl; discriminate.
Qed.

Lemma get_updates_since_begin_fetch (s : Stream) (t : pytoken) (z : Z) :
  long t = Return z → z ≠ upto_token s →
  get_updates_since_begin s t =
    GusAwait {| fc_from := z; fc_to := upto_token s;
                fc_limit := MAX_EVENTS_BEHIND + 1 |} (upto_token s).
Proof.
  intros Hl Hne. unfold get_updates_since_begin.
  rewrite (long_Return_not_now _ _ Hl), Hl.
  by rewrite bool_decide_eq_false_2.
Qed.

(** C5, as stated, fails: a fetch that returns 10000 rows stays below
    the limit of 10001 that was passed to the update function, and
    [get_updates_since] raises all the same. *)
Lemma get_updates_since_raises_below_limit :
  Z.of_nat (length ten_thousand_rows) < MAX_EVENTS_BEHIND + 1
  ∧ get_updates_since behind_stream (TokLong 0) (λ _, Return ten_thousand_rows)
    = Raise (Exception ["stream events has fallen behined"]).
Proof. split; [by vm_compute|]. by vm_compute. Qed.

(** C5, amended.  For an integer [from_token] other than [upto_token]
    the update function is called with [limit = MAX_EVENTS_BEHIND + 1
    = 10001]; the call fails exactly when the update function fails or
    returns [MAX_EVENTS_BEHIND = 10000] rows or more, and with fewer
    rows it returns every fetched row, in order, with [upto_token]. *)
Theorem get_updates_since_threshold
    (s : Stream) (t : pytoken) (z : Z)
    (update_function : fetch_call → result (list Row)) (rows : list Row) :
  long t = Return z →
  z ≠ upto_token s →
  update_function {| fc_from := z; fc_to := upto_token s; fc_limit := 10001 |}
    = Return rows →
  get_updates_since_begin s t =
    GusAwait {| fc_from := z; fc_to := upto_token s; fc_limit := 10001 |}
             (upto_token s)
  ∧ (is_raise (get_updates_since s t update_function) = true
     ↔ 10000 <= Z.of_nat (length rows))
  ∧ (Z.of_nat (length rows) < 10000 →
     get_updates_since s t update_function =
       Return ((λ row, (row_0 row, json_dumps (row_rest row))) <$> rows,
               upto_token s)).
Proof.
  intros Hl Hne Hfetch.
  pose proof (get_updates_since_begin_fetch s t z Hl Hne) as Hb.
  change (MAX_EVENTS_BEHIND + 1) with 10001 in Hb.
  split; [done|].
  unfold get_updates_since. rewrite Hb, Hfetch. unfold get_updates_since_resume.
  change MAX_EVENTS_BEHIND with 10000.
  case_bool_decide; simpl; split; intros; try done; lia.
Qed.

Lemma get_updates_since_threshold_witness :
  get_updates_since fresh_stream (TokStr "3") (λ _, Return two_rows)
  = Return ([(4, json_dumps [PyStr "$a"]); (5, json_dumps [PyStr "$b"])], 5).
Proof.
  apply (proj2 (proj2 (get_updates_since_threshold
    fresh_stream (TokStr "3") 3 (λ _, Return two_rows) two_rows
    eq_refl ltac:(simpl; lia) eq_refl))).
  simpl. lia.
Defined.

(** C6. When the fetch of [get_updates] fails, whether the update
    function raised or the fallen-behind check did, the stream is left as
    it was, [last_token] included; on a normal return [last_token] is the
    token that was returned. *)
Theorem get_updates_failure_keeps_last_token
    (s : Stream) (update_function : fetch_call → result (list Row)) :
  (is_raise (get_updates s update_function).2 = true →
   (get_updates s update_function).1 = s)
  ∧ (∀ updates token,
       (get_updates s update_function).2 = Return (updates, token) →
       (get_updates s update_function).1 = set_last_token s token)
  ∧ (last_token s ≠ upto_token s →
     is_raise (update_function
                 {| fc_from := last_token s; fc_to := upto_token s;
                    fc_limit := MAX_EVENTS_BEHIND + 1 |}) = true →
     is_raise (get_updates s update_function).2 = true)
  ∧ (last_token s ≠ upto_token s →
     ∀ rows,
       update_function
         {| fc_from := last_token s; fc_to := upto_token s;
            fc_limit := MAX_EVENTS_BEHIND + 1 |} = Return rows →
       MAX_EVENTS_BEHIND <= Z.of_nat (length rows) →
       is_raise (get_updates s update_function).2 = true).
Proof.
  unfold get_updates, get_updates_finish.
  repeat split.
  - by destruct (get_updates_since _ _ _) as [[u c]|e].
  - intros updates token.
    destruct (get_updates_since _ _ _) as [[u c]|e]; simpl; [|done].
    by intros [= -> ->].
  - intros Hne Hr. unfold get_updates_since.
    rewrite (get_updates_since_begin_fetch s _ (last_token s)) by done.
    by destruct (update_function _).
  - intros Hne rows Hf Hlen. unfold get_updates_since.
    rewrite (get_updates_since_begin_fetch s _ (last_token s)) by done.
    rewrite Hf. unfold get_updates_since_resume.
    rewrite bool_decide_eq_true_2; [done|lia].
Qed.

Lemma get_updates_failure_keeps_last_token_witness :
  (get_updates behind_stream (λ _, Return ten_thousand_rows)).1 = behind_stream.
Proof.
  apply (proj1 (get_updates_failure_keeps_last_token behind_stream
                  (λ _, Return ten_thousand_rows))).
  by vm_compute.
Defined.

(** ** The connection: sending, delivering, subscribing *)

Lemma discard_not_elem (x : string) (X : gset string) : x ∉ X ∖ {[x]}.
Proof.
  intros H. apply elem_of_difference in H as [_ H]. apply H.
  by apply elem_of_singleton.
Qed.

Lemma add_elem (x : string) (X : gset string) : x ∈ {[x]} ∪ X.
Proof. apply elem_of_union. left. by apply elem_of_singleton. Qed.

Lemma elem_discard_ne (x y : string) (X : gset string) : y ∈ X ∖ {[x]} → y ≠ x.
Proof.
  intros H ->. apply elem_of_difference in H as [_ H]. apply H.
  by apply elem_of_singleton.
Qed.

Lemma send_command_valid (cmd : string) (values : list pyval)
    (c : ReplicationStreamProtocol) :
  cmd ∈ VALID_SERVER_COMMANDS →
  send_command cmd values c = (Return (), with_sent (λ ls, ls ++ [Line cmd values]) c).
Proof.
  intros Hin. unfold send_command. by rewrite bool_decide_eq_false_2 by tauto.
Qed.

Lemma RDATA_valid : Cmd.RDATA ∈ VALID_SERVER_COMMANDS.
Proof. by vm_compute; left. Qed.

Lemma POSITION_valid : Cmd.POSITION ∈ VALID_SERVER_COMMANDS.
Proof. unfold VALID_SERVER_COMMANDS. set_solver. Qed.

Lemma ERROR_valid : "ERROR" ∈ VALID_SERVER_COMMANDS.
Proof. unfold VALID_SERVER_COMMANDS, Cmd.ERROR. set_solver. Qed.

Lemma send_error_spec (error_string : string) (args : list fmt_arg)
    (c : ReplicationStreamProtocol) :
  send_error error_string args c =
    (Return (),
     with_lost true
       (with_sent (λ ls, ls ++ [Line "ERROR" [VFormat error_string args]]) c)).
Proof.
  unfold send_error, mbind, M_bind. by rewrite send_command_valid by apply ERROR_valid.
Qed.

Lemma for_each_send {A : Type} (xs : list A) (f : A → list pyval) (cmd : string)
    (c : ReplicationStreamProtocol) :
  cmd ∈ VALID_SERVER_COMMANDS →
  for_each xs (λ x, send_command cmd (f x)) c =
    (Return (), with_sent (λ ls, ls ++ ((λ x, Line cmd (f x)) <$> xs)) c).
Proof.
  intros Hin. revert c. induction xs as [|x xs IH]; intros c; simpl.
  - unfold mret, M_ret, with_sent. destruct c; simpl. by rewrite app_nil_r.
  - unfold mbind, M_bind. rewrite send_command_valid by done. rewrite IH.
    unfold with_sent; simpl. by rewrite <- app_assoc.
Qed.

Lemma stream_update_spec (stream : string) (token : option Z) (data : json_text)
    (c : ReplicationStreamProtocol) :
  stream_update stream token data c =
    (Return (),
     if bool_decide (stream ∈ replication_streams c)
     then with_sent (λ ls, ls ++ [rdata stream (token, data)]) c
     else if bool_decide (stream ∈ connecting_streams c)
     then with_pending_rdata
            (λ m, <[stream := default [] (m !! stream) ++ [(token, data)]]> m) c
     else c).
Proof.
  unfold stream_update. by repeat case_bool_decide.
Qed.

(** Deliveries leave the two sets alone; those for a replicating stream
    go out as they come, those for a connecting stream are appended to
    its buffer. *)
Lemma deliveries_spec (ds : list delivery) (c : ReplicationStreamProtocol) :
  let c2 := deliveries ds c in
  name c2 = name c
  ∧ replication_streams c2 = replication_streams c
  ∧ connecting_streams c2 = connecting_streams c
  ∧ last_received_ping c2 = last_received_ping c
  ∧ lost c2 = lost c
  ∧ sent c2 =
      sent c ++ ((λ d, rdata (d_stream d) (d_token d, d_data d))
                 <$> filter (λ d, d_stream d ∈ replication_streams c) ds)
  ∧ ∀ stream,
      stream ∉ replication_streams c → stream ∈ connecting_streams c →
      default [] (pending_rdata c2 !! stream) =
        default [] (pending_rdata c !! stream) ++ buffered stream ds.
Proof.
  revert c. induction ds as [|d ds IH]; intros c; simpl.
  - rewrite app_nil_r. repeat split; try done.
    intros. unfold buffered. simpl. by rewrite app_nil_r.
  - rewrite stream_update_spec. simpl.
    set (c1 := if bool_decide (d_stream d ∈ replication_streams c) then _ else _).
    assert (Hc1 : name c1 = name c
                  ∧ replication_streams c1 = replication_streams c
                  ∧ connecting_streams c1 = connecting_streams c
                  ∧ last_received_ping c1 = last_received_ping c
                  ∧ lost c1 = lost c).
    { unfold c1. by repeat case_bool_decide. }
    destruct Hc1 as (Hn & Hr & Hc & Hp & Hl).
    destruct (IH c1) as (IHn & IHr & IHc & IHp & IHl & IHs & IHb).
    rewrite IHn, IHr, IHc, IHp, IHl, IHs, Hn, Hr, Hc, Hp, Hl.
    repeat split; try done.
    + rewrite filter_cons. unfold c1.
      destruct (decide (d_stream d ∈ replication_streams c)) as [Hin|Hout].
      * rewrite bool_decide_eq_true_2 by done. simpl.
        by rewrite <- app_assoc.
      * rewrite bool_decide_eq_false_2 by done. by case_bool_decide.
    + intros stream Hnr Hco. rewrite IHb by congruence.
      unfold buffered. rewrite filter_cons. unfold c1.
      destruct (decide (d_stream d = stream)) as [Heq|Hne].
      * rewrite Heq. rewrite bool_decide_eq_false_2, bool_decide_eq_true_2 by done.
        simpl. rewrite lookup_insert_eq. simpl. by rewrite <- app_assoc.
      * repeat case_bool_decide; simpl; try done.
        by rewrite lookup_insert_ne.
Qed.

Lemma on_REPLICATE_try_Return (stream_name : string) (history : updates_t)
    (current_token : Z) (c : ReplicationStreamProtocol) :
  on_REPLICATE_try stream_name (Return (history, current_token)) c =
    (Return (),
     with_connecting_streams (λ s, s ∖ {[stream_name]})
       (with_replication_streams (λ s, {[stream_name]} ∪ s)
          (with_sent (λ ls, ls ++ [Line Cmd.POSITION
                                     [VStr stream_name; VLong current_token]])
             (with_sent (λ ls, ls ++ (rdata stream_name
                                      <$> default [] (pending_rdata c !! stream_name)))
                (with_pending_rdata (delete stream_name)
                   (with_sent (λ ls, ls ++ (rdata stream_name
                                            <$> ((λ u, (Some u.1, u.2)) <$> history)))
                      c)))))).
Proof.
  unfold on_REPLICATE_try, try_finally, try_except, lift, pop_pending_rdata.
  unfold mbind, M_bind. simpl.
  rewrite (for_each_send history
             (λ update, [VStr stream_name; VLong update.1; VJson update.2]))
    by apply RDATA_valid.
  simpl.
  rewrite (for_each_send (default [] (pending_rdata c !! stream_name))
             (λ pending, [VStr stream_name; VToken pending.1; VJson pending.2]))
    by apply RDATA_valid.
  unfold modify. simpl. do 6 f_equal.
  unfold with_sent; simpl. do 2 f_equal.
  by rewrite <- list_fmap_compose.
Qed.

Lemma on_REPLICATE_try_Raise (stream_name : string) (e : exn)
    (c : ReplicationStreamProtocol) :
  on_REPLICATE_try stream_name (Raise e) c =
    (Return (),
     with_connecting_streams (λ s, s ∖ {[stream_name]})
       (with_lost true
          (with_sent (λ ls, ls ++ [Line "ERROR"
                                     [VFormat "failed to handle replicate: %r"
                                              [FRepr e]]]) c))).
Proof.
  unfold on_REPLICATE_try, try_finally, try_except, lift.
  unfold mbind at 1, M_bind at 1. by rewrite send_error_spec.
Qed.

(** When [on_REPLICATE] suspends, it has split the line, moved the stream
    from the replicating to the connecting set, and found the stream. *)
Lemma on_REPLICATE_Await (streams : list Stream) (line : string)
    (c c1 : ReplicationStreamProtocol) (w : replicate_wait) :
  on_REPLICATE streams line c = (ReplAwait w, c1) →
  ∃ token,
    unpack2 (split_1 line) = Return (rw_stream_name w, token)
    ∧ get_stream_updates streams (rw_stream_name w) (TokStr token)
      = Return (rw_NAME w, GusAwait (rw_call w) (rw_current_token w))
    ∧ c1 = with_connecting_streams (λ s, {[rw_stream_name w]} ∪ s)
             (with_replication_streams (λ s, s ∖ {[rw_stream_name w]}) c).
Proof.
  unfold on_REPLICATE.
  destruct (unpack2 (split_1 line)) as [[stream_name token]|e]; [|done].
  destruct (get_stream_updates streams stream_name (TokStr token))
    as [[NAME [r|call cur]]|e] eqn:Hg.
  - destruct (on_REPLICATE_try _ _ _); done.
  - intros [= <- <-]. by exists token.
  - destruct (on_REPLICATE_try _ _ _); done.
Qed.

(** C2, as stated, fails.  The poke loop and a catch-up fetch the same
    rows of [events], 4 and 5: the poke loop hands them to the
    connection, which buffers them, and when the catch-up fetch returns
    they are sent as history and again from the buffer.  And when a
    second [REPLICATE] for the stream comes in while the first catch-up
    waits, the row with token 6 that was buffered meanwhile is sent
    before the history of the first. *)
Lemma buffered_row_sent_twice_or_early :
  (last (log race_streamer)
   = Some (Fetch "events" {| fc_from := 3; fc_to := 5; fc_limit := 10001 |})
   ∧ race_subscribed.1
     = ReplAwait {| rw_stream_name := "events"; rw_NAME := "events";
                    rw_call := {| fc_from := 3; fc_to := 5; fc_limit := 10001 |};
                    rw_current_token := 5 |}
   ∧ (λ c, (sent c, default [] (pending_rdata c !! "events")))
       <$> connections race_delivered
     = [([], [(Some 4, json_dumps [PyStr "$a"]);
              (Some 5, json_dumps [PyStr "$b"])])]
   ∧ sent race_caught_up
     = [ Line "RDATA" [VStr "events"; VLong 4; VJson (json_dumps [PyStr "$a"])];
         Line "RDATA" [VStr "events"; VLong 5; VJson (json_dumps [PyStr "$b"])];
         Line "RDATA" [VStr "events"; VLong 4; VJson (json_dumps [PyStr "$a"])];
         Line "RDATA" [VStr "events"; VLong 5; VJson (json_dumps [PyStr "$b"])];
         Line "POSITION" [VStr "events"; VLong 5] ])
  ∧ ((λ c, (sent c, default [] (pending_rdata c !! "events")))
       <$> connections resubscribe_delivered
     = [([], [(Some 6, json_dumps [PyStr "$c"])])]
     ∧ sent resubscribe_end
       = [ Line "RDATA" [VStr "events"; VLong 6; VJson (json_dumps [PyStr "$c"])];
           Line "POSITION" [VStr "events"; VLong 6];
           Line "RDATA" [VStr "events"; VLong 4; VJson (json_dumps [PyStr "$a"])];
           Line "RDATA" [VStr "events"; VLong 5; VJson (json_dumps [PyStr "$b"])];
           Line "POSITION" [VStr "events"; VLong 5] ]).
Proof. by vm_compute. Qed.

(** C2, amended.  A connection that has sent [REPLICATE] for a stream,
    whose catch-up fetch is in flight and which handles no other command
    before the fetch returns, sends nothing for that stream while it
    waits; when the fetch returns, it sends the historical rows, then
    the entries that were buffered for the stream meanwhile, each once
    and in the order of their arrival (after what an earlier, failed
    subscription may have left in the buffer), then [POSITION].  The
    buffer of the stream is empty afterwards and the stream is
    replicating.  The buffered entries are sent whatever the historical
    rows are: a row that is among both is sent twice. *)
Theorem buffered_rows_follow_history
    (streams : list Stream) (line : string) (c c1 : ReplicationStreamProtocol)
    (w : replicate_wait) (ds : list delivery) (fetched : result (list Row))
    (history : updates_t) (current_token : Z) :
  on_REPLICATE streams line c = (ReplAwait w, c1) →
  get_updates_since_resume (rw_NAME w) (rw_current_token w) fetched
    = Return (history, current_token) →
  let stream_name := rw_stream_name w in
  let waiting := deliveries ds c1 in
  let c' := (on_REPLICATE_resume w fetched waiting).2 in
  let others :=
    ((λ d, rdata (d_stream d) (d_token d, d_data d))
     <$> filter (λ d, d_stream d ∈ replication_streams c ∖ {[stream_name]}) ds) in
  sent waiting = sent c ++ others
  ∧ Forall (λ l, l_values l !! 0%nat ≠ Some (VStr stream_name)) others
  ∧ sent c' =
      sent waiting
      ++ (rdata stream_name <$> ((λ u, (Some u.1, u.2)) <$> history))
      ++ (rdata stream_name
          <$> (default [] (pending_rdata c !! stream_name)
               ++ buffered stream_name ds))
      ++ [Line Cmd.POSITION [VStr stream_name; VLong current_token]]
  ∧ pending_rdata c' !! stream_name = None
  ∧ stream_name ∈ replication_streams c'
  ∧ (stream_name ∉ connecting_streams c')
  ∧ lost c' = lost c.
Proof.
  intros Hbegin Hgot stream_name waiting c' others.
  destruct (on_REPLICATE_Await _ _ _ _ _ Hbegin) as (token & _ & _ & Hc1).
  fold stream_name in Hc1.
  destruct (deliveries_spec ds c1) as (_ & Hr & Hc & _ & Hl & Hs & Hb).
  fold waiting in Hr, Hc, Hl, Hs, Hb.
  assert (Hr1 : replication_streams c1 = replication_streams c ∖ {[stream_name]})
    by (by subst c1).
  assert (Hc1' : connecting_streams c1 = {[stream_name]} ∪ connecting_streams c)
    by (by subst c1).
  assert (Hwait : sent waiting = sent c ++ others).
  { rewrite Hs. unfold others. rewrite Hr1. by subst c1. }
  split; [done|]. split.
  { unfold others. apply Forall_fmap, Forall_forall. intros d Hd.
    apply list_elem_of_filter in Hd as [Hd _]. simpl.
    intros [= Heq]. by apply elem_discard_ne in Hd. }
  unfold c', on_REPLICATE_resume. fold stream_name. rewrite Hgot.
  rewrite on_REPLICATE_try_Return. simpl.
  rewrite (Hb stream_name)
    by (rewrite ?Hr1, ?Hc1'; (apply discard_not_elem || apply add_elem)).
  assert (Hp1 : pending_rdata c1 = pending_rdata c) by (by subst c1).
  rewrite Hp1, Hl, Hr.
  repeat split.
  - by rewrite <- !app_assoc.
  - apply lookup_delete_eq.
  - apply add_elem.
  - apply discard_not_elem.
  - by subst c1.
Qed.

Lemma buffered_rows_follow_history_witness :
  sent (replicate_session example_streams "events 3" example_deliveries
          (Return two_rows) example_connection).2
  = [ Line "POSITION" [VStr "backfill"; VLong 2];
      Line "RDATA" [VStr "backfill"; VLong 3; VJson (json_dumps [PyStr "$x"])];
      Line "RDATA" [VStr "events"; VLong 4; VJson (json_dumps [PyStr "$a"])];
      Line "RDATA" [VStr "events"; VLong 5; VJson (json_dumps [PyStr "$b"])];
      Line "RDATA" [VStr "events"; VLong 6; VJson (json_dumps [PyStr "$c"])];
      Line "RDATA" [VStr "events"; VLong 7; VJson (json_dumps [PyStr "$d"])];
      Line "POSITION" [VStr "events"; VLong 5] ].
Proof.
  assert (Hbegin : on_REPLICATE example_streams "events 3" example_connection
                   = (ReplAwait example_wait,
                      (on_REPLICATE example_streams "events 3" example_connection).2))
    by (vm_compute; reflexivity).
  assert (Hgot : get_updates_since_resume (rw_NAME example_wait)
                   (rw_current_token example_wait) (Return two_rows)
                 = Return ([(4, json_dumps [PyStr "$a"]);
                            (5, json_dumps [PyStr "$b"])], 5))
    by reflexivity.
  destruct (buffered_rows_follow_history example_streams "events 3"
              example_connection _ example_wait example_deliveries
              (Return two_rows) _ 5 Hbegin Hgot) as (_ & _ & Hsent & _).
  vm_compute in Hsent. vm_compute. exact Hsent.
Defined.

Lemma replicate_got_unknown (streams : list Stream) (stream_name token : string)
    (fetched : result (list Row)) :
  streams_by_name streams stream_name = None →
  replicate_got streams stream_name token fetched
    = Raise (Exception ["unknown stream %s"; stream_name]).
Proof. intros H. unfold replicate_got, get_stream_updates. by rewrite H. Qed.

Lemma replicate_got_fallen_behind (streams : list Stream)
    (stream_name token : string) (stream : Stream) (z : Z) (rows : list Row) :
  streams_by_name streams stream_name = Some stream →
  long_of_str token = Return z →
  z ≠ upto_token stream →
  MAX_EVENTS_BEHIND <= Z.of_nat (length rows) →
  replicate_got streams stream_name token (Return rows)
    = Raise (Exception ["stream " +:+ NAME stream +:+ " has fallen behined"]).
Proof.
  intros Hs Hl Hne Hlen. unfold replicate_got, get_stream_updates. rewrite Hs.
  rewrite (get_updates_since_begin_fetch stream (TokStr token) z) by done.
  unfold get_updates_since_resume. by rewrite bool_decide_eq_true_2 by lia.
Qed.

(** C7.  The claim fails on the line [REPLICATE backfill], which has
    no token: [on_REPLICATE] unpacks the split of its line before its
    [try] statement, so the [ValueError] is not handled: the deferred
    of [on_REPLICATE] fails with it, no [ERROR] line is sent, the
    connection stays open and [backfill], which was replicating, is
    replicating still. *)
Theorem replicate_without_token_is_not_answered :
  lineReceived example_streams 0 "REPLICATE backfill" example_connection
  = (Return (Replicate
               (ReplDone (Raise (ValueError "need more than 1 value to unpack")))),
     example_connection)
  ∧ sent example_connection = [Line "POSITION" [VStr "backfill"; VLong 2]]
  ∧ lost example_connection = false
  ∧ bool_decide ("backfill" ∈ replication_streams example_connection) = true.
Proof. by vm_compute. Qed.

(** X26. Once the line of a [REPLICATE] has been split into a stream
    name and a token, when the catch-up fails, whatever the exception,
    the connection gets an [ERROR] line and is closed; the only other
    lines sent since the command came in are [RDATA] lines of other
    streams, so no [POSITION]; and the stream ends up in neither the
    connecting nor the replicating set.  An unknown stream name and a
    fetch of [MAX_EVENTS_BEHIND] rows or more are such failures. *)
Theorem replicate_failure_sends_error :
  (∀ (streams : list Stream) (line stream_name token : string)
     (ds : list delivery) (fetched : result (list Row))
     (c : ReplicationStreamProtocol) (e : exn),
      unpack2 (split_1 line) = Return (stream_name, token) →
      replicate_got streams stream_name token fetched = Raise e →
      let r := replicate_session streams line ds fetched c in
      r.1 = Return ()
      ∧ (∃ others,
            Forall (λ l, l_cmd l = Cmd.RDATA
                         ∧ l_values l !! 0%nat ≠ Some (VStr stream_name)) others
            ∧ sent r.2 =
                sent c ++ others
                ++ [Line Cmd.ERROR [VFormat "failed to handle replicate: %r"
                                            [FRepr e]]])
      ∧ lost r.2 = true
      ∧ (stream_name ∉ connecting_streams r.2)
      ∧ (stream_name ∉ replication_streams r.2))
  ∧ (∀ (streams : list Stream) (stream_name token : string)
       (fetched : result (list Row)),
        streams_by_name streams stream_name = None →
        is_raise (replicate_got streams stream_name token fetched) = true)
  ∧ (∀ (streams : list Stream) (stream_name token : string) (stream : Stream)
       (z : Z) (rows : list Row),
        streams_by_name streams stream_name = Some stream →
        long_of_str token = Return z →
        z ≠ upto_token stream →
        MAX_EVENTS_BEHIND <= Z.of_nat (length rows) →
        is_raise (replicate_got streams stream_name token (Return rows)) = true).
Proof.
  split; [|split].
  - intros streams line stream_name token ds fetched c e Hsplit Hgot r.
    unfold r, replicate_session.
    destruct (on_REPLICATE streams line c) as [[res|w] c1] eqn:Hon.
    + (* the deferred fired before any suspension *)
      unfold on_REPLICATE in Hon. rewrite Hsplit in Hon.
      unfold replicate_got in Hgot.
      assert (Htry : on_REPLICATE_try stream_name (Raise e)
                 ((modify (with_replication_streams (λ s, s ∖ {[stream_name]})) ;;
                   modify (with_connecting_streams (λ s, {[stream_name]} ∪ s))) c).2
               = (res, c1)).
      { destruct (get_stream_updates streams stream_name (TokStr token))
          as [[NAME [got|call cur]]|e'].
        - subst got. by destruct (on_REPLICATE_try _ _ _); simplify_eq.
        - done.
        - injection Hgot as ->. by destruct (on_REPLICATE_try _ _ _); simplify_eq. }
      rewrite on_REPLICATE_try_Raise in Htry. injection Htry as <- <-. simpl.
      split; [done|]. split; [by exists []|]. split; [done|].
      split; apply discard_not_elem.
    + destruct (on_REPLICATE_Await _ _ _ _ _ Hon) as (token' & Hsplit' & Hget & Hc1).
      rewrite Hsplit in Hsplit'. injection Hsplit' as Hname <-.
      unfold replicate_got in Hgot. rewrite Hname, Hget in Hgot.
      unfold on_REPLICATE_resume. rewrite Hgot, on_REPLICATE_try_Raise. simpl.
      destruct (deliveries_spec ds c1) as (_ & Hr & Hc & _ & _ & Hs & _).
      rewrite Hs, Hr.
      assert (Hr1 : replication_streams c1 = replication_streams c ∖ {[stream_name]})
        by (by subst c1 stream_name).
      assert (Hs1 : sent c1 = sent c) by (by subst c1).
      rewrite Hs1, Hr1, <- app_assoc, <- Hname.
      split; [done|]. split; [|split; [done|split; apply discard_not_elem]].
      eexists. split; [|done].
      apply Forall_fmap, Forall_forall. intros d Hd.
      apply list_elem_of_filter in Hd as [Hd _]. simpl. split; [done|].
      intros [= Heq]. by apply elem_discard_ne in Hd.
  - intros. by rewrite replicate_got_unknown.
  - intros. by erewrite replicate_got_fallen_behind.
Qed.

Lemma replicate_failure_sends_error_witness :
  let r := replicate_session example_streams "evens 3" example_deliveries
             (Return two_rows) example_connection in
  r.1 = Return ()
  ∧ lost r.2 = true
  ∧ ("evens" ∉ connecting_streams r.2)
  ∧ ("evens" ∉ replication_streams r.2).
Proof.
  destruct (proj1 replicate_failure_sends_error example_streams "evens 3"
              "evens" "3" example_deliveries (Return two_rows)
              example_connection (Exception ["unknown stream %s"; "evens"])
              eq_refl eq_refl) as (Hr & _ & Hl & Hc & Hs).
  exact (conj Hr (conj Hl (conj Hc Hs))).
Defined.

(** ** [lineReceived] *)

(** C9, as stated, fails: a blank line matches no command name, and
    the connection neither answers it nor closes. *)
Lemma blank_line_is_ignored :
  ("" ∉ VALID_CLIENT_COMMANDS)
  ∧ lineReceived example_streams 0 "" Protocol_init
    = (Return Nothing, Protocol_init)
  ∧ sent Protocol_init = []
  ∧ lost Protocol_init = false.
Proof.
  split; [|done]. apply (bool_decide_eq_false_1 (_ ∈ _)). by vm_compute.
Qed.

(** C9, amended.  A line that is not blank and has a space, and whose
    first word is none of [NAME], [REPLICATE], [PING], [USER_SYNC], is
    answered with an [ERROR] line and the connection is closed; nothing
    else changes.  A blank line is ignored. *)
Theorem unknown_command_rejected
    (streams : list Stream) (time_msec : Z) (c : ReplicationStreamProtocol) :
  (∀ line cmd rest_of_line,
      strip line ≠ "" →
      split_1 line = [cmd; rest_of_line] →
      cmd ∉ VALID_CLIENT_COMMANDS →
      lineReceived streams time_msec line c =
        (Return Nothing,
         with_lost true
           (with_sent (λ ls, ls ++ [Line Cmd.ERROR
                                      [VFormat "unkown command: %s" [FStr cmd]]])
              c)))
  ∧ (∀ line, strip line = "" →
             lineReceived streams time_msec line c = (Return Nothing, c)).
Proof.
  split.
  - intros line cmd rest Hnb Hsplit Hcmd. unfold lineReceived.
    rewrite bool_decide_eq_false_2 by done.
    rewrite Hsplit. unfold mbind, M_bind, lift. simpl.
    by rewrite bool_decide_eq_true_2.
  - intros line Hb. unfold lineReceived. by rewrite bool_decide_eq_true_2.
Qed.

Lemma unknown_command_rejected_witness :
  lineReceived example_streams 0 "FOO bar" Protocol_init =
    (Return Nothing,
     with_lost true
       (with_sent (λ ls, ls ++ [Line Cmd.ERROR
                                  [VFormat "unkown command: %s" [FStr "FOO"]]])
          Protocol_init)).
Proof.
  apply (proj1 (unknown_command_rejected example_streams 0 Protocol_init)
           "FOO bar" "FOO" "bar").
  - by vm_compute.
  - reflexivity.
  - apply (bool_decide_eq_false_1 (_ ∈ _)). by vm_compute.
Defined.

(** ** The poke loop *)

Section streamer_facts.
Context {Conn : Type}.
Implicit Types w : Streamer Conn.

Lemma logged_nil w : logged [] w = w.
Proof. destruct w. unfold logged. simpl. by rewrite app_nil_r. Qed.

Lemma logged_logged (l1 l2 : list effect) w :
  logged l2 (logged l1 w) = logged (l1 ++ l2) w.
Proof. unfold logged. simpl. by rewrite app_assoc. Qed.

Lemma insert_same_stream w (i : nat) (s : Stream) :
  streams w !! i = Some s → with_streams (<[i := s]>) w = w.
Proof.
  intros H. destruct w. unfold with_streams. simpl in *.
  by rewrite list_insert_id.
Qed.

Lemma set_last_token_same (s : Stream) :
  set_last_token s (last_token s) = s.
Proof. by destruct s. Qed.

Lemma get_updates_since_begin_long (s : Stream) :
  get_updates_since_begin s (TokLong (last_token s)) =
    if bool_decide (last_token s = upto_token s)
    then GusDone (Return ([], upto_token s))
    else GusAwait {| fc_from := last_token s; fc_to := upto_token s;
                     fc_limit := MAX_EVENTS_BEHIND + 1 |} (upto_token s).
Proof. reflexivity. Qed.

Lemma delivered_refl w : delivered w w.
Proof.
  exists (connections w), []. split; [done|]. split; [constructor|].
  rewrite logged_nil. by destruct w.
Qed.

Lemma delivered_trans w1 w2 w3 :
  delivered w1 w2 → delivered w2 w3 → delivered w1 w3.
Proof.
  intros (c1 & l1 & Hc1 & Hl1 & ->) (c2 & l2 & Hc2 & Hl2 & ->).
  exists c2, (l1 ++ l2). split; [simpl in *; congruence|].
  split; [by apply Forall_app_2|].
  unfold logged, with_connections. simpl. by rewrite app_assoc.
Qed.
End streamer_facts.

Lemma resume_Return (name : string) (cur : Z) (fetched : result (list Row))
    (updates : updates_t) (token : Z) :
  get_updates_since_resume name cur fetched = Return (updates, token) →
  token = cur
  ∧ ∃ rows, fetched = Return rows
            ∧ Z.of_nat (length rows) < MAX_EVENTS_BEHIND
            ∧ updates = (λ row, (row_0 row, json_dumps (row_rest row))) <$> rows.
Proof.
  unfold get_updates_since_resume. destruct fetched as [rows|e]; [|done].
  case_bool_decide; [done|]. intros [= <- <-]. split; [done|].
  exists rows. split; [done|]. split; [lia|done].
Qed.

Lemma count_app (p : effect → bool) (l1 l2 : list effect) :
  count p (l1 ++ l2) = (count p l1 + count p l2)%nat.
Proof. unfold count. by rewrite filter_app, length_app. Qed.

Lemma count_body (p : effect → bool) (l : list effect) :
  (∀ e, p e = true → marker e = true) → body_log l → count p l = 0%nat.
Proof.
  intros Hp Hl. unfold count. induction Hl as [|e l He Hl IH]; [done|].
  rewrite filter_cons. destruct (decide (p e = true)) as [Hpe|Hpe]; [|done].
  apply Hp in Hpe. congruence.
Qed.

Lemma body_log_app (l1 l2 : list effect) :
  body_log l1 → body_log l2 → body_log (l1 ++ l2).
Proof. apply Forall_app_2. Qed.

Lemma scan_body (l : list effect) (p : phase) :
  body_log l → p ≠ Misplaced → foldl scan p l ≠ Misplaced.
Proof.
  intros Hl. revert p. induction Hl as [|e l He Hl IH]; intros p Hp; [done|].
  simpl. apply IH. destruct p, e; simpl in *; done.
Qed.

Lemma scan_begin (names : list string) (p : phase) :
  p ≠ Misplaced → foldl scan p (PassBegin :: (Advance <$> names)) = AtStart.
Proof.
  intros Hp. simpl. assert (scan p PassBegin = AtStart) as -> by by destruct p.
  induction names as [|n names IH]; [done|]. by simpl.
Qed.

Section tcp_resource_facts.
Context {Conn : Type} `{!Connection Conn}.
Implicit Types w : Streamer Conn.
Import TcpResource.

Lemma tr_for_streams_spec (n i : nat) w :
  ∃ l, body_log l
       ∧ (for_streams n i w = Ended (logged l w)
          ∨ ∃ f s,
              for_streams n i w
              = Suspended (with_suspended (λ fs, fs ++ [f]) (logged l w))
              ∧ (i ≤ f_index f)%nat
              ∧ streams w !! f_index f = Some s
              ∧ f_current_token f = upto_token s).
Proof.
  revert i w. induction n as [|n IH]; intros i w; simpl.
  { exists []. split; [constructor|]. left. by rewrite logged_nil. }
  destruct (streams w !! i) as [s|] eqn:Hs.
  2: { exists []. split; [constructor|]. left. by rewrite logged_nil. }
  rewrite get_updates_since_begin_long. case_bool_decide as Heq.
  - unfold got_updates. simpl. rewrite Hs. simpl.
    rewrite <- Heq, set_last_token_same.
    rewrite insert_same_stream by done.
    destruct (IH (S i) (logged [GetUpdates (NAME s)] w)) as (l & Hl & [Hend|Hsus]).
    + exists (GetUpdates (NAME s) :: l). split; [by constructor|]. left.
      rewrite Hend. by rewrite logged_logged.
    + destruct Hsus as (f & s' & Hsus & Hi & Hf & Hc).
      exists (GetUpdates (NAME s) :: l). split; [by constructor|]. right.
      exists f, s'. rewrite Hsus, logged_logged. repeat split; try done. lia.
  - exists [GetUpdates (NAME s);
            Fetch (NAME s) {| fc_from := last_token s; fc_to := upto_token s;
                              fc_limit := MAX_EVENTS_BEHIND + 1 |}].
    split; [by repeat constructor|]. right.
    exists {| f_index := i; f_current_token := upto_token s |}, s.
    by rewrite logged_logged.
Qed.

Lemma tr_send_update_delivered (name : string) (update : Z * json_text) w :
  delivered w (send_update name update w).
Proof.
  unfold send_update.
  exists (fst <$> (try_stream_update name (Some update.1) update.2 <$> connections w)),
         (concat (snd <$> (try_stream_update name (Some update.1) update.2
                           <$> connections w))).
  split; [by rewrite !length_fmap|]. split; [|done].
  apply Forall_concat, Forall_fmap, Forall_fmap, Forall_forall.
  intros c _. unfold try_stream_update. simpl.
  destruct (conn_stream_update _ _ _ c) as [[|] ?]; simpl; by repeat constructor.
Qed.

Lemma tr_send_updates_delivered (name : string) (updates : updates_t) w :
  delivered w (send_updates name updates w).
Proof.
  unfold send_updates. revert w.
  induction updates as [|u updates IH]; intros w; simpl.
  - apply delivered_refl.
  - eapply delivered_trans; [apply tr_send_update_delivered|apply IH].
Qed.

Lemma tr_while_True_spec (n : nat) w :
  ∃ w', while_True (S n) w = Some w' ∧ pass_result (begin_pass w) w'.
Proof.
  simpl. fold (begin_pass w). unfold for_streams_from.
  destruct (tr_for_streams_spec (length (streams (begin_pass w)) - 0) 0
              (begin_pass w)) as (l & Hl & [->|(f & s & -> & _ & Hs & Hc)]); simpl.
  - eexists. split; [done|]. rewrite logged_logged. by constructor.
  - eexists. split; [done|]. by econstructor.
Qed.

(** One turn of fuel is enough for [while_True], and more changes
    nothing: the code that is run when the streamer is poked or a fetch
    returns always comes to its end. *)
Lemma tr_while_True_fuel (n : nat) w :
  while_True (S n) w = while_True 1 w ∧ is_Some (while_True 1 w).
Proof.
  simpl. fold (begin_pass w). unfold for_streams_from.
  destruct (tr_for_streams_spec (length (streams (begin_pass w)) - 0) 0
              (begin_pass w)) as (l & Hl & [->|(f & s & -> & _)]); simpl; eauto.
Qed.

Lemma tr_code_runs_to_its_end (n : nat) w (f : frame)
    (fetched : result (list Row)) :
  (on_notifier_poke (S n) w = on_notifier_poke 1 w
   ∧ is_Some (on_notifier_poke 1 w))
  ∧ (resume (S n) f fetched w = resume 1 f fetched w
     ∧ is_Some (resume 1 f fetched w)).
Proof.
  split.
  - unfold on_notifier_poke. destruct (is_looping w); [eauto|].
    apply tr_while_True_fuel.
  - unfold resume. destruct (streams w !! f_index f) as [s|]; [|eauto].
    assert (Hafter : ∀ x : loop_exit Conn,
               after_for (break_unless_pending (while_True (S n))) x
               = after_for (break_unless_pending (while_True 1)) x
               ∧ is_Some (after_for (break_unless_pending (while_True 1)) x)).
    { intros [w1|w1|e w1]; cbn [after_for]; [eauto| |eauto].
      unfold break_unless_pending. destruct (pending_updates _); [|eauto].
      apply tr_while_True_fuel. }
    destruct (got_updates _ _ _); apply Hafter.
Qed.

Lemma tr_step_behaves w (ev : event Conn) :
  ready w → behaves send_updates w ev (step w ev).
Proof.
  intros Hready. destruct ev as [|k fetched| | | |]; try by apply b_world.
  - (* Wake *)
    unfold step, on_notifier_poke, fuel.
    destruct (is_looping w) eqn:Hloop; [by apply b_noted|].
    destruct (tr_while_True_spec 1
                (with_is_looping true (with_pending_updates false w)))
      as (w' & -> & Hres).
    by apply b_started.
  - (* FetchDone *)
    unfold step, fuel, ready in *.
    destruct (is_looping w) eqn:Hloop.
    2: { rewrite Hready. simpl. apply b_no_frame. by rewrite Hready. }
    destruct Hready as (f & Hf & Hidx). rewrite Hf.
    destruct k as [|k]; [simpl|simpl; apply b_no_frame; by rewrite Hf].
    destruct (lookup_lt_is_Some_2 (streams w) (f_index f) Hidx) as [s Hs].
    assert (Hw0 : with_suspended (delete 0%nat) w = with_suspended (λ _, []) w).
    { unfold with_suspended. by rewrite Hf. }
    rewrite Hw0. set (w0 := with_suspended (λ _, []) w).
    unfold resume. change (streams w0) with (streams w). rewrite Hs.
    unfold got_updates. change (streams w0) with (streams w). rewrite Hs.
    destruct (get_updates_since_resume (NAME s) (f_current_token f) fetched)
      as [[updates cur]|e] eqn:Hr; cbn -[while_True for_streams_from send_updates].
    + assert (cur = f_current_token f) as -> by by eapply resume_Return.
      set (w2 := send_updates (NAME s) updates _).
      assert (Hp : pending_updates w2 = pending_updates w).
      { destruct (tr_send_updates_delivered (NAME s) updates
                    (with_streams
                       (<[f_index f := set_last_token s (f_current_token f)]>) w0))
          as (? & ? & _ & _ & Hw2).
        fold w2 in Hw2. by rewrite Hw2. }
      unfold for_streams_from.
      destruct (tr_for_streams_spec (length (streams w2) - S (f_index f))
                  (S (f_index f)) w2)
        as (l & Hl & [->|(f' & s' & -> & Hi & Hs' & Hc)]); cbn [after_for].
      * unfold break_unless_pending.
        change (pending_updates (logged [PassEnd] (logged l w2)))
          with (pending_updates w2).
        rewrite Hp.
        destruct (pending_updates w) eqn:Hpen.
        -- destruct (tr_while_True_spec 1 (logged [PassEnd] (logged l w2)))
             as (w' & -> & Hres). simpl.
           eapply (b_fetched _ w f s fetched updates _ l); try done.
           right. right. split; [done|]. by rewrite <- logged_logged.
        -- simpl. eapply (b_fetched _ w f s fetched updates _ l); try done.
           right. left. split; [done|]. by rewrite logged_logged.
      * eapply (b_fetched _ w f s fetched updates _ l); try done.
        left. exists f', s'. repeat split; try done; lia.
    + rewrite insert_same_stream by done. simpl.
      by eapply b_failed.
Qed.
End tcp_resource_facts.

Lemma count_advances (p : effect → bool) (ss : list Stream) :
  (∀ n, p (Advance n) = false) → count p (Advance ∘ NAME <$> ss) = 0%nat.
Proof.
  intros Hp. unfold count. induction ss as [|s ss IH]; [done|].
  rewrite fmap_cons, filter_cons. simpl. rewrite Hp.
  by destruct (decide (false = true)).
Qed.

Lemma scan_app (p : phase) (l1 l2 : list effect) :
  foldl scan p (l1 ++ l2) = foldl scan (foldl scan p l1) l2.
Proof. apply foldl_app. Qed.

Lemma count_body_markers (l : list effect) :
  body_log l →
  count is_PassBegin l = 0%nat ∧ count is_PassEnd l = 0%nat
  ∧ count is_Raised l = 0%nat.
Proof. intros Hl. repeat split; apply count_body; try done; by intros []. Qed.

Lemma count_cons (p : effect → bool) (e : effect) (l : list effect) :
  count p (e :: l) = (count p [e] + count p l)%nat.
Proof. apply (count_app p [e] l). Qed.

Ltac count_log :=
  repeat rewrite count_app;
  repeat match goal with
    | |- context [count ?p (?x :: ?l)] =>
        lazymatch l with
        | [] => fail
        | _ => rewrite (count_cons p x l)
        end
    end;
  repeat rewrite count_app;
  repeat match goal with
    | H : body_log ?l |- context [count _ ?l] =>
        let H1 := fresh in
        let H2 := fresh in
        let H3 := fresh in
        destruct (count_body_markers l H) as (H1 & H2 & H3);
        rewrite ?H1, ?H2, ?H3; clear H1 H2 H3
    end;
  repeat (rewrite (count_advances is_PassBegin) by done);
  repeat (rewrite (count_advances is_PassEnd) by done);
  repeat (rewrite (count_advances is_Raised) by done);
  repeat match goal with
    | |- context [count ?p [?x]] =>
        let v := eval cbv in (count p [x]) in change (count p [x]) with v
    end.

Lemma body_no_advance (l : list effect) : body_log l → no_advance l.
Proof.
  intros H. eapply Forall_impl; [exact H|].
  intros e. unfold marker. destruct e; simpl; done.
Qed.

Lemma ok_log_rest (l rest : list effect) :
  ok_log l → no_advance rest → ok_log (l ++ rest).
Proof.
  unfold ok_log. rewrite scan_app. generalize (foldl scan Later l).
  intros p Hp Hrest. revert p Hp.
  induction Hrest as [|e rest He Hrest IH]; intros p Hp; [done|].
  simpl. apply IH. destruct p, e; simpl in *; done.
Qed.

Lemma ok_log_pass (l : list effect) (ss : list Stream) :
  ok_log l → ok_log ((l ++ [PassBegin]) ++ (Advance ∘ NAME <$> ss)).
Proof.
  unfold ok_log. rewrite <- app_assoc, scan_app. intros Hl.
  change ([PassBegin] ++ (Advance ∘ NAME <$> ss))
    with (PassBegin :: (Advance ∘ NAME <$> ss)).
  rewrite list_fmap_compose, scan_begin; done.
Qed.

Section behaves_facts.
Context {Conn : Type}.
Implicit Types w : Streamer Conn.

Lemma flags_inv_ready w : flags_inv w → ready w.
Proof.
  intros [Hs _ _]. unfold ready. destruct (is_looping w); [done|]. by destruct Hs.
Qed.

Lemma flags_inv_init (ss : list Stream) : flags_inv (Streamer_init (Conn:=Conn) ss).
Proof. by split. Qed.

(** A pass that starts in a state that satisfies the invariant, but
    for the pass that is about to begin, ends in one that does. *)
Lemma pass_result_flags_inv w w' :
  is_looping w = true → suspended w = [] →
  count is_PassBegin (log w) =
    (count is_PassEnd (log w) + count is_Raised (log w))%nat →
  ok_log (log w) →
  pass_result (begin_pass w) w' → flags_inv w'.
Proof.
  intros Hloop Hsus Hcount Hscan Hres.
  destruct Hres as [l Hl|l f s Hl Hs Hc].
  - split.
    + by simpl.
    + unfold begin_pass, advance_all. simpl. count_log. lia.
    + unfold begin_pass, advance_all. simpl.
      apply ok_log_rest; [by apply ok_log_pass|].
      apply Forall_app_2; [by apply body_no_advance|by repeat constructor].
  - split.
    + simpl. rewrite Hloop, Hsus. exists f. split; [done|].
      by apply lookup_lt_Some in Hs.
    + unfold begin_pass, advance_all. simpl. rewrite Hloop. count_log. lia.
    + unfold begin_pass, advance_all. simpl.
      apply ok_log_rest; [by apply ok_log_pass|by apply body_no_advance].
Qed.

Context (send : string → updates_t → Streamer Conn → Streamer Conn).
Hypothesis send_delivered : ∀ name updates w, delivered w (send name updates w).

Lemma behaves_flags_inv w (ev : event Conn) w' :
  flags_inv w → behaves send w ev w' → flags_inv w'.
Proof.
  intros [Hs Hc Ha] Hb.
  destruct Hb as [ev Hev|Hnc|Hloop|w' Hloop Hres|k fetched Hk
                  |f s e fetched Hf Hst Hr
                  |f s fetched updates cur l w' Hf Hst Hr w2 Hl Hcases].
  - destruct ev; try done; split; simpl; try done.
    destruct (is_looping w); [|done].
    destruct Hs as (f & ? & ?). exists f. by rewrite length_alter.
  - done.
  - split; simpl; try done. by rewrite Hloop in Hs |- *.
  - rewrite Hloop in Hs, Hc. destruct Hs as [Hs _].
    eapply pass_result_flags_inv; [| | | |done]; simpl; try done. lia.
  - done.
  - assert (Hloop : is_looping w = true).
    { destruct (is_looping w); [done|]. destruct Hs as [Hs _]. congruence. }
    rewrite Hloop in Hc.
    split; simpl; try done.
    + count_log. lia.
    + apply ok_log_rest; [done|by repeat constructor].
  - assert (Hloop : is_looping w = true).
    { destruct (is_looping w); [done|]. destruct Hs as [Hs _]. congruence. }
    rewrite Hloop in Hc.
    destruct (send_delivered (NAME s) updates
                (with_streams
                   (<[f_index f := set_last_token s (f_current_token f)]>)
                   (with_suspended (λ _, []) w)))
      as (conns & l0 & Hlen & Hl0 & Hw2).
    fold w2 in Hw2. clearbody w2. subst w2.
    destruct Hcases as [(f' & s' & -> & Hlt & Hs' & Hc')|[[Hp ->]|[Hp Hres]]].
    + split; simpl.
      * rewrite Hloop. exists f'. split; [done|].
        simpl in Hs'. by apply lookup_lt_Some in Hs'.
      * rewrite Hloop. count_log. lia.
      * apply ok_log_rest; [apply ok_log_rest|]; try done;
          by apply body_no_advance.
    + split; simpl; try done.
      * count_log. lia.
      * apply ok_log_rest; [apply ok_log_rest; [done|by apply body_no_advance]|].
        apply Forall_app_2; [by apply body_no_advance|by repeat constructor].
    + eapply pass_result_flags_inv; [| | | |done]; simpl; try done.
      * count_log. lia.
      * apply ok_log_rest; [apply ok_log_rest; [done|by apply body_no_advance]|].
        apply Forall_app_2; [by apply body_no_advance|by repeat constructor].
Qed.
End behaves_facts.

Lemma stream_ok_advance (s : Stream) :
  stream_ok s → stream_ok (advance_current_token s).
Proof. unfold stream_ok. simpl. lia. Qed.

Section streams_facts.
Context {Conn : Type}.
Implicit Types w : Streamer Conn.

Lemma streams_inv_init (ss : list Stream) :
  Forall stream_ok ss → streams_inv (Streamer_init (Conn:=Conn) ss).
Proof. intros Hok. split; [done|constructor]. Qed.

Lemma pass_result_streams_inv w w' :
  Forall stream_ok (streams w) → suspended w = [] →
  pass_result (begin_pass w) w' → streams_inv w'.
Proof.
  intros Hok Hsus Hres.
  assert (Hadv : Forall stream_ok (advance_current_token <$> streams w)).
  { apply Forall_fmap. eapply Forall_impl; [done|]. apply stream_ok_advance. }
  destruct Hres as [l Hl|l f s Hl Hs Hc]; split; simpl; try done.
  - by rewrite Hsus.
  - rewrite Hsus. simpl. constructor; [|done].
    exists s. simpl in Hs. split; [done|].
    rewrite Forall_forall in Hadv.
    destruct (Hadv s) as [? ?]; [by eapply list_elem_of_lookup_2|]. lia.
Qed.

Context (send : string → updates_t → Streamer Conn → Streamer Conn).
Hypothesis send_delivered : ∀ name updates w, delivered w (send name updates w).

Lemma behaves_streams_inv w (ev : event Conn) w' :
  flags_inv w → streams_inv w → source_monotone w ev →
  behaves send w ev w' → streams_inv w'.
Proof.
  intros [Hs _ _] [Hok Hfr] Hmono Hb.
  destruct Hb as [ev Hev|Hnc|Hloop|w' Hloop Hres|k fetched Hk
                  |f s e fetched Hf Hst Hr
                  |f s fetched updates cur l w' Hf Hst Hr w2 Hl Hcases].
  - destruct ev as [| | | | |i token]; try done. simpl in *. split; simpl.
    + apply Forall_alter; [done|]. intros s Hsi Hoks.
      specialize (Hmono s Hsi). unfold stream_ok in *. simpl. lia.
    + eapply Forall_impl; [done|]. intros f (s & Hfs & Hle).
      unfold frame_ok. simpl.
      destruct (decide (i = f_index f)) as [->|Hne].
      * rewrite list_lookup_alter_eq, Hfs. simpl. by eexists.
      * rewrite list_lookup_alter_ne by done. by exists s.
  - done.
  - done.
  - rewrite Hloop in Hs. destruct Hs as [Hs _].
    by eapply pass_result_streams_inv; [| |done].
  - done.
  - split; [done|]. simpl. constructor.
  - rewrite Hf in Hfr. apply Forall_inv in Hfr.
    destruct Hfr as (s0 & Hs0 & Hle1 & Hle2). rewrite Hst in Hs0.
    injection Hs0 as <-.
    destruct (send_delivered (NAME s) updates
                (with_streams
                   (<[f_index f := set_last_token s (f_current_token f)]>)
                   (with_suspended (λ _, []) w)))
      as (conns & l0 & Hlen & Hl0 & Hw2).
    fold w2 in Hw2. clearbody w2. subst w2.
    assert (Hok2 : Forall stream_ok
                     (<[f_index f := set_last_token s (f_current_token f)]>
                        (streams w))).
    { apply Forall_insert; [done|].
      rewrite Forall_lookup in Hok. specialize (Hok _ _ Hst).
      unfold stream_ok in *. simpl. lia. }
    destruct Hcases as [(f' & s' & -> & Hlt & Hs' & Hc')|[[Hp ->]|[Hp Hres]]].
    + split; [done|]. simpl. constructor; [|done].
      exists s'. simpl in Hs'. split; [done|].
      rewrite Forall_lookup in Hok2. destruct (Hok2 _ _ Hs'). lia.
    + split; [done|]. simpl. constructor.
    + by eapply pass_result_streams_inv; [| |done].
Qed.
End streams_facts.

Section progress_facts.
Context {Conn : Type}.
Implicit Types w : Streamer Conn.

Lemma pass_result_log w w' :
  pass_result (begin_pass w) w' →
  ∃ l, log w' = log w ++ [PassBegin] ++ (Advance ∘ NAME <$> streams w) ++ l
       ∧ no_advance l
       ∧ count is_Raised l = 0%nat
       ∧ streams w' = advance_current_token <$> streams w.
Proof.
  intros [l Hl|l f s Hl Hs Hc]; simpl.
  - exists (l ++ [PassEnd]). rewrite <- !app_assoc. split; [done|].
    split; [|split; [by count_log|done]].
    apply Forall_app_2; [by apply body_no_advance|by repeat constructor].
  - exists l. rewrite <- !app_assoc. split; [done|].
    split; [|split; [by count_log|done]].
    by apply body_no_advance.
Qed.

Context (send : string → updates_t → Streamer Conn → Streamer Conn).
Hypothesis send_delivered : ∀ name updates w, delivered w (send name updates w).

Lemma behaves_log_grows w (ev : event Conn) w' :
  behaves send w ev w' → ∃ l, log w' = log w ++ l.
Proof.
  intros Hb.
  destruct Hb as [ev Hev|Hnc|Hloop|w' Hloop Hres|k fetched Hk
                  |f s e fetched Hf Hst Hr
                  |f s fetched updates cur l w' Hf Hst Hr w2 Hl Hcases].
  - exists []. rewrite app_nil_r. by destruct ev.
  - exists []. by rewrite app_nil_r.
  - exists []. by rewrite app_nil_r.
  - destruct (pass_result_log _ _ Hres) as (l & -> & _). by eexists.
  - exists []. by rewrite app_nil_r.
  - by eexists.
  - destruct (send_delivered (NAME s) updates
                (with_streams
                   (<[f_index f := set_last_token s (f_current_token f)]>)
                   (with_suspended (λ _, []) w)))
      as (conns & l0 & Hlen & Hl0 & Hw2).
    fold w2 in Hw2. clearbody w2. subst w2.
    destruct Hcases as [(f' & s' & -> & _)|[[Hp ->]|[Hp Hres]]]; simpl.
    + rewrite <- app_assoc. by eexists.
    + rewrite <- app_assoc. by eexists.
    + destruct (pass_result_log _ _ Hres) as (l' & -> & _). simpl.
      rewrite <- !app_assoc. by eexists.
Qed.

Lemma count_grows (p : effect → bool) (l l' : list effect) :
  (count p l ≤ count p (l ++ l'))%nat.
Proof. rewrite count_app. lia. Qed.

(** A wake-up that has been noted stays noted until a pass begins or
    an exception leaves the loop. *)
Lemma behaves_pending_kept w (ev : event Conn) w' :
  behaves send w ev w' →
  is_looping w = true → pending_updates w = true →
  (is_looping w' = true ∧ pending_updates w' = true)
  ∨ (count is_Raised (log w) < count is_Raised (log w'))%nat
  ∨ (count is_PassBegin (log w) < count is_PassBegin (log w'))%nat.
Proof.
  intros Hb Hloop Hpen.
  destruct Hb as [ev Hev|Hnc|_|w' Hloop' Hres|k fetched Hk
                  |f s e fetched Hf Hst Hr
                  |f s fetched updates cur l w' Hf Hst Hr w2 Hl Hcases].
  - left. by destruct ev.
  - by left.
  - by left.
  - congruence.
  - by left.
  - right. left. simpl. count_log. lia.
  - destruct (send_delivered (NAME s) updates
                (with_streams
                   (<[f_index f := set_last_token s (f_current_token f)]>)
                   (with_suspended (λ _, []) w)))
      as (conns & l0 & Hlen & Hl0 & Hw2).
    fold w2 in Hw2. clearbody w2. subst w2.
    destruct Hcases as [(f' & s' & -> & _)|[[Hp ->]|[Hp Hres]]].
    + by left.
    + congruence.
    + right. right. destruct (pass_result_log _ _ Hres) as (l' & -> & _).
      simpl. count_log. lia.
Qed.

(** Streams keep their names; [upto_token] changes only in a step that
    logs an [Advance] of the stream and then is the position of the
    data store; [last_token] never goes back and changes only when a
    fetch has returned fewer than [MAX_EVENTS_BEHIND] rows. *)
Lemma behaves_streams_change w (ev : event Conn) w' (i : nat) (s s' : Stream) :
  streams_inv w → behaves send w ev w' →
  streams w !! i = Some s → streams w' !! i = Some s' →
  NAME s' = NAME s
  ∧ (upto_token s' ≠ upto_token s →
     upto_token s' = current_token s
     ∧ ∃ l, log w' = log w ++ l ∧ Advance (NAME s) ∈ l)
  ∧ last_token s <= last_token s'
  ∧ (last_token s' ≠ last_token s →
     ∃ rows, ev = FetchDone 0 (Return rows)
             ∧ Z.of_nat (length rows) < MAX_EVENTS_BEHIND).
Proof.
  intros [Hok Hfr] Hb Hs Hs'.
  assert (Hadv : ∀ (w0 w1 : Streamer Conn) s0 s1,
             pass_result (begin_pass w0) w1 →
             streams w0 !! i = Some s0 → streams w1 !! i = Some s1 →
             s1 = advance_current_token s0
             ∧ ∃ l, log w1 = log w0 ++ l ∧ Advance (NAME s0) ∈ l).
  { intros w0 w1 s0 s1 Hres H0 H1.
    destruct (pass_result_log _ _ Hres) as (l & Hlog & _ & _ & Hst).
    rewrite Hst, list_lookup_fmap, H0 in H1. injection H1 as <-.
    split; [done|]. eexists. split; [done|].
    apply elem_of_app. right. apply elem_of_app. left.
    apply list_elem_of_fmap. exists s0. split; [done|].
    by eapply list_elem_of_lookup_2. }
  destruct Hb as [ev Hev|Hnc|Hloop|w' Hloop Hres|k fetched Hk
                  |f s0 e fetched Hf Hst Hr
                  |f s0 fetched updates cur l w' Hf Hst Hr w2 Hl Hcases].
  - destruct ev as [| | | | |j token]; simpl in Hs';
      try (rewrite Hs in Hs'; injection Hs' as <-; repeat split; try done; lia).
    destruct (decide (j = i)) as [->|Hne].
    + rewrite list_lookup_alter_eq, Hs in Hs'. injection Hs' as <-.
      simpl. repeat split; try done; lia.
    + rewrite list_lookup_alter_ne, Hs in Hs' by done. injection Hs' as <-.
      repeat split; try done; lia.
  - rewrite Hs in Hs'. injection Hs' as <-. repeat split; try done; lia.
  - simpl in Hs'. rewrite Hs in Hs'. injection Hs' as <-.
    repeat split; try done; lia.
  - destruct (Hadv _ _ s s' Hres Hs Hs') as (-> & l & Hlog & Hin). simpl.
    repeat split; try done; try lia. by exists l.
  - rewrite Hs in Hs'. injection Hs' as <-. repeat split; try done; lia.
  - simpl in Hs'. rewrite Hs in Hs'. injection Hs' as <-.
    repeat split; try done; lia.
  - rewrite Hf in Hfr. apply Forall_inv in Hfr.
    destruct Hfr as (s1 & Hs1 & Hle1 & Hle2). rewrite Hst in Hs1.
    injection Hs1 as <-.
    destruct (resume_Return _ _ _ _ _ Hr) as (_ & rows & -> & Hrows & _).
    destruct (send_delivered (NAME s0) updates
                (with_streams
                   (<[f_index f := set_last_token s0 (f_current_token f)]>)
                   (with_suspended (λ _, []) w)))
      as (conns & l0 & Hlen & Hl0 & Hw2).
    fold w2 in Hw2. clearbody w2. subst w2.
    assert (Hmid : ∀ s2,
               <[f_index f := set_last_token s0 (f_current_token f)]>
                 (streams w) !! i = Some s2 →
               NAME s2 = NAME s ∧ upto_token s2 = upto_token s
               ∧ current_token s2 = current_token s
               ∧ last_token s <= last_token s2
               ∧ (last_token s2 ≠ last_token s →
                  ∃ rows0, @FetchDone Conn 0 (Return rows) = FetchDone 0 (Return rows0)
                           ∧ Z.of_nat (length rows0) < MAX_EVENTS_BEHIND)).
    { intros s2 H2. destruct (decide (f_index f = i)) as [Heq|Hne].
      - rewrite Heq in *. rewrite Hs in Hst. injection Hst as <-.
        rewrite list_lookup_insert_eq in H2 by by eapply lookup_lt_Some.
        injection H2 as <-. simpl. repeat split; try done. by exists rows.
      - rewrite list_lookup_insert_ne, Hs in H2 by done. injection H2 as <-.
        repeat split; try done; lia. }
    destruct Hcases as [(f' & s'' & -> & _)|[[Hp ->]|[Hp Hres]]].
    + simpl in Hs'. destruct (Hmid s' Hs') as (Hn & Hu & Hc & Hle & Hrw).
      repeat split; try done.
    + simpl in Hs'. destruct (Hmid s' Hs') as (Hn & Hu & Hc & Hle & Hrw).
      repeat split; try done.
    + destruct (lookup_lt_is_Some_2
                  (<[f_index f := set_last_token s0 (f_current_token f)]>
                     (streams w)) i) as [s2 H2].
      { rewrite length_insert. by eapply lookup_lt_Some. }
      destruct (Hmid s2 H2) as (Hn & Hu & Hc & Hle & Hrw).
      destruct (Hadv _ _ s2 s' Hres H2 Hs') as (-> & l' & Hlog & Hin).
      simpl in *. rewrite Hn, Hc in *. repeat split; try done.
      rewrite Hlog, <- !app_assoc. eexists.
      split; [done|]. rewrite !elem_of_app. tauto.
Qed.
End progress_facts.

Section tcp_facts.
Context {Conn : Type} `{!Connection Conn}.
Implicit Types w : Streamer Conn.
Import Tcp.

Lemma tcp_for_streams_spec (n i : nat) w :
  ∃ l, body_log l
       ∧ (for_streams n i w = Ended (logged l w)
          ∨ ∃ f s,
              for_streams n i w
              = Suspended (with_suspended (λ fs, fs ++ [f]) (logged l w))
              ∧ (i ≤ f_index f)%nat
              ∧ streams w !! f_index f = Some s
              ∧ f_current_token f = upto_token s).
Proof.
  revert i w. induction n as [|n IH]; intros i w; simpl.
  { exists []. split; [constructor|]. left. by rewrite logged_nil. }
  destruct (streams w !! i) as [s|] eqn:Hs.
  2: { exists []. split; [constructor|]. left. by rewrite logged_nil. }
  case_bool_decide as Heq.
  - destruct (IH (S i) w) as (l & Hl & [Hend|(f & s' & Hsus & Hi & Hf & Hc)]).
    + exists l. split; [done|]. by left.
    + exists l. split; [done|]. right. exists f, s'. repeat split; try done; lia.
  - rewrite get_updates_since_begin_long, bool_decide_eq_false_2 by done.
    exists [GetUpdates (NAME s);
            Fetch (NAME s) {| fc_from := last_token s; fc_to := upto_token s;
                              fc_limit := MAX_EVENTS_BEHIND + 1 |}].
    split; [by repeat constructor|]. right.
    exists {| f_index := i; f_current_token := upto_token s |}, s.
    by rewrite logged_logged.
Qed.

Lemma tcp_send_batch_log (name : string)
    (batched_updates : list (option Z * json_text)) (conn : Conn)
    (l : list effect) :
  body_log l →
  body_log (foldl (λ acc update,
                     let tried := try_stream_update name update.1 update.2 acc.1 in
                     (tried.1, acc.2 ++ tried.2))
                  (conn, l) batched_updates).2.
Proof.
  revert conn l. induction batched_updates as [|u us IH]; intros conn l Hl; [done|].
  simpl. apply IH. apply Forall_app_2; [done|].
  unfold try_stream_update.
  destruct (conn_stream_update _ _ _ conn) as [[|] ?]; simpl; by repeat constructor.
Qed.

Lemma tcp_send_updates_delivered (name : string)
    (batched_updates : list (option Z * json_text)) w :
  delivered w (send_updates name batched_updates w).
Proof.
  unfold send_updates.
  exists (fst <$> (send_batch name batched_updates <$> connections w)),
         (concat (snd <$> (send_batch name batched_updates <$> connections w))).
  split; [by rewrite !length_fmap|]. split; [|done].
  apply Forall_concat, Forall_fmap, Forall_fmap, Forall_forall.
  intros c _. apply tcp_send_batch_log. constructor.
Qed.

Lemma tcp_while_pending_spec (n : nat) w :
  ∃ w', while_pending (S (S n)) w = Some w'
        ∧ if pending_updates w
          then pass_result (begin_pass w) w'
          else w' = finally w.
Proof.
  cbn [while_pending]. destruct (pending_updates w) eqn:Hp; [|by eexists].
  change (advance_all (logged [PassBegin] (with_pending_updates false w)))
    with (begin_pass w).
  unfold for_streams_from.
  destruct (tcp_for_streams_spec (length (streams (begin_pass w)) - 0) 0
              (begin_pass w)) as (l & Hl & [->|(f & s & -> & _ & Hs & Hc)]);
    cbn [after_for].
  - change (pending_updates (logged [PassEnd] (logged l (begin_pass w))))
      with false. cbn iota.
    eexists. split; [done|]. rewrite logged_logged. by constructor.
  - eexists. split; [done|]. by econstructor.
Qed.

(** Two tests of the condition are enough for [while_pending], and
    more fuel changes nothing. *)
Lemma tcp_while_pending_fuel (n : nat) w :
  while_pending (S (S n)) w = while_pending 2 w ∧ is_Some (while_pending 2 w).
Proof.
  cbn [while_pending]. destruct (pending_updates w) eqn:Hp; [|eauto].
  change (advance_all (logged [PassBegin] (with_pending_updates false w)))
    with (begin_pass w).
  unfold for_streams_from.
  destruct (tcp_for_streams_spec (length (streams (begin_pass w)) - 0) 0
              (begin_pass w)) as (l & Hl & [->|(f & s & -> & _)]);
    cbn [after_for]; [|eauto].
  change (pending_updates (logged [PassEnd] (logged l (begin_pass w))))
    with false. cbn iota. eauto.
Qed.

Lemma tcp_code_runs_to_its_end (n : nat) w (f : frame)
    (fetched : result (list Row)) :
  (on_notifier_poke (S (S n)) w = on_notifier_poke 2 w
   ∧ is_Some (on_notifier_poke 2 w))
  ∧ (resume (S (S n)) f fetched w = resume 2 f fetched w
     ∧ is_Some (resume 2 f fetched w)).
Proof.
  split.
  - unfold on_notifier_poke. destruct (connections w); [eauto|].
    destruct (is_looping w); [eauto|]. apply tcp_while_pending_fuel.
  - unfold resume. destruct (streams w !! f_index f) as [s|]; [|eauto].
    assert (Hafter : ∀ x : loop_exit Conn,
               after_for (while_pending (S (S n))) x
               = after_for (while_pending 2) x
               ∧ is_Some (after_for (while_pending 2) x)).
    { intros [w1|w1|e w1]; cbn [after_for]; [eauto| |eauto].
      apply tcp_while_pending_fuel. }
    destruct (got_updates _ _ _); apply Hafter.
Qed.

Lemma tcp_step_behaves w (ev : event Conn) :
  ready w →
  behaves (λ name updates, send_updates name (_batch_updates updates)) w ev
    (step w ev).
Proof.
  intros Hready. destruct ev as [|k fetched| | | |]; try by apply b_world.
  - (* Wake *)
    unfold step, on_notifier_poke, fuel.
    destruct (connections w) as [|c cs] eqn:Hconns; [by apply b_ignored|].
    destruct (is_looping w) eqn:Hloop; [by apply b_noted|].
    destruct (tcp_while_pending_spec 0
                (with_is_looping true (with_pending_updates true w)))
      as (w' & -> & Hres).
    by apply b_started.
  - (* FetchDone *)
    unfold step, fuel, ready in *.
    destruct (is_looping w) eqn:Hloop.
    2: { rewrite Hready. simpl. apply b_no_frame. by rewrite Hready. }
    destruct Hready as (f & Hf & Hidx). rewrite Hf.
    destruct k as [|k]; [simpl|simpl; apply b_no_frame; by rewrite Hf].
    destruct (lookup_lt_is_Some_2 (streams w) (f_index f) Hidx) as [s Hs].
    assert (Hw0 : with_suspended (delete 0%nat) w = with_suspended (λ _, []) w).
    { unfold with_suspended. by rewrite Hf. }
    rewrite Hw0. set (w0 := with_suspended (λ _, []) w).
    unfold resume. change (streams w0) with (streams w). rewrite Hs.
    unfold got_updates. change (streams w0) with (streams w). rewrite Hs.
    destruct (get_updates_since_resume (NAME s) (f_current_token f) fetched)
      as [[updates cur]|e] eqn:Hr;
      cbn -[while_pending for_streams_from send_updates].
    + assert (cur = f_current_token f) as -> by by eapply resume_Return.
      set (w2 := send_updates (NAME s) (_batch_updates updates) _).
      assert (Hp : pending_updates w2 = pending_updates w).
      { destruct (tcp_send_updates_delivered (NAME s) (_batch_updates updates)
                    (with_streams
                       (<[f_index f := set_last_token s (f_current_token f)]>) w0))
          as (? & ? & _ & _ & Hw2).
        fold w2 in Hw2. by rewrite Hw2. }
      unfold for_streams_from.
      destruct (tcp_for_streams_spec (length (streams w2) - S (f_index f))
                  (S (f_index f)) w2)
        as (l & Hl & [->|(f' & s' & -> & Hi & Hs' & Hc)]); cbn [after_for].
      * destruct (tcp_while_pending_spec 0 (logged [PassEnd] (logged l w2)))
          as (w' & -> & Hres). simpl.
        change (pending_updates (logged [PassEnd] (logged l w2)))
          with (pending_updates w2) in Hres.
        rewrite Hp in Hres.
        eapply (b_fetched _ w f s fetched updates _ l); try done.
        right. destruct (pending_updates w) eqn:Hpen.
        -- right. split; [done|]. by rewrite <- logged_logged.
        -- left. split; [done|]. by rewrite <- logged_logged.
      * eapply (b_fetched _ w f s fetched updates _ l); try done.
        left. exists f', s'. repeat split; try done; lia.
    + rewrite insert_same_stream by done. simpl.
      by eapply b_failed.
Qed.
End tcp_facts.

Section run_facts.
Context {Conn : Type}.
Implicit Types w : Streamer Conn.
Context (send : string → updates_t → Streamer Conn → Streamer Conn).
Hypothesis send_delivered : ∀ name updates w, delivered w (send name updates w).
Context (step : Streamer Conn → event Conn → Streamer Conn).
Hypothesis step_behaves : ∀ w ev, ready w → behaves send w ev (step w ev).

Lemma step_flags_inv w (ev : event Conn) : flags_inv w → flags_inv (step w ev).
Proof.
  intros Hinv. eapply behaves_flags_inv; [done|done|].
  by apply step_behaves, flags_inv_ready.
Qed.

Lemma run_flags_inv (evs : list (event Conn)) w :
  flags_inv w → flags_inv (foldl step w evs).
Proof.
  revert w. induction evs as [|ev evs IH]; intros w Hinv; [done|].
  simpl. by apply IH, step_flags_inv.
Qed.

Lemma reachable_inv (w0 w : Streamer Conn) :
  flags_inv w0 → streams_inv w0 → reachable step w0 w →
  flags_inv w ∧ streams_inv w.
Proof.
  intros Hf0 Hs0 Hreach. induction Hreach as [|w ev Hreach [Hf Hs] Hmono].
  - done.
  - split; [by apply step_flags_inv|].
    eapply behaves_streams_inv; [done|done|done|done|].
    by apply step_behaves, flags_inv_ready.
Qed.

Lemma run_log_grows (evs : list (event Conn)) w :
  flags_inv w → ∃ l, log (foldl step w evs) = log w ++ l.
Proof.
  revert w. induction evs as [|ev evs IH]; intros w Hinv.
  - exists []. by rewrite app_nil_r.
  - simpl. destruct (IH (step w ev)) as (l & Hl); [by apply step_flags_inv|].
    destruct (behaves_log_grows send send_delivered w ev (step w ev))
      as (l' & Hl'); [by apply step_behaves, flags_inv_ready|].
    rewrite Hl, Hl', <- app_assoc. by eexists.
Qed.

Lemma run_pending_kept (evs : list (event Conn)) w :
  flags_inv w → is_looping w = true → pending_updates w = true →
  let w' := foldl step w evs in
  (is_looping w' = true ∧ pending_updates w' = true)
  ∨ (count is_Raised (log w) < count is_Raised (log w'))%nat
  ∨ (count is_PassBegin (log w) < count is_PassBegin (log w'))%nat.
Proof.
  revert w. induction evs as [|ev evs IH]; intros w Hinv Hloop Hpen; [by left|].
  simpl.
  pose proof (step_flags_inv w ev Hinv) as Hinv1.
  destruct (behaves_log_grows send send_delivered w ev (step w ev))
    as (l1 & Hl1); [by apply step_behaves, flags_inv_ready|].
  destruct (run_log_grows evs (step w ev) Hinv1) as (l2 & Hl2).
  destruct (behaves_pending_kept send send_delivered w ev (step w ev))
    as [[Hloop1 Hpen1]|[Hr|Hb]]; [by apply step_behaves, flags_inv_ready|done..| | |].
  - destruct (IH (step w ev) Hinv1 Hloop1 Hpen1) as [?|[Hr|Hb]]; [by left| |].
    + right. left. rewrite Hl1, count_app in Hr. lia.
    + right. right. rewrite Hl1, count_app in Hb. lia.
  - right. left. rewrite Hl2, count_app. lia.
  - right. right. rewrite Hl2, count_app. lia.
Qed.

(** A wake-up noted while a pass is running is answered by one more
    pass, once the loop has stopped without an exception. *)
Lemma noted_wake_is_served (evs : list (event Conn)) w :
  flags_inv w → is_looping w = true →
  let w' := foldl step (with_pending_updates true w) evs in
  is_looping w' = false →
  count is_Raised (log w') = count is_Raised (log w) →
  (count is_PassEnd (log w) + 2 ≤ count is_PassEnd (log w'))%nat.
Proof.
  intros Hinv Hloop w' Hstop Hraised.
  assert (Hinv1 : flags_inv (with_pending_updates true w)).
  { eapply behaves_flags_inv; [done|done|]. by apply b_noted. }
  destruct (run_pending_kept evs _ Hinv1 Hloop eq_refl) as [[Hl _]|[Hr|Hb]].
  - fold w' in Hl. congruence.
  - fold w' in Hr. simpl in Hr. lia.
  - fold w' in Hb. simpl in Hb.
    pose proof (fi_passes w Hinv) as Hc. rewrite Hloop in Hc.
    pose proof (fi_passes w' (run_flags_inv evs _ Hinv1)) as Hc'.
    rewrite Hstop in Hc'. lia.
Qed.

Lemma run_one_at_a_time (evs : list (event Conn)) (ss : list Stream) :
  let w := foldl step (Streamer_init ss) evs in
  (length (suspended w) ≤ 1)%nat
  ∧ (is_looping w = true ↔ suspended w ≠ []).
Proof.
  intros w.
  pose proof (fi_suspended w (run_flags_inv evs _ (flags_inv_init ss))) as Hs.
  destruct (is_looping w).
  - destruct Hs as (f & -> & _). simpl. split; [lia|done].
  - destruct Hs as [-> _]. simpl. split; [lia|]. split; [done|]. by intros [].
Qed.
End run_facts.

Section fetched_facts.
Context {Conn : Type}.
Implicit Types w : Streamer Conn.
Context (send : string → updates_t → Streamer Conn → Streamer Conn).
Hypothesis send_delivered : ∀ name updates w, delivered w (send name updates w).


End fetched_facts.

(** ** Fan-out *)

Section fan_out_facts.
Context {Conn : Type} `{!Connection Conn}.
Implicit Types w : Streamer Conn.




End fan_out_facts.

Section poke_theorems.
Context {Conn : Type} `{!Connection Conn}.
Implicit Types w : Streamer Conn.

Lemma tcp_send_delivered (name : string) (updates : updates_t) w :
  delivered w (Tcp.send_updates name (_batch_updates updates) w).
Proof. apply tcp_send_updates_delivered. Qed.

(** C1, amended.  After any events, in either version, at most one
    generator of [on_notifier_poke] is suspended, and [is_looping] says
    whether one is.  A wake-up that comes while [is_looping] is set
    (and, in tcp/resource.py, while there is a connection) only sets
    [pending_updates]; and when after it the loop has stopped with no
    exception raised in between, the pass that was running and at
    least one more pass have run to their end. *)
Theorem poke_passes_one_at_a_time (ss : list Stream) (evs : list (event Conn)) :
  let w1 := TcpResource.run (Streamer_init ss) evs in
  let w2 := Tcp.run (Streamer_init ss) evs in
  ((length (suspended w1) ≤ 1)%nat ∧ (is_looping w1 = true ↔ suspended w1 ≠ []))
  ∧ ((length (suspended w2) ≤ 1)%nat ∧ (is_looping w2 = true ↔ suspended w2 ≠ []))
  ∧ (is_looping w1 = true →
     TcpResource.step w1 Wake = with_pending_updates true w1
     ∧ ∀ evs',
         let w' := TcpResource.run (TcpResource.step w1 Wake) evs' in
         is_looping w' = false →
         count is_Raised (log w') = count is_Raised (log w1) →
         (count is_PassEnd (log w1) + 2 ≤ count is_PassEnd (log w'))%nat)
  ∧ (is_looping w2 = true → connections w2 ≠ [] →
     Tcp.step w2 Wake = with_pending_updates true w2
     ∧ ∀ evs',
         let w' := Tcp.run (Tcp.step w2 Wake) evs' in
         is_looping w' = false →
         count is_Raised (log w') = count is_Raised (log w2) →
         (count is_PassEnd (log w2) + 2 ≤ count is_PassEnd (log w'))%nat).
Proof.
  intros w1 w2.
  split; [apply (run_one_at_a_time _ tr_send_updates_delivered _ tr_step_behaves)|].
  split; [apply (run_one_at_a_time _ tcp_send_delivered _ tcp_step_behaves)|].
  split.
  - intros Hloop.
    assert (Hwake : TcpResource.step w1 Wake = with_pending_updates true w1).
    { unfold TcpResource.step, TcpResource.on_notifier_poke. by rewrite Hloop. }
    split; [done|]. rewrite Hwake. intros evs'.
    apply (noted_wake_is_served _ tr_send_updates_delivered _ tr_step_behaves);
      [|done].
    apply (run_flags_inv _ tr_send_updates_delivered _ tr_step_behaves),
      flags_inv_init.
  - intros Hloop Hconns.
    assert (Hwake : Tcp.step w2 Wake = with_pending_updates true w2).
    { unfold Tcp.step, Tcp.on_notifier_poke. rewrite Hloop.
      by destruct (connections w2). }
    split; [done|]. rewrite Hwake. intros evs'.
    apply (noted_wake_is_served _ tcp_send_delivered _ tcp_step_behaves); [|done].
    apply (run_flags_inv _ tcp_send_delivered _ tcp_step_behaves), flags_inv_init.
Qed.

(** C4.  While the position in the data store does not go back, a
    stream is built with [last_token <= upto_token], and
    [advance_current_token] and [get_updates] keep it so.  In every state
    the streamer of tcp_resource.py gets into from streams so built, each
    stream has [last_token <= upto_token]; every [Advance] in the log comes right
    after the start of a pass, before any stream is looked at; a step
    changes [upto_token] only by such an advance, to the position of
    the data store; and [last_token] never goes back and changes only
    in the step where a fetch has returned, with fewer than
    [MAX_EVENTS_BEHIND] rows. *)
Theorem stream_tokens_ordered :
  (∀ name first second,
      first <= second → stream_ok (Stream_init name first second))
  ∧ (∀ s, stream_ok s → stream_ok (advance_current_token s))
  ∧ (∀ s update_function,
        stream_ok s → stream_ok (get_updates s update_function).1)
  ∧ (∀ (ss : list Stream) w,
        Forall stream_ok ss →
        reachable TcpResource.step (Streamer_init ss) w →
        Forall (λ s, last_token s <= upto_token s) (streams w)
        ∧ ok_log (log w)
        ∧ ∀ ev i s s',
            source_monotone w ev →
            streams w !! i = Some s →
            streams (TcpResource.step w ev) !! i = Some s' →
            (upto_token s' ≠ upto_token s →
             upto_token s' = current_token s
             ∧ ∃ l, log (TcpResource.step w ev) = log w ++ l
                    ∧ Advance (NAME s) ∈ l)
            ∧ last_token s <= last_token s'
            ∧ (last_token s' ≠ last_token s →
               ∃ rows, ev = FetchDone 0 (Return rows)
                       ∧ Z.of_nat (length rows) < MAX_EVENTS_BEHIND)).
Proof.
  split; [intros; unfold stream_ok; simpl; lia|].
  split; [apply stream_ok_advance|]. split.
  - intros s uf Hok. unfold get_updates, get_updates_since.
    rewrite get_updates_since_begin_long. unfold stream_ok in *.
    case_bool_decide; simpl; [lia|].
    destruct (get_updates_since_resume _ _ _) as [[u c]|e] eqn:Hr; simpl; [|done].
    apply resume_Return in Hr as [-> _]. lia.
  - intros ss w Hss Hreach.
    destruct (reachable_inv _ tr_send_updates_delivered _ tr_step_behaves
                _ w (flags_inv_init _) (streams_inv_init ss Hss) Hreach)
      as [Hflags Hstreams].
    split.
    { eapply Forall_impl; [apply (si_streams w Hstreams)|]. by intros s []. }
    split; [apply (fi_advances w Hflags)|].
    intros ev i s s' Hmono Hs Hs'.
    destruct (behaves_streams_change _ tr_send_updates_delivered w ev
                (TcpResource.step w ev) i s s' Hstreams
                (tr_step_behaves w ev (flags_inv_ready w Hflags)) Hs Hs')
      as (_ & Hupto & Hlast & Hchange).
    done.
Qed.


(** C10.  With no connection, [on_notifier_poke] of tcp/resource.py
    returns at once, whatever the fuel: the streamer is as it was, so
    no stream was advanced, nothing was fetched or logged, the tokens
    of the streams and [pending_updates] are unchanged. *)
Theorem poke_without_connections w :
  connections w = [] →
  (∀ fuel, Tcp.on_notifier_poke fuel w = Some w)
  ∧ Tcp.step w Wake = w
  ∧ log (Tcp.step w Wake) = log w
  ∧ streams (Tcp.step w Wake) = streams w
  ∧ pending_updates (Tcp.step w Wake) = pending_updates w.
Proof.
  intros Hc.
  assert (Hpoke : ∀ fuel, Tcp.on_notifier_poke fuel w = Some w).
  { intros fuel. unfold Tcp.on_notifier_poke. by rewrite Hc. }
  split; [done|]. unfold Tcp.step. by rewrite Hpoke.
Qed.
End poke_theorems.

(** ** The theorems on concrete runs *)

(** C1, as stated, fails.  In tcp/resource.py a pass is waiting for a
    fetch and the only connection is lost; the wake-up that comes then
    leaves [pending_updates] unset, and when the fetch returns the loop
    stops after the one pass that was running.  In tcp_resource.py a
    wake-up is noted while a pass waits for a fetch; the fetch fails,
    the exception leaves the loop through its [finally] clause, and no
    further pass begins. *)
Lemma wake_dropped :
  (let w := Tcp.run (Streamer_init example_streams) connection_lost_events in
   let w' := Tcp.run (Tcp.step w Wake) [FetchDone 0 (Return two_rows)] in
   is_looping w = true
   ∧ pending_updates (Tcp.step w Wake) = false
   ∧ is_looping w' = false
   ∧ count is_Raised (log w') = 0%nat
   ∧ count is_PassBegin (log w') = 1%nat
   ∧ count is_PassEnd (log w') = 1%nat)
  ∧ (let w := TcpResource.run (Streamer_init example_streams) fan_out_events in
     let w' := TcpResource.run (TcpResource.step w Wake)
                 [FetchDone 0 (Raise (Exception ["database error"]))] in
     is_looping w = true
     ∧ pending_updates (TcpResource.step w Wake) = true
     ∧ is_looping w' = false
     ∧ pending_updates w' = false
     ∧ count is_PassBegin (log w') = 1%nat
     ∧ count is_PassEnd (log w') = 0%nat).
Proof. by vm_compute. Qed.

Lemma poke_passes_one_at_a_time_witness :
  (0 + 2 ≤
   count is_PassEnd
     (log (TcpResource.run
             (TcpResource.step
                (TcpResource.run (Streamer_init example_streams) fan_out_events)
                Wake)
             [FetchDone 0 (Return two_rows)])))%nat.
Proof.
  apply (proj2 (proj1 (proj2 (proj2
           (poke_passes_one_at_a_time example_streams fan_out_events)))
           eq_refl)
           [FetchDone 0 (Return two_rows)]).
  - by vm_compute.
  - by vm_compute.
Defined.

Lemma stream_tokens_ordered_witness :
  Forall (λ s, last_token s <= upto_token s)
    (streams (TcpResource.step
                (TcpResource.step (Streamer_init [Stream_init "events" 4 5])
                   (NewData 0 7))
                (Wake (Conn:=test_connection)))).
Proof.
  apply (proj2 (proj2 (proj2 stream_tokens_ordered)) [Stream_init "events" 4 5]).
  - repeat constructor; simpl; lia.
  - apply reach_step; [apply reach_step; [apply reach_init|]|done].
    intros s [= <-]. simpl. lia.
Defined.


Lemma poke_without_connections_witness :
  Tcp.step (Streamer_init (Conn:=test_connection) example_streams) Wake
  = Streamer_init example_streams.
Proof.
  exact (proj1 (proj2 (poke_without_connections
                         (Streamer_init (Conn:=test_connection) example_streams)
                         eq_refl))).
Defined.

(** * Further properties of the code *)

(** ** Subscribing *)

Lemma get_updates_since_begin_now (s : Stream) (token : string) :
  token = "NOW" ∨ token = "now" →
  get_updates_since_begin s (TokStr token) = GusDone (Return ([], upto_token s)).
Proof.
  intros H. unfold get_updates_since_begin. simpl.
  by rewrite bool_decide_eq_true_2.
Qed.

Lemma on_REPLICATE_done (streams : list Stream) (line stream_name token : string)
    (stream : Stream) (r : result (updates_t * Z)) (c : ReplicationStreamProtocol) :
  unpack2 (split_1 line) = Return (stream_name, token) →
  streams_by_name streams stream_name = Some stream →
  get_updates_since_begin stream (TokStr token) = GusDone r →
  on_REPLICATE streams line c =
    (ReplDone (on_REPLICATE_try stream_name r
                 (with_connecting_streams (λ s, {[stream_name]} ∪ s)
                    (with_replication_streams (λ s, s ∖ {[stream_name]}) c))).1,
     (on_REPLICATE_try stream_name r
        (with_connecting_streams (λ s, {[stream_name]} ∪ s)
           (with_replication_streams (λ s, s ∖ {[stream_name]}) c))).2).
Proof.
  intros Hsplit Hs Hb. unfold on_REPLICATE, get_stream_updates.
  rewrite Hsplit, Hs, Hb. simpl.
  by destruct (on_REPLICATE_try _ _ _).
Qed.

(** X1. A [REPLICATE] of a known stream with the token [NOW] (or [now])
    is answered at once, without a fetch: what an earlier, failed
    subscription may have left in the buffer of the stream is sent, then
    [POSITION] with the stream's [upto_token]; the stream is replicating
    and no longer connecting, and its buffer is empty. *)
Theorem replicate_now_answers_at_once
    (streams : list Stream) (line stream_name token : string) (stream : Stream)
    (c : ReplicationStreamProtocol) :
  unpack2 (split_1 line) = Return (stream_name, token) →
  token = "NOW" ∨ token = "now" →
  streams_by_name streams stream_name = Some stream →
  ∃ c', on_REPLICATE streams line c = (ReplDone (Return ()), c')
        ∧ sent c' =
            sent c
            ++ (rdata stream_name <$> default [] (pending_rdata c !! stream_name))
            ++ [Line Cmd.POSITION [VStr stream_name; VLong (upto_token stream)]]
        ∧ stream_name ∈ replication_streams c'
        ∧ (stream_name ∉ connecting_streams c')
        ∧ pending_rdata c' !! stream_name = None
        ∧ lost c' = lost c.
Proof.
  intros Hsplit Hnow Hs.
  rewrite (on_REPLICATE_done streams line stream_name token stream
             (Return ([], upto_token stream)) c Hsplit Hs
             (get_updates_since_begin_now stream token Hnow)).
  rewrite on_REPLICATE_try_Return. eexists. split; [done|]. simpl.
  rewrite app_nil_r, <- app_assoc.
  repeat split; try done.
  - apply add_elem.
  - apply discard_not_elem.
  - apply lookup_delete_eq.
Qed.

Lemma replicate_now_answers_at_once_witness :
  ∃ c', on_REPLICATE example_streams "events NOW" Protocol_init
        = (ReplDone (Return ()), c')
        ∧ sent c' = [Line Cmd.POSITION [VStr "events"; VLong 5]].
Proof.
  destruct (replicate_now_answers_at_once example_streams "events NOW" "events"
              "NOW" (Stream_init "events" 5 5) Protocol_init eq_refl
              (or_introl eq_refl) eq_refl) as (c' & Hon & Hsent & _).
  exists c'. split; [exact Hon|exact Hsent].
Defined.

(** X2. [on_REPLICATE] makes a fetch, and is suspended on it, exactly
    when its line has a stream name and a token, the stream is known,
    and the token is an integer other than the stream's [upto_token];
    the fetch then is from that integer to [upto_token], with limit
    [MAX_EVENTS_BEHIND + 1]. *)
Theorem replicate_fetches_exactly_when
    (streams : list Stream) (line : string) (c : ReplicationStreamProtocol)
    (w : replicate_wait) :
  (∃ c1, on_REPLICATE streams line c = (ReplAwait w, c1))
  ↔ ∃ token stream z,
      unpack2 (split_1 line) = Return (rw_stream_name w, token)
      ∧ streams_by_name streams (rw_stream_name w) = Some stream
      ∧ long_of_str token = Return z
      ∧ z ≠ upto_token stream
      ∧ w = {| rw_stream_name := rw_stream_name w; rw_NAME := NAME stream;
               rw_call := {| fc_from := z; fc_to := upto_token stream;
                             fc_limit := MAX_EVENTS_BEHIND + 1 |};
               rw_current_token := upto_token stream |}.
Proof.
  split.
  - intros (c1 & Hon).
    destruct (on_REPLICATE_Await _ _ _ _ _ Hon) as (token & Hsplit & Hget & _).
    unfold get_stream_updates in Hget.
    destruct (streams_by_name streams (rw_stream_name w)) as [stream|] eqn:Hs;
      [|done].
    injection Hget as Hname Hbegin.
    unfold get_updates_since_begin in Hbegin.
    destruct (is_now (TokStr token)); [done|]. simpl in Hbegin.
    destruct (long_of_str token) as [z|e] eqn:Hl; [|done].
    case_bool_decide as Hz; [done|]. injection Hbegin as Hcall Hcur.
    exists token, stream, z. repeat split; try done.
    destruct w; simpl in *. by subst.
  - intros (token & stream & z & Hsplit & Hs & Hl & Hz & Hw).
    unfold on_REPLICATE, get_stream_updates. rewrite Hsplit, Hs.
    rewrite (get_updates_since_begin_fetch stream (TokStr token) z Hl Hz).
    eexists. by rewrite <- Hw.
Qed.

(** ** What a connection keeps true *)

Lemma PING_valid : Cmd.PING ∈ VALID_SERVER_COMMANDS.
Proof. unfold VALID_SERVER_COMMANDS. set_solver. Qed.

Lemma conn_inv_init : conn_inv Protocol_init.
Proof.
  split; simpl.
  - intros s Hs. by apply not_elem_of_empty in Hs.
  - intros s Hs. by apply not_elem_of_empty in Hs.
  - intros (l & Hl & _). by apply elem_of_nil in Hl.
  - constructor.
Qed.

(** Lines that are no [ERROR] may be sent at any time. *)
Lemma conn_inv_sent (ls : list line) (c : ReplicationStreamProtocol) :
  Forall (λ l, l_cmd l ∈ VALID_SERVER_COMMANDS ∧ l_cmd l ≠ Cmd.ERROR) ls →
  conn_inv c → conn_inv (with_sent (λ old, old ++ ls) c).
Proof.
  intros Hls [Hd Hb He Hv]. split; simpl; try done.
  - intros (l & Hl & Hcmd). apply He. exists l. split; [|done].
    apply elem_of_app in Hl as [Hl|Hl]; [done|].
    rewrite Forall_forall in Hls. by destruct (Hls l Hl).
  - apply Forall_app_2; [done|]. eapply Forall_impl; [done|]. by intros l [].
Qed.

Lemma conn_inv_send_error (error_string : string) (args : list fmt_arg)
    (c : ReplicationStreamProtocol) :
  conn_inv c → conn_inv (send_error error_string args c).2.
Proof.
  intros [Hd Hb He Hv]. rewrite send_error_spec. split; simpl; try done.
  apply Forall_app_2; [done|]. apply Forall_singleton, ERROR_valid.
Qed.

Lemma rdata_not_error (stream : string) (us : list (option Z * json_text)) :
  Forall (λ l, l_cmd l ∈ VALID_SERVER_COMMANDS ∧ l_cmd l ≠ Cmd.ERROR)
    (rdata stream <$> us).
Proof.
  apply Forall_fmap, Forall_forall. intros u _. simpl.
  split; [apply RDATA_valid|done].
Qed.

Lemma conn_inv_stream_update (stream : string) (token : option Z)
    (data : json_text) (c : ReplicationStreamProtocol) :
  conn_inv c → conn_inv (stream_update stream token data c).2.
Proof.
  intros Hinv. rewrite stream_update_spec. simpl.
  case_bool_decide as Hr.
  - apply (conn_inv_sent [rdata stream (token, data)]); [|done].
    apply (rdata_not_error stream [(token, data)]).
  - case_bool_decide as Hc; [|done].
    destruct Hinv as [Hd Hb He Hv]. split; simpl; try done.
    intros s Hs. rewrite lookup_insert_ne; [by apply Hb|]. by intros ->.
Qed.

Lemma conn_inv_subscribing (stream_name : string) (c : ReplicationStreamProtocol) :
  conn_inv c →
  conn_inv (with_connecting_streams (λ s, {[stream_name]} ∪ s)
              (with_replication_streams (λ s, s ∖ {[stream_name]}) c)).
Proof.
  intros [Hd Hb He Hv]. split; simpl; try done.
  - intros s Hs. apply elem_of_difference in Hs as [Hs Hne].
    intros Hin. apply elem_of_union in Hin as [Hin|Hin]; [done|].
    by apply (Hd s).
  - intros s Hs. apply elem_of_difference in Hs as [Hs _]. by apply Hb.
Qed.

Lemma conn_inv_on_REPLICATE_try (stream_name : string)
    (got : result (updates_t * Z)) (c : ReplicationStreamProtocol) :
  conn_inv c → conn_inv (on_REPLICATE_try stream_name got c).2.
Proof.
  intros Hinv. destruct got as [[history current_token]|e].
  - rewrite on_REPLICATE_try_Return. simpl.
    pose proof (conn_inv_sent
                  ((rdata stream_name <$> ((λ u, (Some u.1, u.2)) <$> history))
                   ++ (rdata stream_name
                       <$> default [] (pending_rdata c !! stream_name))
                   ++ [Line Cmd.POSITION [VStr stream_name; VLong current_token]])
                  c) as Hsent.
    destruct Hsent as [Hd Hb He Hv]; [|done|].
    { repeat apply Forall_app_2; try apply rdata_not_error.
      apply Forall_singleton. split; [apply POSITION_valid|done]. }
    simpl in *. split; simpl.
    + intros s Hs Hin. apply elem_of_difference in Hin as [Hin Hne].
      apply elem_of_union in Hs as [Hs|Hs]; [done|]. by apply (Hd s).
    + intros s Hs. destruct (decide (s = stream_name)) as [->|Hne].
      * apply lookup_delete_eq.
      * rewrite lookup_delete_ne by done. apply Hb.
        apply elem_of_union in Hs as [Hs|Hs]; [|done].
        by apply elem_of_singleton in Hs.
    + rewrite <- !app_assoc. exact He.
    + rewrite <- !app_assoc. exact Hv.
  - rewrite on_REPLICATE_try_Raise.
    destruct Hinv as [Hd Hb He Hv]. split; simpl; try done.
    + intros s Hs Hin. apply elem_of_difference in Hin as [Hin _].
      by apply (Hd s).
    + apply Forall_app_2; [done|]. apply Forall_singleton, ERROR_valid.
Qed.

Lemma conn_inv_on_REPLICATE (streams : list Stream) (line : string)
    (c : ReplicationStreamProtocol) :
  conn_inv c → conn_inv (on_REPLICATE streams line c).2.
Proof.
  intros Hinv. unfold on_REPLICATE.
  destruct (unpack2 (split_1 line)) as [[stream_name token]|e]; [|done].
  pose proof (conn_inv_subscribing stream_name c Hinv) as Hsub.
  set (c1 := with_connecting_streams _ _) in Hsub.
  change ((modify (with_replication_streams (λ s, s ∖ {[stream_name]})) ;;
           modify (with_connecting_streams (λ s, {[stream_name]} ∪ s))) c).2
    with c1.
  destruct (get_stream_updates streams stream_name (TokStr token))
    as [[NAME [got|call cur]]|e].
  - pose proof (conn_inv_on_REPLICATE_try stream_name got c1 Hsub) as H.
    by destruct (on_REPLICATE_try stream_name got c1).
  - done.
  - pose proof (conn_inv_on_REPLICATE_try stream_name (Raise e) c1 Hsub) as H.
    by destruct (on_REPLICATE_try stream_name (Raise e) c1).
Qed.

Lemma conn_inv_lineReceived (streams : list Stream) (time_msec : Z)
    (line : string) (c : ReplicationStreamProtocol) :
  conn_inv c → conn_inv (lineReceived streams time_msec line c).2.
Proof.
  intros Hinv. unfold lineReceived. case_bool_decide; [done|].
  unfold mbind, M_bind, lift.
  destruct (unpack2 (split_1 line)) as [[cmd rest]|e]; [|done]. simpl.
  case_bool_decide.
  { exact (conn_inv_send_error "unkown command: %s" [FStr cmd] c Hinv). }
  case_bool_decide.
  { destruct Hinv. by split. }
  case_bool_decide.
  { pose proof (conn_inv_on_REPLICATE streams rest c Hinv) as H'.
    by destruct (on_REPLICATE streams rest c). }
  case_bool_decide.
  { destruct Hinv. by split. }
  unfold on_USER_SYNC, mbind, M_bind, lift.
  destruct (unpack2 (split_1 rest)) as [[state user_id]|e]; [|done]. simpl.
  case_bool_decide; [|done].
  exact (conn_inv_send_error "invalide USER_SYNC state" [] c Hinv).
Qed.

Lemma conn_inv_step (c : ReplicationStreamProtocol) (ev : conn_event) :
  conn_inv c → conn_inv (conn_step c ev).
Proof.
  intros Hinv. destruct ev as [streams t line|w fetched|d|t]; unfold conn_step.
  - by apply conn_inv_lineReceived.
  - by apply conn_inv_on_REPLICATE_try.
  - by apply conn_inv_stream_update.
  - rewrite send_command_valid by apply PING_valid.
    apply (conn_inv_sent [Line Cmd.PING [VLong t]]); [|done].
    apply Forall_singleton. split; [apply PING_valid|done].
Qed.

Lemma conn_inv_run (evs : list conn_event) (c : ReplicationStreamProtocol) :
  conn_inv c → conn_inv (conn_run c evs).
Proof.
  revert c. induction evs as [|ev evs IH]; intros c Hinv; [done|].
  simpl. by apply IH, conn_inv_step.
Qed.

(** X3. Whatever lines a connection receives, whatever fetches return
    to it, whatever the poke loop delivers and whenever it is pinged, no
    stream is at the same time in [replication_streams] and in
    [connecting_streams]. *)
Theorem replicating_and_connecting_are_disjoint (evs : list conn_event) :
  replication_streams (conn_run Protocol_init evs)
  ∩ connecting_streams (conn_run Protocol_init evs) = ∅.
Proof.
  apply set_eq. intros stream. split; [|by intros H%not_elem_of_empty].
  intros [Hr Hc]%elem_of_intersection.
  by destruct (ci_disjoint _ (conn_inv_run evs _ conn_inv_init) stream).
Qed.

(** X4. Whatever happens to a connection, a stream that is in
    [replication_streams] has no entry in [pending_rdata]: nothing stays
    buffered for a stream whose rows are sent as they come. *)
Theorem replicating_stream_has_no_buffer (evs : list conn_event) (stream : string) :
  stream ∈ replication_streams (conn_run Protocol_init evs) →
  pending_rdata (conn_run Protocol_init evs) !! stream = None.
Proof. apply (ci_no_buffer _ (conn_inv_run evs _ conn_inv_init)). Qed.

Lemma replicating_stream_has_no_buffer_witness :
  pending_rdata (conn_run Protocol_init subscribe_events) !! "events" = None.
Proof.
  apply (replicating_stream_has_no_buffer subscribe_events "events").
  apply (bool_decide_unpack (_ ∈ _)). by vm_compute.
Defined.

(** X5. Whatever happens to a connection, once an [ERROR] line has been
    sent [transport.loseConnection()] has been called. *)
Theorem error_line_closes_the_connection (evs : list conn_event) (l : line) :
  l ∈ sent (conn_run Protocol_init evs) → l_cmd l = Cmd.ERROR →
  lost (conn_run Protocol_init evs) = true.
Proof.
  intros Hl Hcmd. apply (ci_error_lost _ (conn_inv_run evs _ conn_inv_init)).
  by exists l.
Qed.

Lemma error_line_closes_the_connection_witness :
  lost (conn_run Protocol_init failing_events) = true.
Proof.
  apply (error_line_closes_the_connection failing_events
           (Line Cmd.ERROR [VFormat "failed to handle replicate: %r"
                              [FRepr (Exception ["unknown stream %s"; "evens"])]])).
  - vm_compute. constructor.
  - reflexivity.
Defined.

(** ** When [lineReceived] raises *)

Lemma split_1_cases (s : string) :
  split_1 s = [s] ∨ ∃ a b, split_1 s = [a; b].
Proof.
  induction s as [|ch s IH]; [by left|]. simpl.
  destruct (Ascii.eqb ch " "); [right; eauto|].
  destruct IH as [->|(a & b & ->)]; [by left|right; eauto].
Qed.

Lemma unpack2_split_1 (s : string) (e : exn) :
  unpack2 (split_1 s) = Raise e →
  split_1 s = [s] ∧ e = ValueError "need more than 1 value to unpack".
Proof.
  destruct (split_1_cases s) as [H|(a & b & H)]; rewrite H; simpl; [|done].
  by intros [= <-].
Qed.

Lemma unpack2_split_1_Return (s a b : string) :
  unpack2 (split_1 s) = Return (a, b) → split_1 s = [a; b].
Proof.
  destruct (split_1_cases s) as [H|(x & y & H)]; rewrite H; simpl; [done|].
  by intros [= -> ->].
Qed.

Lemma client_command_cases (cmd : string) :
  cmd ∈ VALID_CLIENT_COMMANDS → cmd ≠ Cmd.NAME → cmd ≠ Cmd.REPLICATE →
  cmd ≠ Cmd.PING → cmd = Cmd.USER_SYNC.
Proof.
  intros Hin Hn Hr Hp. unfold VALID_CLIENT_COMMANDS in Hin.
  repeat match goal with
    | H : _ ∈ _ :: _ |- _ => apply elem_of_cons in H as [H|H]; [done|]
    | H : _ ∈ [] |- _ => by apply elem_of_nil in H
    end.
Qed.

Lemma sync_state_cases (state : string) :
  state ∈ ["start"; "end"] → state = "start" ∨ state = "end".
Proof.
  intros Hin.
  apply elem_of_cons in Hin as [->|Hin]; [by left|].
  apply elem_of_cons in Hin as [->|Hin]; [by right|].
  by apply elem_of_nil in Hin.
Qed.

Lemma lineReceived_Raise (streams : list Stream) (time_msec : Z) (line : string)
    (c : ReplicationStreamProtocol) (e : exn) :
  (lineReceived streams time_msec line c).1 = Raise e →
  (lineReceived streams time_msec line c).2 = c
  ∧ strip line ≠ ""
  ∧ ((e = ValueError "need more than 1 value to unpack"
      ∧ split_1 line = [line])
     ∨ (e = ValueError "need more than 1 value to unpack"
        ∧ ∃ rest, split_1 line = [Cmd.USER_SYNC; rest] ∧ split_1 rest = [rest])
     ∨ (e = AttributeError "'ReplicationStreamer' object has no attribute 'on_user_sync'"
        ∧ ∃ rest state user_id,
            split_1 line = [Cmd.USER_SYNC; rest]
            ∧ split_1 rest = [state; user_id]
            ∧ (state = "start" ∨ state = "end"))).
Proof.
  unfold lineReceived. case_bool_decide as Hblank; [done|].
  unfold mbind, M_bind, lift.
  destruct (unpack2 (split_1 line)) as [[cmd rest]|e'] eqn:Hsplit.
  2: { intros [= <-]. apply unpack2_split_1 in Hsplit as [Hs ->]. auto. }
  simpl. case_bool_decide; [done|]. case_bool_decide; [done|].
  case_bool_decide; [by destruct (on_REPLICATE streams rest c)|].
  case_bool_decide; [done|].
  assert (cmd = Cmd.USER_SYNC) as -> by by apply client_command_cases.
  apply unpack2_split_1_Return in Hsplit.
  unfold on_USER_SYNC, mbind, M_bind, lift.
  destruct (unpack2 (split_1 rest)) as [[state user_id]|e'] eqn:Hrest.
  - simpl. case_bool_decide as Hstate; [done|]. unfold mraise. intros [= <-].
    apply unpack2_split_1_Return in Hrest. apply sync_state_cases in Hstate.
    split; [done|]. split; [done|]. right. right. split; [done|].
    by exists rest, state, user_id.
  - intros [= <-]. apply unpack2_split_1 in Hrest as [Hr ->].
    split; [done|]. split; [done|]. right. left. split; [done|].
    by exists rest.
Qed.

(** X7. [lineReceived] raises in three cases and no other: on a line
    that is not blank and has no space, and on a [USER_SYNC] line whose
    rest has no space, where unpacking the split raises [ValueError];
    and on a [USER_SYNC] line whose state is [start] or [end], where
    [self.streamer.on_user_sync] does not exist and looking it up
    raises [AttributeError].  In each of them it does raise, and the
    connection is as it was: no [ERROR] line is sent and the connection
    is not closed. *)
Theorem lineReceived_raises_exactly_when
    (streams : list Stream) (time_msec : Z) (line : string)
    (c : ReplicationStreamProtocol) :
  (∀ e, (lineReceived streams time_msec line c).1 = Raise e →
        (lineReceived streams time_msec line c).2 = c
        ∧ strip line ≠ ""
        ∧ ((e = ValueError "need more than 1 value to unpack"
            ∧ split_1 line = [line])
           ∨ (e = ValueError "need more than 1 value to unpack"
              ∧ ∃ rest, split_1 line = [Cmd.USER_SYNC; rest]
                        ∧ split_1 rest = [rest])
           ∨ (e = AttributeError "'ReplicationStreamer' object has no attribute 'on_user_sync'"
              ∧ ∃ rest state user_id,
                  split_1 line = [Cmd.USER_SYNC; rest]
                  ∧ split_1 rest = [state; user_id]
                  ∧ (state = "start" ∨ state = "end"))))
  ∧ (strip line ≠ "" → split_1 line = [line] →
     lineReceived streams time_msec line c
     = (Raise (ValueError "need more than 1 value to unpack"), c))
  ∧ (∀ rest,
       strip line ≠ "" → split_1 line = [Cmd.USER_SYNC; rest] →
       split_1 rest = [rest] →
       lineReceived streams time_msec line c
       = (Raise (ValueError "need more than 1 value to unpack"), c))
  ∧ (∀ rest state user_id,
       strip line ≠ "" → split_1 line = [Cmd.USER_SYNC; rest] →
       split_1 rest = [state; user_id] →
       state = "start" ∨ state = "end" →
       lineReceived streams time_msec line c
       = (Raise (AttributeError "'ReplicationStreamer' object has no attribute 'on_user_sync'"), c)).
Proof.
  split; [intros e; apply lineReceived_Raise|].
  assert (Hsync : ∀ rest,
            strip line ≠ "" → split_1 line = [Cmd.USER_SYNC; rest] →
            lineReceived streams time_msec line c = on_USER_SYNC rest c).
  { intros rest Hblank Hsplit. unfold lineReceived.
    rewrite bool_decide_eq_false_2 by done.
    unfold mbind at 1, M_bind at 1, lift at 1. rewrite Hsplit.
    cbn -[on_USER_SYNC].
    change (bool_decide (Cmd.USER_SYNC ∉ VALID_CLIENT_COMMANDS)) with false.
    change (bool_decide (Cmd.USER_SYNC = Cmd.NAME)) with false.
    change (bool_decide (Cmd.USER_SYNC = Cmd.REPLICATE)) with false.
    change (bool_decide (Cmd.USER_SYNC = Cmd.PING)) with false.
    done. }
  split; [|split].
  - intros Hblank Hsplit. unfold lineReceived.
    rewrite bool_decide_eq_false_2 by done. unfold mbind, M_bind, lift.
    by rewrite Hsplit.
  - intros rest Hblank Hsplit Hrest. rewrite (Hsync rest) by done.
    unfold on_USER_SYNC, mbind, M_bind, lift. by rewrite Hrest.
  - intros rest state user_id Hblank Hsplit Hrest Hstate.
    rewrite (Hsync rest) by done.
    unfold on_USER_SYNC, mbind, M_bind, lift. rewrite Hrest. simpl.
    rewrite bool_decide_eq_false_2; [done|].
    intros Hn. apply Hn. destruct Hstate as [-> | ->]; set_solver.
Qed.

Lemma lineReceived_raises_exactly_when_witness :
  lineReceived example_streams 0 "USER_SYNC start @alice:example.org"
    Protocol_init
  = (Raise (AttributeError "'ReplicationStreamer' object has no attribute 'on_user_sync'"), Protocol_init).
Proof.
  apply (proj2 (proj2 (proj2 (lineReceived_raises_exactly_when example_streams 0
                  "USER_SYNC start @alice:example.org" Protocol_init)))
           "start @alice:example.org" "start" "@alice:example.org").
  - by vm_compute.
  - reflexivity.
  - reflexivity.
  - by left.
Defined.

(** ** No call of [send_command] raises *)

Lemma on_REPLICATE_try_returns (stream_name : string)
    (got : result (updates_t * Z)) (c : ReplicationStreamProtocol) :
  (on_REPLICATE_try stream_name got c).1 = Return ().
Proof.
  destruct got as [[history current_token]|e].
  - by rewrite on_REPLICATE_try_Return.
  - by rewrite on_REPLICATE_try_Raise.
Qed.

Lemma on_REPLICATE_Raise (streams : list Stream) (line : string)
    (c : ReplicationStreamProtocol) (e : exn) :
  (on_REPLICATE streams line c).1 = ReplDone (Raise e) →
  e = ValueError "need more than 1 value to unpack".
Proof.
  unfold on_REPLICATE.
  destruct (unpack2 (split_1 line)) as [[stream_name token]|e'] eqn:Hsplit.
  2: { intros [= <-]. by apply unpack2_split_1 in Hsplit as [_ ->]. }
  set (c1 := ((modify (with_replication_streams (λ s, s ∖ {[stream_name]})) ;;
               modify (with_connecting_streams (λ s, {[stream_name]} ∪ s))) c).2).
  assert (Htry : ∀ got, (let '(r, c2) := on_REPLICATE_try stream_name got c1 in
                         (ReplDone r, c2)).1 = ReplDone (Raise e) → False).
  { intros got. pose proof (on_REPLICATE_try_returns stream_name got c1) as Hr.
    destruct (on_REPLICATE_try stream_name got c1) as [r c2]. simpl in *.
    by subst r. }
  destruct (get_stream_updates streams stream_name (TokStr token))
    as [[NAME [r|call cur]]|e'']; [|done|]; intros H; by apply Htry in H.
Qed.

(** X6. No call of [send_command] made by the code of a connection
    raises.  The only exceptions a call on a connection ends with
    ([lineReceived], with the deferred of [on_REPLICATE]; the catch-up
    going on when its fetch returns; [stream_update]; the [PING] of
    [send_ping]) are the [ValueError] of unpacking a line and the
    [AttributeError] of the missing [on_user_sync], never the
    invalid-command exception.  A catch-up whose rows came back sends
    [RDATA] and [POSITION] lines only and does not close the
    connection: its [except] clause has not run.  And every line a
    connection ever sends starts with one of the server commands
    [RDATA], [POSITION], [ERROR], [PING]. *)
Theorem send_command_never_raises
    (c : ReplicationStreamProtocol) (ev : conn_event) :
  (∀ e, raised_by c ev = Some e →
        e = ValueError "need more than 1 value to unpack"
        ∨ e = AttributeError "'ReplicationStreamer' object has no attribute 'on_user_sync'")
  ∧ (∀ stream_name history current_token,
       let c' := (on_REPLICATE_try stream_name
                    (Return (history, current_token)) c).2 in
       lost c' = lost c
       ∧ ∃ ls, sent c' = sent c ++ ls
               ∧ Forall (λ l, l_cmd l = Cmd.RDATA ∨ l_cmd l = Cmd.POSITION) ls)
  ∧ ∀ evs,
      Forall (λ l, l_cmd l ∈ VALID_SERVER_COMMANDS)
        (sent (conn_run Protocol_init evs)).
Proof.
  split; [|split].
  - intros e. destruct ev as [streams t line|w fetched|d|t]; unfold raised_by.
    + destruct (lineReceived streams t line c).1 as [[|[[r|e']|w]]|e'] eqn:Hl;
        try done.
      * intros [= <-]. left.
        unfold lineReceived in Hl. case_bool_decide; [done|].
        revert Hl. unfold mbind, M_bind, lift.
        destruct (unpack2 (split_1 line)) as [[cmd rest]|e'']; [|done]. simpl.
        case_bool_decide; [done|]. case_bool_decide; [done|].
        case_bool_decide.
        -- pose proof (on_REPLICATE_Raise streams rest c e') as Hr.
           destruct (on_REPLICATE streams rest c) as [st c2]. simpl in *.
           intros [= ->]. by apply Hr.
        -- case_bool_decide; [done|].
           unfold on_USER_SYNC, mbind, M_bind, lift.
           destruct (unpack2 (split_1 rest)) as [[state user_id]|e'']; [|done].
           simpl. by case_bool_decide.
      * intros [= <-].
        destruct (lineReceived_Raise streams t line c e' Hl)
          as (_ & _ & [[-> _]|[[-> _]|[-> _]]]); auto.
    + unfold on_REPLICATE_resume. by rewrite on_REPLICATE_try_returns.
    + by rewrite stream_update_spec.
    + by rewrite send_command_valid by apply PING_valid.
  - intros stream_name history current_token. rewrite on_REPLICATE_try_Return.
    simpl. split; [done|]. rewrite <- !app_assoc. eexists. split; [done|].
    apply Forall_app_2; [|apply Forall_app_2].
    + apply Forall_fmap, Forall_forall. intros u _. by left.
    + apply Forall_fmap, Forall_forall. intros u _. by left.
    + apply Forall_singleton. by right.
  - intros evs. apply (ci_valid _ (conn_inv_run evs _ conn_inv_init)).
Qed.

(** ** Deliveries: where a row goes *)

Lemma deliveries_keep_buffer (ds : list delivery) (c : ReplicationStreamProtocol)
    (stream : string) :
  stream ∈ replication_streams c ∨ stream ∉ connecting_streams c →
  pending_rdata (deliveries ds c) !! stream = pending_rdata c !! stream.
Proof.
  revert c. induction ds as [|d ds IH]; intros c Hs; [done|]. simpl.
  rewrite stream_update_spec. simpl.
  set (c1 := if bool_decide (d_stream d ∈ replication_streams c) then _ else _).
  assert (Hc1 : replication_streams c1 = replication_streams c
                ∧ connecting_streams c1 = connecting_streams c
                ∧ pending_rdata c1 !! stream = pending_rdata c !! stream).
  { unfold c1. repeat case_bool_decide; try done. simpl.
    repeat split. apply lookup_insert_ne. intros Heq. rewrite Heq in *. tauto. }
  destruct Hc1 as (Hr & Hc & Hp).
  rewrite IH by (by rewrite Hr, Hc). done.
Qed.

Lemma deliveries_dropped (ds : list delivery) (c : ReplicationStreamProtocol) :
  Forall (λ d, (d_stream d ∉ replication_streams c)
               ∧ d_stream d ∉ connecting_streams c) ds →
  deliveries ds c = c.
Proof.
  induction 1 as [|d ds [Hr Hc] _ IH]; [done|]. simpl.
  rewrite stream_update_spec. simpl.
  by rewrite !bool_decide_eq_false_2 by done.
Qed.

(** X8. Every row the poke loop hands to a connection goes to one of
    three places.  For a replicating stream it is sent at once as an
    [RDATA] line, in the order of the calls; for a connecting stream it
    is appended to the buffer of that stream and nothing is sent; for
    any other stream it is dropped: a connection that is given only such
    rows is left exactly as it was.  The two sets of streams never
    change. *)
Theorem deliveries_are_routed (ds : list delivery) (c : ReplicationStreamProtocol) :
  let c2 := deliveries ds c in
  replication_streams c2 = replication_streams c
  ∧ connecting_streams c2 = connecting_streams c
  ∧ sent c2 =
      sent c ++ ((λ d, rdata (d_stream d) (d_token d, d_data d))
                 <$> filter (λ d, d_stream d ∈ replication_streams c) ds)
  ∧ (∀ stream,
       default [] (pending_rdata c2 !! stream) =
         default [] (pending_rdata c !! stream)
         ++ (if bool_decide (stream ∈ replication_streams c) then []
             else if bool_decide (stream ∈ connecting_streams c)
             then buffered stream ds else []))
  ∧ (Forall (λ d, (d_stream d ∉ replication_streams c)
                  ∧ d_stream d ∉ connecting_streams c) ds → c2 = c).
Proof.
  intros c2. destruct (deliveries_spec ds c) as (_ & Hr & Hc & _ & _ & Hs & Hb).
  repeat split; try done.
  - intros stream. unfold c2. repeat case_bool_decide.
    + rewrite deliveries_keep_buffer by auto. by rewrite app_nil_r.
    + by apply Hb.
    + rewrite deliveries_keep_buffer by auto. by rewrite app_nil_r.
  - apply deliveries_dropped.
Qed.

(** ** Subscribing to one stream leaves the others alone *)

Lemma on_REPLICATE_try_others (stream_name other : string)
    (got : result (updates_t * Z)) (c : ReplicationStreamProtocol) :
  other ≠ stream_name →
  let c' := (on_REPLICATE_try stream_name got c).2 in
  (other ∈ replication_streams c' ↔ other ∈ replication_streams c)
  ∧ (other ∈ connecting_streams c' ↔ other ∈ connecting_streams c)
  ∧ pending_rdata c' !! other = pending_rdata c !! other.
Proof.
  intros Hne. destruct got as [[history current_token]|e].
  - rewrite on_REPLICATE_try_Return. simpl.
    rewrite elem_of_union, elem_of_difference, !elem_of_singleton.
    rewrite lookup_delete_ne by done. tauto.
  - rewrite on_REPLICATE_try_Raise. simpl.
    rewrite elem_of_difference, !elem_of_singleton. tauto.
Qed.

Lemma subscribing_others (stream_name other : string)
    (c : ReplicationStreamProtocol) :
  other ≠ stream_name →
  let c' := with_connecting_streams (λ s, {[stream_name]} ∪ s)
              (with_replication_streams (λ s, s ∖ {[stream_name]}) c) in
  (other ∈ replication_streams c' ↔ other ∈ replication_streams c)
  ∧ (other ∈ connecting_streams c' ↔ other ∈ connecting_streams c)
  ∧ pending_rdata c' !! other = pending_rdata c !! other.
Proof.
  intros Hne. simpl.
  rewrite elem_of_union, elem_of_difference, !elem_of_singleton. tauto.
Qed.

(** X9. A [REPLICATE] command for one stream, from the line coming in to
    the end of the catch-up and whatever its outcome, leaves every other
    stream of the connection as it was: replicating or not, connecting
    or not, and with the same rows buffered. *)
Theorem replicate_leaves_other_streams
    (streams : list Stream) (line stream_name token other : string)
    (w : replicate_wait) (fetched : result (list Row))
    (c : ReplicationStreamProtocol) :
  unpack2 (split_1 line) = Return (stream_name, token) →
  other ≠ stream_name →
  other ≠ rw_stream_name w →
  let same c' :=
    (other ∈ replication_streams c' ↔ other ∈ replication_streams c)
    ∧ (other ∈ connecting_streams c' ↔ other ∈ connecting_streams c)
    ∧ pending_rdata c' !! other = pending_rdata c !! other in
  same (on_REPLICATE streams line c).2
  ∧ same (on_REPLICATE_resume w fetched c).2.
Proof.
  intros Hline Hne Hnew same. split.
  - unfold on_REPLICATE. rewrite Hline.
    set (c1 := with_connecting_streams (λ s, {[stream_name]} ∪ s)
                 (with_replication_streams (λ s, s ∖ {[stream_name]}) c)).
    change ((modify (with_replication_streams (λ s, s ∖ {[stream_name]})) ;;
             modify (with_connecting_streams (λ s, {[stream_name]} ∪ s))) c).2
      with c1.
    pose proof (subscribing_others stream_name other c Hne) as H1.
    assert (Htry : ∀ got, same (on_REPLICATE_try stream_name got c1).2).
    { intros got.
      pose proof H1 as (Ha & Hb & Hc).
      destruct (on_REPLICATE_try_others stream_name other got c1 Hne)
        as (Ha' & Hb' & Hc').
      unfold same. split; [|split]; etransitivity; eauto. }
    destruct (get_stream_updates streams stream_name (TokStr token))
      as [[NAME [r|call cur]]|e].
    + specialize (Htry r). by destruct (on_REPLICATE_try stream_name r c1).
    + exact H1.
    + specialize (Htry (Raise e)).
      by destruct (on_REPLICATE_try stream_name (Raise e) c1).
  - apply on_REPLICATE_try_others. done.
Qed.

Lemma replicate_leaves_other_streams_witness :
  "backfill" ∈ replication_streams
     (on_REPLICATE_resume example_wait (Return two_rows)
        (on_REPLICATE example_streams "events 3" example_connection).2).2.
Proof.
  pose proof (replicate_leaves_other_streams example_streams "events 3"
                "events" "3" "backfill" example_wait (Return two_rows)) as H.
  apply (H _ eq_refl ltac:(done) ltac:(done)).
  apply (H example_connection eq_refl ltac:(done) ltac:(done)).
  by vm_compute.
Defined.

(** ** Batching loses nothing *)

Lemma batch_updates_length {A : Type} (updates : list (Z * A)) :
  length (_batch_updates updates) = length updates.
Proof.
  apply Nat.le_antisymm.
  - apply Nat.nlt_ge. intros Hlt.
    destruct (lookup_lt_is_Some_2 (_batch_updates updates) (length updates))
      as [x Hx]; [lia|].
    rewrite batch_updates_lookup in Hx.
    by rewrite (proj2 (lookup_ge_None updates (length updates))) in Hx by lia.
  - apply Nat.nlt_ge. intros Hlt.
    destruct (lookup_lt_is_Some_2 updates (length (_batch_updates updates)))
      as [x Hx]; [lia|].
    pose proof (batch_updates_lookup updates (length (_batch_updates updates))) as Hb.
    rewrite Hx in Hb. simpl in Hb.
    by rewrite (proj2 (lookup_ge_None (_batch_updates updates) _)) in Hb by lia.
Qed.

(** X10. [_batch_updates] loses nothing: two lists of updates that are
    batched to the same list are the same list.  The tokens that were
    replaced by [None] can be found again from the tokens that follow. *)
Theorem batch_updates_injective (A : Type) (updates1 updates2 : list (Z * A)) :
  _batch_updates updates1 = _batch_updates updates2 ↔ updates1 = updates2.
Proof.
  split; [|by intros ->]. intros Heq.
  assert (Hlen : length updates1 = length updates2).
  { by rewrite <- !batch_updates_length, Heq. }
  assert (Hall : ∀ k i, (length updates1 = i + k)%nat →
                        updates1 !! i = updates2 !! i).
  { induction k as [|k IH]; intros i Hi.
    - rewrite !(proj2 (lookup_ge_None _ _)); [done|lia|lia].
    - pose proof (IH (S i) ltac:(lia)) as Hnext.
      pose proof (f_equal (λ l, l !! i) Heq) as Hi'. simpl in Hi'.
      rewrite !batch_updates_lookup, <- Hnext in Hi'.
      destruct (updates1 !! i) as [[t1 a1]|] eqn:H1;
        destruct (updates2 !! i) as [[t2 a2]|] eqn:H2; simpl in Hi'; try done.
      repeat case_bool_decide; simplify_eq; try done; congruence. }
  apply list_eq. intros i.
  destruct (decide (i ≤ length updates1)%nat) as [Hle|Hgt].
  - apply (Hall (length updates1 - i)%nat). lia.
  - rewrite !(proj2 (lookup_ge_None _ _)); [done|lia|lia].
Qed.

(** ** [get_updates] once it has caught up *)

(** X11. After a call of [get_updates] that returned, the stream has
    caught up with its [upto_token]: the token returned is [upto_token],
    [last_token] equals it, and a second call, before the next
    [advance_current_token], asks the update function for nothing,
    returns no rows and leaves the stream as it is. *)
Theorem get_updates_again_fetches_nothing
    (s : Stream) (update_function update_function' : fetch_call → result (list Row))
    (updates : updates_t) (token : Z) :
  (get_updates s update_function).2 = Return (updates, token) →
  let s' := (get_updates s update_function).1 in
  token = upto_token s
  ∧ last_token s' = upto_token s'
  ∧ get_updates_since_begin s' (TokLong (last_token s'))
    = GusDone (Return ([], upto_token s'))
  ∧ get_updates s' update_function' = (s', Return ([], upto_token s)).
Proof.
  unfold get_updates, get_updates_since.
  rewrite get_updates_since_begin_long.
  case_bool_decide as Hc; simpl.
  - intros [= <- <-]. rewrite <- Hc, set_last_token_same.
    rewrite get_updates_since_begin_long, bool_decide_eq_true_2 by done.
    simpl. by rewrite <- Hc, set_last_token_same.
  - destruct (get_updates_since_resume _ _ _) as [[u t]|e] eqn:Hr; [|done].
    apply resume_Return in Hr as [-> _]. simpl. intros [= <- <-].
    rewrite get_updates_since_begin_long. simpl.
    rewrite bool_decide_eq_true_2 by done. simpl.
    repeat split; try done.
Qed.

Lemma get_updates_again_fetches_nothing_witness :
  get_updates (get_updates fresh_stream (λ _, Return two_rows)).1
    (λ _, Return ten_thousand_rows)
  = ((get_updates fresh_stream (λ _, Return two_rows)).1, Return ([], 5)).
Proof.
  apply (get_updates_again_fetches_nothing fresh_stream (λ _, Return two_rows)
           (λ _, Return ten_thousand_rows)
           [(4, json_dumps [PyStr "$a"]); (5, json_dumps [PyStr "$b"])] 5).
  reflexivity.
Defined.

(** ** The list of connections *)

Lemma list_remove_None {A : Type} `{EqDecision A} (x : A) (l : list A) :
  list_remove x l = None ↔ x ∉ l.
Proof.
  induction l as [|y l IH]; simpl.
  - split; [intros _; apply not_elem_of_nil|done].
  - rewrite not_elem_of_cons. destruct (decide (y = x)) as [->|Hne].
    + split; [done|]. intros [? _]. done.
    + destruct (list_remove x l) as [l'|].
      * split; [done|]. intros [_ Hx]. by apply IH in Hx.
      * split; [|done]. intros _. split; [done|]. by apply IH.
Qed.

Lemma list_remove_app {A : Type} `{EqDecision A} (x : A) (l : list A) :
  x ∉ l → list_remove x (l ++ [x]) = Some l.
Proof.
  induction l as [|y l IH]; simpl; intros Hx.
  - by rewrite decide_True.
  - apply not_elem_of_cons in Hx as [Hne Hx].
    rewrite decide_False by done. by rewrite IH.
Qed.

Lemma filter_others {A : Type} `{EqDecision A} (x : A) (l : list A) :
  x ∉ l → filter (λ y, y ≠ x) l = l.
Proof.
  induction l as [|y l IH]; [done|]. intros Hx.
  apply not_elem_of_cons in Hx as [Hne Hx].
  rewrite filter_cons, decide_True by done. by rewrite IH.
Qed.

Lemma list_remove_NoDup {A : Type} `{EqDecision A} (x : A) (l l' : list A) :
  NoDup l → list_remove x l = Some l' → l' = filter (λ y, y ≠ x) l.
Proof.
  intros Hnd. revert l'. induction Hnd as [|y l Hy Hnd IH]; intros l'; [done|].
  simpl. rewrite filter_cons. destruct (decide (y = x)) as [->|Hne].
  - intros [= <-]. rewrite decide_False by (intros H'; by apply H').
    by rewrite filter_others.
  - rewrite decide_True by done.
    destruct (list_remove x l) as [l''|]; [|done]. intros [= <-].
    f_equal. by apply IH.
Qed.

(** X12. A connection that registers with the streamer and is lost
    again leaves the list of connections as it was before, when it was
    not in the list already; and losing a connection that is not in the
    list raises nothing and changes nothing, in
    [ReplicationStreamProtocol.connectionLost] of tcp_resource.py and in
    [ReplicationStreamer.lost_connection] of tcp/resource.py, which
    tells the presence handler all the same. *)
Theorem connection_comes_and_goes {A I : Type} `{EqDecision A}
    (conn_id : A → I) (connection : A) (connections : list A) :
  connection ∉ connections →
  connectionLost connection (new_connection connection connections) = connections
  ∧ connectionLost connection connections = connections
  ∧ lost_connection conn_id connection (new_connection connection connections)
    = (connections, conn_id connection)
  ∧ lost_connection conn_id connection connections
    = (connections, conn_id connection).
Proof.
  intros Hx. unfold connectionLost, lost_connection, new_connection.
  rewrite list_remove_app by done.
  by rewrite (proj2 (list_remove_None connection connections) Hx).
Qed.

Lemma connection_comes_and_goes_witness :
  connectionLost 3%nat (new_connection 3%nat [1; 2]%nat) = [1; 2]%nat.
Proof.
  apply (connection_comes_and_goes (λ n : nat, n) 3%nat [1; 2]%nat).
  apply (bool_decide_unpack (3%nat ∉ [1; 2]%nat)). by vm_compute.
Defined.

(** X13. When no connection is twice in the list, losing a connection
    removes it and nothing else: the connections that are left are the
    others, in the order they had. *)
Theorem lost_connection_removes_it_alone {A I : Type} `{EqDecision A}
    (conn_id : A → I) (connection : A) (connections : list A) :
  NoDup connections →
  connectionLost connection connections = filter (λ c, c ≠ connection) connections
  ∧ (lost_connection conn_id connection connections).1
    = filter (λ c, c ≠ connection) connections
  ∧ (connection ∉ connectionLost connection connections).
Proof.
  intros Hnd.
  assert (Hl : connectionLost connection connections
               = filter (λ c, c ≠ connection) connections).
  { unfold connectionLost.
    destruct (list_remove connection connections) as [l'|] eqn:Hr.
    - by apply list_remove_NoDup.
    - apply list_remove_None in Hr. by rewrite filter_others. }
  split; [done|]. split; [exact Hl|].
  rewrite Hl. rewrite list_elem_of_filter. tauto.
Qed.

Lemma lost_connection_removes_it_alone_witness :
  connectionLost 2%nat [1; 2; 3]%nat = [1; 3]%nat.
Proof.
  refine (eq_trans (proj1 (lost_connection_removes_it_alone
                             (λ n : nat, n) 2%nat [1; 2; 3]%nat _)) eq_refl).
  apply (bool_decide_unpack (NoDup [1; 2; 3]%nat)). by vm_compute.
Defined.

(** ** Looking up a stream *)

(** X14. [get_stream_updates] raises exactly when no stream of the
    streamer has the name asked for, and the exception is the
    unknown-stream one; otherwise it starts [get_updates_since] on a
    stream of the streamer that has that name. *)
Theorem get_stream_updates_finds_the_stream
    (streams : list Stream) (stream_name : string) (token : pytoken) :
  match get_stream_updates streams stream_name token with
  | Raise e =>
      e = Exception ["unknown stream %s"; stream_name]
      ∧ Forall (λ s, NAME s ≠ stream_name) streams
  | Return (name, st) =>
      name = stream_name
      ∧ ∃ s, s ∈ streams ∧ NAME s = stream_name
             ∧ st = get_updates_since_begin s token
  end.
Proof.
  unfold get_stream_updates, streams_by_name.
  destruct (last (filter (λ s, NAME s = stream_name) streams)) as [s|] eqn:Hl.
  - apply last_Some_elem_of in Hl. apply list_elem_of_filter in Hl as [Hn Hs].
    split; [done|]. by exists s.
  - split; [done|]. apply last_None in Hl.
    apply Forall_forall. intros s Hs Hn.
    assert (s ∈ filter (λ s, NAME s = stream_name) streams) as Hin
      by by apply list_elem_of_filter.
    rewrite Hl in Hin. by apply elem_of_nil in Hin.
Qed.

(** ** Pinging *)

(** X15. [send_ping] never raises: every connection of the streamer is
    sent one [PING] line with the time, after what it was sent before,
    and nothing else about it changes. *)
Theorem send_ping_reaches_every_connection
    (time_msec : Z) (connections : list ReplicationStreamProtocol) :
  send_ping time_msec connections =
    (Return (),
     with_sent (λ ls, ls ++ [Line Cmd.PING [VLong time_msec]]) <$> connections).
Proof.
  induction connections as [|c cs IH]; [done|]. cbn [send_ping].
  rewrite send_command_valid by apply PING_valid. by rewrite IH.
Qed.

(** ** Passes of the poke loop catch up *)

Section progress_facts_generic.
Context {Conn : Type}.
Implicit Types w : Streamer Conn.

Lemma progress_inv_init (ss : list Stream) :
  progress_inv (Streamer_init (Conn:=Conn) ss).
Proof.
  split; simpl; try done. intros f Hf. by apply elem_of_nil in Hf.
Qed.

Lemma lookup_alter_current (l : list Stream) (i j : nat) (token : Z) :
  alter (λ s, set_current_token s token) i l !! j
  = (if decide (i = j) then (λ s, set_current_token s token) else id) <$> l !! j.
Proof.
  destruct (decide (i = j)) as [->|Hne].
  - apply list_lookup_alter_eq.
  - rewrite list_lookup_alter_ne by done. by destruct (l !! j).
Qed.

Lemma alter_current_caught_up (l : list Stream) (i j : nat) (token : Z)
    (s' : Stream) :
  alter (λ s, set_current_token s token) i l !! j = Some s' →
  ∃ s, l !! j = Some s ∧ last_token s' = last_token s
       ∧ upto_token s' = upto_token s.
Proof.
  rewrite lookup_alter_current. destruct (l !! j) as [s|]; [|done].
  simpl. intros [= <-]. exists s. by destruct (decide (i = j)).
Qed.

Lemma world_step_progress w (ev : event Conn) :
  match ev with Wake | FetchDone _ _ => False | _ => True end →
  progress_inv w → progress_inv (world_step w ev).
Proof.
  intros Hev [Hr Hf Hl He].
  destruct ev as [|k fetched|conn|i|i conn|i token]; try done;
    try (split; done).
  split; try done; simpl.
  - intros f Hin. destruct (Hf f Hin) as (s & Hs & Hc & Hne & Hlast & Hb).
    rewrite lookup_alter_current, Hs. simpl.
    eexists. split; [done|].
    split; [by destruct (decide (i = f_index f))|].
    split; [by destruct (decide (i = f_index f))|].
    split; [rewrite Hlast; by destruct (decide (i = f_index f))|].
    intros j s' Hj Hs'. apply alter_current_caught_up in Hs' as (s0 & Hs0 & Hl0 & Hu0).
    unfold caught_up. rewrite Hl0, Hu0. by apply (Hb j).
  - intros Hlast. apply Forall_lookup. intros j s' Hs'.
    apply alter_current_caught_up in Hs' as (s0 & Hs0 & Hl0 & Hu0).
    unfold caught_up. rewrite Hl0, Hu0.
    by apply (proj1 (Forall_lookup _ _) (He Hlast) j).
Qed.

Lemma progress_inv_ended w (l : list effect) :
  Forall caught_up (streams w) → suspended w = [] →
  progress_inv (finally (logged (l ++ [PassEnd]) w)).
Proof.
  intros Hall Hs. split; simpl; try done.
  intros f Hf. rewrite Hs in Hf. by apply elem_of_nil in Hf.
Qed.

Lemma progress_inv_suspended w (l : list effect) (f : frame) (s : Stream) :
  is_looping w = true → suspended w = [] →
  streams w !! f_index f = Some s →
  f_current_token f = upto_token s →
  last_token s ≠ upto_token s →
  caught_up_below (f_index f) w →
  progress_inv (with_suspended (λ fs, fs ++ [f]) (logged (l ++ [fetch_of s]) w)).
Proof.
  intros Hloop Hs Hf Hc Hne Hb. split; simpl.
  - rewrite Hloop, Hs. by eexists.
  - rewrite Hs. intros f' Hf'. apply list_elem_of_singleton in Hf' as ->.
    exists s. by rewrite !app_assoc, last_snoc.
  - intros _. eexists _, _. by rewrite !app_assoc, last_snoc.
  - by rewrite !app_assoc, last_snoc.
Qed.

Lemma progress_inv_raised w (e : exn) :
  suspended w = [] → progress_inv (propagate e w).
Proof.
  intros Hs. split; simpl; try done.
  - intros f Hf. rewrite Hs in Hf. by apply elem_of_nil in Hf.
  - by rewrite last_snoc.
Qed.
End progress_facts_generic.

Section tcp_resource_progress.
Context {Conn : Type} `{!Connection Conn}.
Implicit Types w : Streamer Conn.
Import TcpResource.

Lemma tr_for_streams_progress (n i : nat) w :
  (∃ l, for_streams n i w = Ended (logged l w)
        ∧ ∀ j s, (i ≤ j < i + n)%nat → streams w !! j = Some s → caught_up s)
  ∨ (∃ l f s,
       for_streams n i w
       = Suspended (with_suspended (λ fs, fs ++ [f])
                      (logged (l ++ [fetch_of s]) w))
       ∧ (i ≤ f_index f)%nat
       ∧ streams w !! f_index f = Some s
       ∧ f_current_token f = upto_token s
       ∧ last_token s ≠ upto_token s
       ∧ ∀ j s', (i ≤ j < f_index f)%nat → streams w !! j = Some s' → caught_up s').
Proof.
  revert i w. induction n as [|n IH]; intros i w; simpl.
  { left. exists []. rewrite logged_nil. split; [done|]. intros; lia. }
  destruct (streams w !! i) as [s|] eqn:Hs.
  2: { left. exists []. rewrite logged_nil. split; [done|].
       intros j s Hj Hjs. apply lookup_ge_None in Hs.
       apply lookup_lt_Some in Hjs. lia. }
  rewrite get_updates_since_begin_long. case_bool_decide as Heq.
  - unfold got_updates. simpl. rewrite Hs. simpl.
    rewrite <- Heq, set_last_token_same.
    rewrite insert_same_stream by done.
    destruct (IH (S i) (logged [GetUpdates (NAME s)] w))
      as [(l & Hend & Hall)|(l & f & s' & Hsus & Hi & Hf & Hc & Hgap & Hall)].
    + left. exists (GetUpdates (NAME s) :: l). rewrite Hend, logged_logged.
      split; [done|]. intros j s' Hj Hjs.
      destruct (decide (j = i)) as [->|Hne].
      * rewrite Hs in Hjs. by injection Hjs as <-.
      * apply (Hall j); [lia|done].
    + right. exists (GetUpdates (NAME s) :: l), f, s'.
      rewrite Hsus, logged_logged. repeat split; try done; [lia|].
      intros j s'' Hj Hjs.
      destruct (decide (j = i)) as [->|Hne].
      * rewrite Hs in Hjs. by injection Hjs as <-.
      * apply (Hall j); [lia|done].
  - right.
    exists [GetUpdates (NAME s)],
           {| f_index := i; f_current_token := upto_token s |}, s.
    rewrite logged_logged. repeat split; try done. simpl. intros; lia.
Qed.

Lemma tr_pass_progress w :
  is_looping w = true → suspended w = [] → caught_up_below 0 w →
  ∃ w', while_True 2 w = Some w' ∧ progress_inv w'.
Proof.
  intros Hloop Hs _. cbn [while_True]. fold (begin_pass w).
  unfold for_streams_from.
  destruct (tr_for_streams_progress (length (streams (begin_pass w)) - 0) 0
              (begin_pass w))
    as [(l & -> & Hall)|(l & f & s & -> & _ & Hf & Hc & Hne & Hall)];
    cbn [after_for].
  - unfold break_unless_pending. simpl pending_updates. cbv iota.
    eexists. split; [done|]. rewrite logged_logged.
    apply progress_inv_ended; [|done].
    apply Forall_lookup. intros j s Hjs. apply (Hall j s); [|done].
    apply lookup_lt_Some in Hjs. lia.
  - eexists. split; [done|].
    apply (progress_inv_suspended _ _ _ s); try done.
    intros j s' Hj. apply Hall. lia.
Qed.

Lemma tr_step_progress w (ev : event Conn) :
  progress_inv w → progress_inv (step w ev).
Proof.
  intros Hinv.
  destruct ev as [|k fetched| | | |]; try by apply world_step_progress.
  - (* Wake *)
    unfold step, on_notifier_poke, fuel.
    destruct (is_looping w) eqn:Hloop.
    { destruct Hinv as [Hr Hf Hl He]. split; simpl; try done; by rewrite Hloop. }
    pose proof (pi_ready w Hinv) as Hr. rewrite Hloop in Hr.
    destruct (tr_pass_progress (with_is_looping true (with_pending_updates false w)))
      as (w' & -> & Hw'); try done. intros j s Hj. lia.
  - (* FetchDone *)
    unfold step, fuel.
    pose proof (pi_ready w Hinv) as Hr.
    destruct (is_looping w) eqn:Hloop.
    2: { by rewrite Hr. }
    destruct Hr as (f & Hf). rewrite Hf.
    destruct k as [|k]; [simpl|done].
    destruct (pi_frame w Hinv f) as (s & Hs & Hc & Hgap & Hlast & Hb);
      [rewrite Hf; by apply list_elem_of_singleton|].
    assert (Hw0 : with_suspended (delete 0%nat) w = with_suspended (λ _, []) w).
    { unfold with_suspended. by rewrite Hf. }
    rewrite Hw0. set (w0 := with_suspended (λ _, []) w).
    unfold resume. change (streams w0) with (streams w). rewrite Hs.
    unfold got_updates. change (streams w0) with (streams w). rewrite Hs.
    destruct (get_updates_since_resume (NAME s) (f_current_token f) fetched)
      as [[updates cur]|e] eqn:Hres; cbn -[while_True for_streams_from send_updates].
    + assert (cur = f_current_token f) as -> by by eapply resume_Return.
      set (w1 := with_streams
                   (<[f_index f := set_last_token s (f_current_token f)]>) w0).
      set (w2 := send_updates (NAME s) updates w1).
      destruct (tr_send_updates_delivered (NAME s) updates w1)
        as (conns & l0 & _ & _ & Hw2). fold w2 in Hw2.
      assert (Hst : streams w2
                    = <[f_index f := set_last_token s (f_current_token f)]>
                        (streams w)) by by rewrite Hw2.
      assert (Hsus : suspended w2 = []) by by rewrite Hw2.
      assert (Hlp : is_looping w2 = true) by by rewrite Hw2.
      assert (Hbelow : caught_up_below (S (f_index f)) w2).
      { intros j s' Hj. rewrite Hst. intros Hjs.
        apply list_lookup_insert_Some in Hjs as [(<- & <- & _)|[Hne Hjs]].
        - unfold caught_up. simpl. done.
        - apply (Hb j); [lia|done]. }
      unfold for_streams_from.
      destruct (tr_for_streams_progress (length (streams w2) - S (f_index f))
                  (S (f_index f)) w2)
        as [(l & -> & Hall)|(l & f' & s' & -> & Hi & Hs' & Hc' & Hne' & Hall)];
        cbn [after_for].
      * assert (Hcaught : Forall caught_up (streams w2)).
        { apply Forall_lookup. intros j s' Hjs.
          destruct (decide (j < S (f_index f))%nat) as [Hlt|Hge].
          - by apply (Hbelow j).
          - apply (Hall j); [|done]. apply lookup_lt_Some in Hjs. lia. }
        unfold break_unless_pending.
        destruct (pending_updates (logged [PassEnd] (logged l w2))).
        -- destruct (tr_pass_progress (logged [PassEnd] (logged l w2)))
             as (w' & -> & Hw'); try done. intros j s' Hj. lia.
        -- simpl. rewrite logged_logged. by apply progress_inv_ended.
      * simpl. apply (progress_inv_suspended _ _ _ s'); try done.
        intros j s'' Hj Hjs.
        destruct (decide (j < S (f_index f))%nat) as [Hlt|Hge].
        -- by apply (Hbelow j).
        -- apply (Hall j); [lia|done].
    + rewrite insert_same_stream by done. simpl.
      by apply progress_inv_raised.
Qed.

Lemma tr_run_progress (evs : list (event Conn)) w :
  progress_inv w → progress_inv (run w evs).
Proof.
  revert w. induction evs as [|ev evs IH]; intros w Hinv; [done|].
  simpl. by apply IH, tr_step_progress.
Qed.

(** X16. In tcp_resource.py, when the last thing the poke loop did was
    to end a pass, every stream has caught up: its [last_token] equals
    its [upto_token], so the pass has fetched, and handed to the
    connections, the rows of every stream up to the position it read
    when it began.  This holds however the pokes, the fetches coming
    back, new data and connections coming and going are interleaved. *)
Theorem completed_pass_has_caught_up (ss : list Stream) (evs : list (event Conn)) :
  let w := run (Streamer_init ss) evs in
  last (log w) = Some PassEnd →
  Forall (λ s, last_token s = upto_token s) (streams w).
Proof.
  intros w Hlast. apply (pi_ended w); [|done].
  apply tr_run_progress, progress_inv_init.
Qed.
End tcp_resource_progress.

Lemma completed_pass_has_caught_up_witness :
  (λ s, (NAME s, last_token s, upto_token s))
    <$> streams (TcpResource.run (Streamer_init example_streams) two_pass_events)
  = [("events", 7, 7); ("backfill", 2, 2)]
  ∧ Forall (λ s, last_token s = upto_token s)
      (streams (TcpResource.run (Streamer_init example_streams) two_pass_events)).
Proof.
  split; [by vm_compute|].
  apply (completed_pass_has_caught_up example_streams two_pass_events).
  by vm_compute.
Defined.

Section tcp_progress.
Context {Conn : Type} `{!Connection Conn}.
Implicit Types w : Streamer Conn.
Import Tcp.

Lemma tcp_for_streams_progress (n i : nat) w :
  (∃ l, for_streams n i w = Ended (logged l w)
        ∧ ∀ j s, (i ≤ j < i + n)%nat → streams w !! j = Some s → caught_up s)
  ∨ (∃ l f s,
       for_streams n i w
       = Suspended (with_suspended (λ fs, fs ++ [f])
                      (logged (l ++ [fetch_of s]) w))
       ∧ (i ≤ f_index f)%nat
       ∧ streams w !! f_index f = Some s
       ∧ f_current_token f = upto_token s
       ∧ last_token s ≠ upto_token s
       ∧ ∀ j s', (i ≤ j < f_index f)%nat → streams w !! j = Some s' → caught_up s').
Proof.
  revert i w. induction n as [|n IH]; intros i w; simpl.
  { left. exists []. rewrite logged_nil. split; [done|]. intros; lia. }
  destruct (streams w !! i) as [s|] eqn:Hs.
  2: { left. exists []. rewrite logged_nil. split; [done|].
       intros j s Hj Hjs. apply lookup_ge_None in Hs.
       apply lookup_lt_Some in Hjs. lia. }
  case_bool_decide as Heq.
  - destruct (IH (S i) w)
      as [(l & Hend & Hall)|(l & f & s' & Hsus & Hi & Hf & Hc & Hgap & Hall)].
    + left. exists l. split; [done|]. intros j s' Hj Hjs.
      destruct (decide (j = i)) as [->|Hne].
      * rewrite Hs in Hjs. by injection Hjs as <-.
      * apply (Hall j); [lia|done].
    + right. exists l, f, s'. repeat split; try done; [lia|].
      intros j s'' Hj Hjs.
      destruct (decide (j = i)) as [->|Hne].
      * rewrite Hs in Hjs. by injection Hjs as <-.
      * apply (Hall j); [lia|done].
  - rewrite get_updates_since_begin_long, bool_decide_eq_false_2 by done.
    right.
    exists [GetUpdates (NAME s)],
           {| f_index := i; f_current_token := upto_token s |}, s.
    rewrite logged_logged. repeat split; try done. simpl. intros; lia.
Qed.

Lemma tcp_pass_progress w :
  is_looping w = true → suspended w = [] → pending_updates w = true →
  ∃ w', while_pending 2 w = Some w' ∧ progress_inv w'.
Proof.
  intros Hloop Hs Hp. cbn [while_pending]. rewrite Hp.
  change (advance_all (logged [PassBegin] (with_pending_updates false w)))
    with (begin_pass w).
  unfold for_streams_from.
  destruct (tcp_for_streams_progress (length (streams (begin_pass w)) - 0) 0
              (begin_pass w))
    as [(l & -> & Hall)|(l & f & s & -> & _ & Hf & Hc & Hne & Hall)];
    cbn [after_for].
  - change (pending_updates (logged [PassEnd] (logged l (begin_pass w))))
      with false. cbn iota.
    eexists. split; [done|]. rewrite logged_logged.
    apply progress_inv_ended; [|done].
    apply Forall_lookup. intros j s Hjs. apply (Hall j s); [|done].
    apply lookup_lt_Some in Hjs. lia.
  - eexists. split; [done|].
    apply (progress_inv_suspended _ _ _ s); try done.
    intros j s' Hj. apply Hall. lia.
Qed.

Lemma tcp_step_progress w (ev : event Conn) :
  progress_inv w → progress_inv (step w ev).
Proof.
  intros Hinv.
  destruct ev as [|k fetched| | | |]; try by apply world_step_progress.
  - (* Wake *)
    unfold step, on_notifier_poke, fuel.
    destruct (connections w) as [|c cs] eqn:Hconns; [done|].
    destruct (is_looping w) eqn:Hloop.
    { destruct Hinv as [Hr Hf Hl He]. split; simpl; try done; by rewrite Hloop. }
    pose proof (pi_ready w Hinv) as Hr. rewrite Hloop in Hr.
    by destruct (tcp_pass_progress (with_is_looping true (with_pending_updates true w)))
      as (w' & -> & Hw').
  - (* FetchDone *)
    unfold step, fuel.
    pose proof (pi_ready w Hinv) as Hr.
    destruct (is_looping w) eqn:Hloop.
    2: { by rewrite Hr. }
    destruct Hr as (f & Hf). rewrite Hf.
    destruct k as [|k]; [simpl|done].
    destruct (pi_frame w Hinv f) as (s & Hs & Hc & Hgap & Hlast & Hb);
      [rewrite Hf; by apply list_elem_of_singleton|].
    assert (Hw0 : with_suspended (delete 0%nat) w = with_suspended (λ _, []) w).
    { unfold with_suspended. by rewrite Hf. }
    rewrite Hw0. set (w0 := with_suspended (λ _, []) w).
    unfold resume. change (streams w0) with (streams w). rewrite Hs.
    unfold got_updates. change (streams w0) with (streams w). rewrite Hs.
    destruct (get_updates_since_resume (NAME s) (f_current_token f) fetched)
      as [[updates cur]|e] eqn:Hres;
      cbn -[while_pending for_streams_from send_updates].
    + assert (cur = f_current_token f) as -> by by eapply resume_Return.
      set (w1 := with_streams
                   (<[f_index f := set_last_token s (f_current_token f)]>) w0).
      set (w2 := send_updates (NAME s) (_batch_updates updates) w1).
      destruct (tcp_send_updates_delivered (NAME s) (_batch_updates updates) w1)
        as (conns & l0 & _ & _ & Hw2). fold w2 in Hw2.
      assert (Hst : streams w2
                    = <[f_index f := set_last_token s (f_current_token f)]>
                        (streams w)) by by rewrite Hw2.
      assert (Hsus : suspended w2 = []) by by rewrite Hw2.
      assert (Hlp : is_looping w2 = true) by by rewrite Hw2.
      assert (Hbelow : caught_up_below (S (f_index f)) w2).
      { intros j s' Hj. rewrite Hst. intros Hjs.
        apply list_lookup_insert_Some in Hjs as [(<- & <- & _)|[Hne Hjs]].
        - unfold caught_up. simpl. done.
        - apply (Hb j); [lia|done]. }
      unfold for_streams_from.
      destruct (tcp_for_streams_progress (length (streams w2) - S (f_index f))
                  (S (f_index f)) w2)
        as [(l & -> & Hall)|(l & f' & s' & -> & Hi & Hs' & Hc' & Hne' & Hall)];
        cbn [after_for].
      * assert (Hcaught : Forall caught_up (streams w2)).
        { apply Forall_lookup. intros j s' Hjs.
          destruct (decide (j < S (f_index f))%nat) as [Hlt|Hge].
          - by apply (Hbelow j).
          - apply (Hall j); [|done]. apply lookup_lt_Some in Hjs. lia. }
        destruct (pending_updates (logged [PassEnd] (logged l w2))) eqn:Hpen.
        -- by destruct (tcp_pass_progress (logged [PassEnd] (logged l w2)))
             as (w' & -> & Hw').
        -- cbn [while_pending]. rewrite Hpen. simpl. rewrite logged_logged.
           by apply progress_inv_ended.
      * simpl. apply (progress_inv_suspended _ _ _ s'); try done.
        intros j s'' Hj Hjs.
        destruct (decide (j < S (f_index f))%nat) as [Hlt|Hge].
        -- by apply (Hbelow j).
        -- apply (Hall j); [lia|done].
    + rewrite insert_same_stream by done. simpl.
      by apply progress_inv_raised.
Qed.

Lemma tcp_run_progress (evs : list (event Conn)) w :
  progress_inv w → progress_inv (run w evs).
Proof.
  revert w. induction evs as [|ev evs IH]; intros w Hinv; [done|].
  simpl. by apply IH, tcp_step_progress.
Qed.

(** X17. The same holds of the poke loop of tcp/resource.py, which
    skips the streams that have nothing new and does nothing while
    there is no connection: when the last thing it did was to end a
    pass, the [last_token] of every stream equals its [upto_token]. *)
Theorem tcp_completed_pass_has_caught_up
    (ss : list Stream) (evs : list (event Conn)) :
  let w := run (Streamer_init ss) evs in
  last (log w) = Some PassEnd →
  Forall (λ s, last_token s = upto_token s) (streams w).
Proof.
  intros w Hlast. apply (pi_ended w); [|done].
  apply tcp_run_progress, progress_inv_init.
Qed.
End tcp_progress.

Lemma tcp_completed_pass_has_caught_up_witness :
  (λ s, (NAME s, last_token s, upto_token s))
    <$> streams (Tcp.run (Streamer_init example_streams) two_pass_events)
  = [("events", 7, 7); ("backfill", 2, 2)]
  ∧ Forall (λ s, last_token s = upto_token s)
      (streams (Tcp.run (Streamer_init example_streams) two_pass_events)).
Proof.
  split; [by vm_compute|].
  apply (tcp_completed_pass_has_caught_up example_streams two_pass_events).
  by vm_compute.
Defined.

(** ** A poke when nothing is new *)

Section idle_facts.
Context {Conn : Type} `{!Connection Conn}.
Implicit Types w : Streamer Conn.

Lemma tr_for_streams_idle (n i : nat) w :
  Forall caught_up (streams w) →
  TcpResource.for_streams n i w
  = Ended (logged (GetUpdates ∘ NAME <$> take n (drop i (streams w))) w).
Proof.
  intros Hall. revert i w Hall. induction n as [|n IH]; intros i w Hall; simpl.
  { by rewrite logged_nil. }
  destruct (streams w !! i) as [s|] eqn:Hs.
  2: { apply lookup_ge_None in Hs. rewrite drop_ge by done.
       by rewrite logged_nil. }
  rewrite (drop_S _ _ _ Hs). simpl.
  pose proof (proj1 (Forall_lookup _ _) Hall i s Hs) as Hc. unfold caught_up in Hc.
  rewrite get_updates_since_begin_long, bool_decide_eq_true_2 by done.
  unfold TcpResource.got_updates. simpl. rewrite Hs. simpl.
  rewrite <- Hc, set_last_token_same.
  rewrite insert_same_stream by done. simpl.
  rewrite IH by done. by rewrite logged_logged.
Qed.

Lemma tcp_for_streams_idle (n i : nat) w :
  Forall caught_up (streams w) → Tcp.for_streams n i w = Ended w.
Proof.
  intros Hall. revert i. induction n as [|n IH]; intros i; simpl; [done|].
  destruct (streams w !! i) as [s|] eqn:Hs; [|done].
  pose proof (proj1 (Forall_lookup _ _) Hall i s Hs) as Hc. unfold caught_up in Hc.
  by rewrite bool_decide_eq_true_2.
Qed.

Lemma advance_all_caught_up w :
  Forall (λ s, last_token s = current_token s) (streams w) →
  Forall caught_up (streams (begin_pass w)).
Proof.
  intros Hall. simpl. apply Forall_fmap. eapply Forall_impl; [done|].
  by intros s Hs.
Qed.

(** X18. In tcp_resource.py, a poke that finds the loop idle and every
    stream where the data store is (its [last_token] is the current
    position) runs one pass and stops: each stream is advanced and
    [get_updates] is called on each, but the update function is never
    called, no connection is called, no generator stays suspended, and
    both flags are off at the end. *)
Theorem idle_poke_fetches_nothing w :
  is_looping w = false →
  Forall (λ s, last_token s = current_token s) (streams w) →
  TcpResource.step w Wake
  = finally
      (logged ([PassBegin] ++ (Advance ∘ NAME <$> streams w)
               ++ (GetUpdates ∘ NAME <$> streams w) ++ [PassEnd])
         (with_streams (fmap advance_current_token) w)).
Proof.
  intros Hloop Hall.
  unfold TcpResource.step, TcpResource.on_notifier_poke, TcpResource.fuel.
  rewrite Hloop. cbn [TcpResource.while_True].
  set (w1 := with_is_looping true (with_pending_updates false w)).
  fold (begin_pass w1). unfold TcpResource.for_streams_from.
  rewrite tr_for_streams_idle by by apply advance_all_caught_up.
  rewrite Nat.sub_0_r, drop_0, firstn_all. cbn [after_for].
  unfold TcpResource.break_unless_pending. simpl.
  unfold finally, with_is_looping, with_pending_updates, logged, with_streams.
  simpl. f_equal. rewrite <- !app_assoc. simpl.
  rewrite <- !list_fmap_compose. done.
Qed.

(** X19. In tcp/resource.py, a poke that finds the loop idle, a
    connection, and every stream where the data store is runs one pass
    and stops: each stream is advanced, and [get_updates] is called on
    none: nothing is fetched, no connection is called, and both flags
    are off at the end. *)
Theorem tcp_idle_poke_skips_every_stream w :
  connections w ≠ [] →
  is_looping w = false →
  Forall (λ s, last_token s = current_token s) (streams w) →
  Tcp.step w Wake
  = finally
      (logged ([PassBegin] ++ (Advance ∘ NAME <$> streams w) ++ [PassEnd])
         (with_streams (fmap advance_current_token) w)).
Proof.
  intros Hconns Hloop Hall.
  unfold Tcp.step, Tcp.on_notifier_poke, Tcp.fuel.
  destruct (connections w) as [|c cs] eqn:Hc; [done|].
  rewrite Hloop. cbn [Tcp.while_pending]. simpl pending_updates. cbv iota.
  set (w1 := with_is_looping true (with_pending_updates true w)).
  change (advance_all (logged [PassBegin] (with_pending_updates false w1)))
    with (begin_pass w1).
  unfold Tcp.for_streams_from.
  rewrite tcp_for_streams_idle by by apply advance_all_caught_up.
  cbn [after_for]. simpl.
  unfold finally, with_is_looping, with_pending_updates, logged, with_streams.
  simpl. rewrite Hc. f_equal. by rewrite <- !app_assoc.
Qed.
End idle_facts.

Lemma idle_poke_fetches_nothing_witness :
  log (TcpResource.step
         (Streamer_init (Conn:=test_connection) example_streams) Wake)
  = [PassBegin; Advance "events"; Advance "backfill";
     GetUpdates "events"; GetUpdates "backfill"; PassEnd].
Proof.
  rewrite (idle_poke_fetches_nothing
             (Streamer_init (Conn:=test_connection) example_streams) eq_refl).
  - reflexivity.
  - by repeat constructor.
Defined.

Lemma tcp_idle_poke_skips_every_stream_witness :
  log (Tcp.step
         (with_connections (λ _, [healthy_connection])
            (Streamer_init example_streams)) Wake)
  = [PassBegin; Advance "events"; Advance "backfill"; PassEnd].
Proof.
  rewrite (tcp_idle_poke_skips_every_stream
             (with_connections (λ _, [healthy_connection])
                (Streamer_init example_streams)) ltac:(done) eq_refl).
  - reflexivity.
  - by repeat constructor.
Defined.

(** ** The poke loop and the connections of tcp_resource.py *)

Lemma protocol_try_stream_update (name : string) (token : option Z)
    (row : json_text) (conn : ReplicationStreamProtocol) :
  try_stream_update name token row conn
  = ((stream_update name token row conn).2, []).
Proof.
  unfold try_stream_update, conn_stream_update, Protocol_Connection.
  by rewrite stream_update_spec.
Qed.

Lemma protocol_send_update (name : string) (update : Z * json_text)
    (w : Streamer ReplicationStreamProtocol) :
  TcpResource.send_update name update w
  = with_connections
      (fmap (λ c, (stream_update name (Some update.1) update.2 c).2)) w.
Proof.
  unfold TcpResource.send_update.
  assert (Hl : concat (snd <$> (try_stream_update name (Some update.1) update.2
                                <$> connections w)) = []).
  { induction (connections w) as [|c cs IH]; [done|].
    rewrite !fmap_cons, protocol_try_stream_update. simpl. exact IH. }
  cbv zeta. rewrite Hl, logged_nil.
  unfold with_connections. f_equal.
  rewrite <- list_fmap_compose. apply list_fmap_ext. intros i c _. simpl.
  by rewrite protocol_try_stream_update.
Qed.

(** X20. In tcp_resource.py, where the connections are
    [ReplicationStreamProtocol] objects, handing the updates of a stream
    to the connections never fails: nothing is logged, and every
    connection is as after the calls [stream_update(name, token, row)]
    for the updates in their order, with the tokens of the rows, and no
    other call.  The streams and the flags of the streamer are left as
    they are. *)
Theorem send_updates_reaches_every_connection
    (name : string) (updates : updates_t) (w : Streamer ReplicationStreamProtocol) :
  TcpResource.send_updates name updates w
  = with_connections
      (fmap (deliveries
               ((λ u, {| d_stream := name; d_token := Some u.1; d_data := u.2 |})
                <$> updates))) w.
Proof.
  unfold TcpResource.send_updates. revert w.
  induction updates as [|u updates IH]; intros w; simpl.
  - unfold with_connections, deliveries. simpl. rewrite list_fmap_id. by destruct w.
  - rewrite IH, protocol_send_update. unfold with_connections. simpl.
    f_equal. by rewrite <- list_fmap_compose.
Qed.

(** ** Lines that are well formed *)

Lemma strip_not_blank (ch : ascii) (s : string) :
  is_space ch = false → strip (String ch s) ≠ "".
Proof.
  intros Hch. unfold strip. simpl. rewrite Hch. simpl.
  destruct (rstrip s); [by rewrite Hch|done].
Qed.

Lemma split_1_join (a b : string) :
  split_1 a = [a] → split_1 (a +:+ " " +:+ b) = [a; b].
Proof.
  induction a as [|ch a IH]; [done|]. simpl.
  destruct (Ascii.eqb ch " ") eqn:Hch; [done|].
  intros Ha. rewrite IH; [done|].
  destruct (split_1_cases a) as [H|(x & y & H)]; [done|].
  rewrite H in Ha. simplify_eq.
Qed.

(** X21. A line made of a client command, a space and the rest is
    handed to the handler of the command with the rest, which may hold
    further spaces.  [NAME] sets the name to the rest; [PING] records
    the time of the clock; [REPLICATE] runs [on_REPLICATE] on the rest;
    none of these three raises.  [USER_SYNC state user_id], for a state
    without a space, sends an [ERROR] line and closes the connection
    when the state is neither [start] nor [end]; when it is one of
    them, the call of [on_user_sync], which the streamer of
    tcp_resource.py does not have, raises [AttributeError] and the
    connection is as it was. *)
Theorem lineReceived_dispatches
    (streams : list Stream) (time_msec : Z) (rest : string)
    (c : ReplicationStreamProtocol) :
  lineReceived streams time_msec ("NAME " +:+ rest) c
  = (Return Nothing, with_name (Some rest) c)
  ∧ lineReceived streams time_msec ("PING " +:+ rest) c
    = (Return Nothing, with_last_received_ping (Some time_msec) c)
  ∧ lineReceived streams time_msec ("REPLICATE " +:+ rest) c
    = (Return (Replicate (on_REPLICATE streams rest c).1),
       (on_REPLICATE streams rest c).2)
  ∧ ∀ state user_id,
      split_1 state = [state] →
      lineReceived streams time_msec ("USER_SYNC " +:+ state +:+ " " +:+ user_id) c
      = if bool_decide (state = "start" ∨ state = "end")
        then (Raise (AttributeError "'ReplicationStreamer' object has no attribute 'on_user_sync'"), c)
        else (Return Nothing,
              with_lost true
                (with_sent
                   (λ ls, ls ++ [Line "ERROR"
                                   [VFormat "invalide USER_SYNC state" []]]) c)).
Proof.
  split; [|split; [|split]].
  - unfold lineReceived. simpl String.append.
    rewrite bool_decide_eq_false_2 by by apply strip_not_blank.
    done.
  - unfold lineReceived. simpl String.append.
    rewrite bool_decide_eq_false_2 by by apply strip_not_blank.
    done.
  - unfold lineReceived. simpl String.append.
    rewrite bool_decide_eq_false_2 by by apply strip_not_blank.
    assert (Hsplit : split_1 ("REPLICATE " +:+ rest) = ["REPLICATE"; rest])
      by reflexivity.
    unfold mbind, M_bind, lift. rewrite Hsplit. cbn -[on_REPLICATE].
    change (bool_decide ("REPLICATE" ∉ VALID_CLIENT_COMMANDS)) with false.
    change (bool_decide ("REPLICATE" = Cmd.NAME)) with false.
    change (bool_decide ("REPLICATE" = Cmd.REPLICATE)) with true.
    cbv beta iota. by destruct (on_REPLICATE streams rest c).
  - intros state user_id Hstate. unfold lineReceived. simpl String.append.
    rewrite bool_decide_eq_false_2 by by apply strip_not_blank.
    assert (Hsplit : split_1 ("USER_SYNC " +:+ state +:+ " " +:+ user_id)
                     = ["USER_SYNC"; state +:+ " " +:+ user_id])
      by reflexivity.
    unfold mbind at 1, M_bind at 1, lift at 1. rewrite Hsplit.
    cbn -[on_USER_SYNC].
    change (bool_decide ("USER_SYNC" ∉ VALID_CLIENT_COMMANDS)) with false.
    change (bool_decide ("USER_SYNC" = Cmd.NAME)) with false.
    change (bool_decide ("USER_SYNC" = Cmd.REPLICATE)) with false.
    change (bool_decide ("USER_SYNC" = Cmd.PING)) with false.
    cbv beta iota. unfold on_USER_SYNC, mbind, M_bind, lift.
    rewrite split_1_join by done. cbn -[send_error].
    destruct (decide (state = "start" ∨ state = "end")) as [Hs|Hs].
    + rewrite (bool_decide_eq_true_2 _ Hs).
      rewrite bool_decide_eq_false_2; [done|].
      intros Hn. apply Hn. destruct Hs as [-> | ->]; set_solver.
    + rewrite (bool_decide_eq_false_2 _ Hs).
      rewrite bool_decide_eq_true_2.
      * by rewrite send_error_spec.
      * intros Hin. apply Hs.
        apply elem_of_cons in Hin as [->|Hin]; [by left|].
        apply elem_of_cons in Hin as [->|Hin]; [by right|].
        by apply elem_of_nil in Hin.
Qed.

(** ** The loop never spins *)

Section one_pass_facts.
Context {Conn : Type}.
Implicit Types w : Streamer Conn.

Lemma pass_result_one_begin w w' :
  pass_result (begin_pass w) w' →
  count is_PassBegin (log w') = (count is_PassBegin (log w) + 1)%nat.
Proof.
  intros [l Hl|l f s Hl Hs Hc]; simpl; count_log; lia.
Qed.

Context (send : string → updates_t → Streamer Conn → Streamer Conn).
Hypothesis send_delivered : ∀ name updates w, delivered w (send name updates w).

Lemma behaves_one_pass w (ev : event Conn) w' :
  behaves send w ev w' →
  (count is_PassBegin (log w') ≤ count is_PassBegin (log w) + 1)%nat.
Proof.
  intros Hb.
  destruct Hb as [ev Hev|Hnc|Hloop|w' Hloop Hres|k fetched Hk
                  |f s e fetched Hf Hst Hr
                  |f s fetched updates cur l w' Hf Hst Hr w2 Hl Hcases];
    try (simpl; lia).
  - destruct ev; simpl; lia.
  - rewrite (pass_result_one_begin _ _ Hres). simpl. lia.
  - simpl. count_log. lia.
  - destruct (send_delivered (NAME s) updates
                (with_streams
                   (<[f_index f := set_last_token s (f_current_token f)]>)
                   (with_suspended (λ _, []) w)))
      as (conns & l0 & Hlen & Hl0 & Hw2).
    fold w2 in Hw2. clearbody w2. subst w2.
    destruct Hcases as [(f' & s' & -> & _)|[[Hp ->]|[Hp Hres]]]; simpl.
    + count_log. lia.
    + count_log. lia.
    + rewrite (pass_result_one_begin _ _ Hres). simpl. count_log. lia.
Qed.
End one_pass_facts.

Section never_spins.
Context {Conn : Type} `{!Connection Conn}.
Implicit Types w : Streamer Conn.

(** X22. In tcp_resource.py the code that runs when the streamer is
    poked, or when the fetch its generator waits for returns, always
    comes to its end: the generator has returned, has raised or is
    suspended again after one turn of the [while] loop, or after two
    when a poke was noted meanwhile; allowing more turns changes
    nothing.  And in every state the streamer gets into, such a run
    begins one pass at most: the loop never spins. *)
Theorem poke_loop_never_spins (ss : list Stream) (evs : list (event Conn)) :
  let w := TcpResource.run (Streamer_init ss) evs in
  (∀ n, TcpResource.on_notifier_poke (S n) w
        = TcpResource.on_notifier_poke TcpResource.fuel w
        ∧ is_Some (TcpResource.on_notifier_poke TcpResource.fuel w))
  ∧ (∀ n f fetched,
       TcpResource.resume (S n) f fetched w
       = TcpResource.resume TcpResource.fuel f fetched w
       ∧ is_Some (TcpResource.resume TcpResource.fuel f fetched w))
  ∧ ∀ ev,
      (count is_PassBegin (log (TcpResource.step w ev))
       ≤ count is_PassBegin (log w) + 1)%nat.
Proof.
  intros w. split; [|split].
  - intros n.
    destruct (proj1 (tr_code_runs_to_its_end n w
                       {| f_index := 0; f_current_token := 0 |} (Return [])))
      as [Hn _].
    destruct (proj1 (tr_code_runs_to_its_end 1 w
                       {| f_index := 0; f_current_token := 0 |} (Return [])))
      as [H2 Hsome].
    unfold TcpResource.fuel. rewrite Hn, H2. done.
  - intros n f fetched.
    destruct (proj2 (tr_code_runs_to_its_end n w f fetched)) as [Hn _].
    destruct (proj2 (tr_code_runs_to_its_end 1 w f fetched)) as [H2 Hsome].
    unfold TcpResource.fuel. rewrite Hn, H2. done.
  - intros ev.
    apply (behaves_one_pass _ tr_send_updates_delivered w ev), tr_step_behaves.
    apply flags_inv_ready.
    apply (run_flags_inv _ tr_send_updates_delivered _ tr_step_behaves),
      flags_inv_init.
Qed.

(** X23. The same in tcp/resource.py: the code that runs at a poke or
    when the awaited fetch returns always comes to its end, after two
    tests of the condition of the [while] loop at most, and begins one
    pass at most. *)
Theorem tcp_poke_loop_never_spins (ss : list Stream) (evs : list (event Conn)) :
  let w := Tcp.run (Streamer_init ss) evs in
  (∀ n, Tcp.on_notifier_poke (S (S n)) w = Tcp.on_notifier_poke Tcp.fuel w
        ∧ is_Some (Tcp.on_notifier_poke Tcp.fuel w))
  ∧ (∀ n f fetched,
       Tcp.resume (S (S n)) f fetched w = Tcp.resume Tcp.fuel f fetched w
       ∧ is_Some (Tcp.resume Tcp.fuel f fetched w))
  ∧ ∀ ev,
      (count is_PassBegin (log (Tcp.step w ev))
       ≤ count is_PassBegin (log w) + 1)%nat.
Proof.
  intros w. split; [|split].
  - intros n.
    apply (proj1 (tcp_code_runs_to_its_end n w
                    {| f_index := 0; f_current_token := 0 |} (Return []))).
  - intros n f fetched. apply (proj2 (tcp_code_runs_to_its_end n w f fetched)).
  - intros ev.
    apply (behaves_one_pass _ tcp_send_delivered w ev), tcp_step_behaves.
    apply flags_inv_ready.
    apply (run_flags_inv _ tcp_send_delivered _ tcp_step_behaves),
      flags_inv_init.
Qed.
End never_spins.

(** ** What a suspended pass waits for *)

Section pending_fetch.
Context {Conn : Type} `{!Connection Conn}.
Implicit Types w : Streamer Conn.

(** X24. In tcp_resource.py, in every state the streamer gets into,
    a pass that is suspended waits for one fetch, and it is the last
    thing the loop did: the call of the update function for the stream
    the pass stopped at, from that stream's [last_token] to its
    [upto_token], which differ, with limit [MAX_EVENTS_BEHIND + 1]; the
    token the pass will return with is that [upto_token], and the
    streams before that one have caught up. *)
Theorem suspended_pass_waits_for_the_gap
    (ss : list Stream) (evs : list (event Conn)) (f : frame) :
  let w := TcpResource.run (Streamer_init ss) evs in
  suspended w = [f] →
  ∃ s, streams w !! f_index f = Some s
       ∧ last_token s ≠ upto_token s
       ∧ f_current_token f = upto_token s
       ∧ last (log w)
         = Some (Fetch (NAME s)
                   {| fc_from := last_token s; fc_to := upto_token s;
                      fc_limit := 10001 |})
       ∧ ∀ j s', (j < f_index f)%nat → streams w !! j = Some s' →
                 last_token s' = upto_token s'.
Proof.
  intros w Hf.
  destruct (pi_frame w (tr_run_progress evs _ (progress_inv_init ss)) f)
    as (s & Hs & Hc & Hne & Hlast & Hb).
  { rewrite Hf. by apply list_elem_of_singleton. }
  exists s. repeat split; try done.
Qed.

(** X25. The same in tcp/resource.py. *)
Theorem tcp_suspended_pass_waits_for_the_gap
    (ss : list Stream) (evs : list (event Conn)) (f : frame) :
  let w := Tcp.run (Streamer_init ss) evs in
  suspended w = [f] →
  ∃ s, streams w !! f_index f = Some s
       ∧ last_token s ≠ upto_token s
       ∧ f_current_token f = upto_token s
       ∧ last (log w)
         = Some (Fetch (NAME s)
                   {| fc_from := last_token s; fc_to := upto_token s;
                      fc_limit := 10001 |})
       ∧ ∀ j s', (j < f_index f)%nat → streams w !! j = Some s' →
                 last_token s' = upto_token s'.
Proof.
  intros w Hf.
  destruct (pi_frame w (tcp_run_progress evs _ (progress_inv_init ss)) f)
    as (s & Hs & Hc & Hne & Hlast & Hb).
  { rewrite Hf. by apply list_elem_of_singleton. }
  exists s. repeat split; try done.
Qed.
End pending_fetch.

Lemma suspended_pass_waits_for_the_gap_witness :
  last (log (TcpResource.run (Streamer_init example_streams) fan_out_events))
  = Some (Fetch "events" {| fc_from := 5; fc_to := 7; fc_limit := 10001 |}).
Proof.
  destruct (suspended_pass_waits_for_the_gap example_streams fan_out_events
              {| f_index := 0; f_current_token := 7 |} eq_refl)
    as (s & Hs & _ & _ & Hlast & _).
  injection Hs as <-. exact Hlast.
Defined.

Lemma tcp_suspended_pass_waits_for_the_gap_witness :
  last (log (Tcp.run (Streamer_init example_streams) fan_out_events))
  = Some (Fetch "events" {| fc_from := 5; fc_to := 7; fc_limit := 10001 |}).
Proof.
  destruct (tcp_suspended_pass_waits_for_the_gap example_streams fan_out_events
              {| f_index := 0; f_current_token := 7 |} eq_refl)
    as (s & Hs & _ & _ & Hlast & _).
  injection Hs as <-. exact Hlast.
Defined.
